(** * Patchwork: the shape library of [Shape.h]

    A shallow embedding of the classes [Circle], [Polygon], [Line],
    [Ellipse] and [Image] of namespace [Patchwork], of their geometric
    transforms, of their bounding boxes, of their equality operators and of
    the textual codec ([serialize] / [Image::deserialize]).

    Conventions.
    - A C++ [float] is modelled twice.  In [Maths] it is an exact rational
      ([Qc], rationals in lowest terms); the statements on that model are
      about bounding boxes, equality operators and the textual codec, and
      rest on comparisons, truncation to [int], printing and reading, or
      on values that the operations involved do not round.  In [Binary32]
      it is an IEEE 754 binary32 float, every operation rounded to the
      nearest float, ties to even, with signed zeros, infinities and NaN;
      the statements that depend on how a transform rounds are made there.
    - A C++ [int] is a [Z].  Signed overflow and out-of-range
      float-to-int casts are undefined in C++ and are not given a meaning
      here; only [std::stoi] checks the 32-bit range, as the library does.
    - A method that mutates [*this] is a function from the old object to
      the new one.  A [const Vec2&] argument is a value in the modules over
      [Maths]; in [Binary32] it is the place it is bound to, which can be
      a member of the object itself.  Float expressions are evaluated
      in [float], one rounding for each operation, none of them fused.
      The two zeros of a float are one number in [Maths].  The mutex of
      [Image] guards sequential code only and is left out.  Components
      are owned values, as in the data model of the specification. *)

From Stdlib Require Import ZArith QArith Qcanon String Ascii List Bool Lia.
From Stdlib Require SpecFloat.
Import ListNotations.

Local Open Scope Z_scope.

(** ** Maths.h *)

Module Maths.

(** Modelled from the spec: [Maths.h] is not part of the sources.  The
    scalar type is the one the shapes use for coordinates and radii. *)
Definition float : Type := Qc.

(** Conversion [int -> float]. *)
Definition of_int (z : Z) : float := Q2Qc (inject_Z z).

(** Conversion [float -> int], written [(int)f] or left implicit in the
    source: truncation toward zero. *)
Definition to_int (f : float) : Z :=
  Z.quot (Qnum (this f)) (Zpos (Qden (this f))).

Definition fadd (a b : float) : float := Qcplus a b.
Definition fsub (a b : float) : float := Qcminus a b.
Definition fmul (a b : float) : float := Qcmult a b.
Definition fdiv (a b : float) : float := Qcdiv a b.
Definition fneg (a : float) : float := Qcopp a.

(** [a < b] and [a == b] on floats. *)
Definition fltb (a b : float) : bool :=
  match Qccompare a b with Lt => true | _ => false end.
Definition feqb (a b : float) : bool := Qeq_bool (this a) (this b).

(** Modelled from the spec: [Vec2] is a pair of floats with addition,
    subtraction, multiplication by a scalar and dot product. *)
Record Vec2 : Type := mkVec2 { x : float; y : float }.

Definition vadd (a b : Vec2) : Vec2 :=
  mkVec2 (fadd (x a) (x b)) (fadd (y a) (y b)).
Definition vsub (a b : Vec2) : Vec2 :=
  mkVec2 (fsub (x a) (x b)) (fsub (y a) (y b)).
Definition vscale (k : float) (a : Vec2) : Vec2 :=
  mkVec2 (fmul k (x a)) (fmul k (y a)).
Definition dot (a b : Vec2) : float :=
  fadd (fmul (x a) (x b)) (fmul (y a) (y b)).

(** Modelled from the spec: [Color] is three integers, compared
    component by component. *)
Record Color : Type := mkColor { r : Z; g : Z; b : Z }.

Definition Color_eq (c d : Color) : bool :=
  Z.eqb (r c) (r d) && Z.eqb (g c) (g d) && Z.eqb (b c) (b d).

(** The remaining declarations of [Maths.h] that the shapes call and that
    the specification does not define: the sine and cosine
    approximations and the equality of two [Vec2].  They are parameters
    of everything that uses them. *)
Class Params : Type := {
  fast_sin : float -> float;
  fast_cos : float -> float;
  Vec2_eq : Vec2 -> Vec2 -> bool
}.

End Maths.

Import Maths.

Declare Scope float_scope.
Delimit Scope float_scope with f.
Infix "+" := fadd : float_scope.
Infix "-" := fsub : float_scope.
Infix "*" := fmul : float_scope.
Infix "/" := fdiv : float_scope.
Infix "<?" := fltb : float_scope.

Declare Scope vec_scope.
Delimit Scope vec_scope with v.
Infix "+" := vadd : vec_scope.
Infix "-" := vsub : vec_scope.
Infix "*" := vscale : vec_scope.

(** ** BoundingBox *)

Record BoundingBox : Type := mkBB {
  x_max : Z;
  x_min : Z;
  y_max : Z;
  y_min : Z
}.

(** The default constructor: maxima at -10000, minima at 10000. *)
Definition BoundingBox_new : BoundingBox :=
  mkBB (-10000) 10000 (-10000) 10000.

Definition set_x_max (v : Z) (bb : BoundingBox) : BoundingBox :=
  mkBB v (x_min bb) (y_max bb) (y_min bb).
Definition set_x_min (v : Z) (bb : BoundingBox) : BoundingBox :=
  mkBB (x_max bb) v (y_max bb) (y_min bb).
Definition set_y_max (v : Z) (bb : BoundingBox) : BoundingBox :=
  mkBB (x_max bb) (x_min bb) v (y_min bb).
Definition set_y_min (v : Z) (bb : BoundingBox) : BoundingBox :=
  mkBB (x_max bb) (x_min bb) (y_max bb) v.

(** ** Shape: the discriminant and the keyword tables *)

Inductive Derivedtype : Type :=
  CIRCLE | POLYGON | LINE | ELLIPSE | IMAGE | END_ENUM.

Inductive Functions : Type :=
  ROTATION | HOMOTHETY | TRANSLATE | AXIAL_SYMETRY | CENTRAL_SYMETRY | UNKNOWN.

(** The integer value of each enumerator ([CIRCLE = 0], then counting). *)
Definition Derivedtype_value (d : Derivedtype) : Z :=
  match d with
  | CIRCLE => 0 | POLYGON => 1 | LINE => 2 | ELLIPSE => 3
  | IMAGE => 4 | END_ENUM => 5
  end.

Definition Functions_value (f : Functions) : Z :=
  match f with
  | ROTATION => 0 | HOMOTHETY => 1 | TRANSLATE => 2 | AXIAL_SYMETRY => 3
  | CENTRAL_SYMETRY => 4 | UNKNOWN => 5
  end.

(** [static_cast<Derivedtype>(i)] for an index of the table [shapes]. *)
Definition Derivedtype_of_index (i : nat) : Derivedtype :=
  match i with
  | 0%nat => CIRCLE | 1%nat => POLYGON | 2%nat => LINE | 3%nat => ELLIPSE
  | 4%nat => IMAGE | _ => END_ENUM
  end.

Definition shapes : list string :=
  ["circle"; "polygon"; "line"; "ellipse"]%string.

(** [Shape::ShapeStringToEnum]: the index of the first entry of [shapes]
    equal to [s], [END_ENUM] when there is none. *)
Fixpoint ShapeStringToEnum_from (i : nat) (tbl : list string) (s : string)
  : Derivedtype :=
  match tbl with
  | [] => END_ENUM
  | k :: tbl' =>
      if String.eqb k s then Derivedtype_of_index i
      else ShapeStringToEnum_from (S i) tbl' s
  end.

Definition ShapeStringToEnum (s : string) : Derivedtype :=
  ShapeStringToEnum_from 0 shapes s.

(** ** Printing numbers: [Patchwork::to_string] *)

Definition digit_char (d : Z) : ascii :=
  ascii_of_nat (48 + Z.to_nat d).

(** The decimal digits of a non-negative integer, most significant first,
    as [operator<<] prints them.  The fuel bounds the number of digits. *)
Fixpoint digits_from (fuel : nat) (n : Z) (acc : string) : string :=
  let acc' := String (digit_char (n mod 10)) acc in
  match fuel with
  | O => acc'
  | S fuel' => if n <? 10 then acc' else digits_from fuel' (n / 10) acc'
  end.

Definition digits (n : Z) : string :=
  digits_from (Z.to_nat (Z.log2 n)) n EmptyString.

(** [to_string(int)]: [stream << i]. *)
Definition to_string_int (i : Z) : string :=
  if i <? 0 then String "-" (digits (- i)) else digits i.

(** The number of hundredths nearest to [|f|], ties to the even one: the
    digits that [std::fixed << std::setprecision(2)] prints. *)
Definition hundredths (f : float) : Z :=
  let n := Z.abs (Qnum (this f)) * 100 in
  let d := Zpos (Qden (this f)) in
  let h := n / d in
  let rem := n mod d in
  if d <? 2 * rem then h + 1
  else if (d =? 2 * rem) && Z.odd h then h + 1
  else h.

(** [to_string(float)]: fixed notation with exactly two decimals. *)
Definition to_string_float (f : float) : string :=
  let h := hundredths f in
  let body :=
    (digits (h / 100) ++
     String "." (String (digit_char (h mod 100 / 10))
                   (String (digit_char (h mod 10)) EmptyString)))%string in
  if Qnum (this f) <? 0 then String "-" body else body.

(** ** Circle *)

Module Circle.

Record t : Type := mk {
  m_type : Derivedtype;
  m_color : Color;
  m_origin : Vec2;
  m_radius : float
}.

(** The constructor [Circle(origin, radius, color)]. *)
Definition new (origin : Vec2) (radius : float) (color : Color) : t :=
  mk CIRCLE color origin radius.

Definition set_origin (o : Vec2) (c : t) : t :=
  mk (m_type c) (m_color c) o (m_radius c).
Definition set_radius (rad : float) (c : t) : t :=
  mk (m_type c) (m_color c) (m_origin c) rad.

(** [homothety(ratio)]: [m_radius *= ratio]. *)
Definition homothety (ratio : float) (c : t) : t :=
  set_radius (m_radius c * ratio)%f c.

(** [homothety(p, ratio)]. *)
Definition homothety_at (p : Vec2) (ratio : float) (c : t) : t :=
  let u := (m_origin c - p)%v in
  let c1 := set_origin (p + ratio * u)%v c in
  set_radius (m_radius c1 * ratio)%f c1.

(** [rotate(p, angle)], for an argument [p] that is not the centre of
    the circle itself; the call on [origin()] is [Binary32.Circle.rotate]
    at [Member 0]. *)
Definition rotate_at {P : Params} (p : Vec2) (angle : float) (c : t) : t :=
  let s := fast_sin angle in
  let co := fast_cos angle in
  let ox := (x (m_origin c) - x p)%f in
  let oy := (y (m_origin c) - y p)%f in
  let x' := ((ox * co - oy * s) + x p)%f in
  let y' := ((ox * s + oy * co) + y p)%f in
  set_origin (mkVec2 x' y') c.

(** [rotate(angle)]: the body is empty. *)
Definition rotate (angle : float) (c : t) : t := c.

Definition translate (v : Vec2) (c : t) : t :=
  set_origin (m_origin c + v)%v c.

Definition centralSym (p : Vec2) (c : t) : t :=
  let t := (of_int 2 * (p - m_origin c))%v in
  translate t c.

Definition axialSym (p d : Vec2) (c : t) : t :=
  let p1 := (p + d)%v in
  let w := (m_origin c - p)%v in
  let vl := (p1 - p)%v in
  let b := (dot w vl / dot vl vl)%f in
  let intersection := (p + b * vl)%v in
  translate (of_int 2 * (intersection - m_origin c))%v c.

Definition serialize (serial : string) (c : t) : string :=
  let serial := (serial ++ " circle")%string in
  let serial := (serial ++ " " ++ to_string_float (x (m_origin c)))%string in
  let serial := (serial ++ " " ++ to_string_float (y (m_origin c)))%string in
  let serial := (serial ++ " " ++ to_string_float (m_radius c))%string in
  let serial := (serial ++ " " ++ to_string_int (r (m_color c)))%string in
  let serial := (serial ++ " " ++ to_string_int (g (m_color c)))%string in
  (serial ++ " " ++ to_string_int (b (m_color c)))%string.

Definition bounding_box (c : t) : BoundingBox :=
  let bb := BoundingBox_new in
  let bb := set_x_min (to_int (x (m_origin c) - m_radius c)%f) bb in
  let bb := set_x_max (to_int (x (m_origin c) + m_radius c)%f) bb in
  let bb := set_y_min (to_int (y (m_origin c) - m_radius c)%f) bb in
  set_y_max (to_int (y (m_origin c) + m_radius c)%f) bb.

(** [operator==(const Circle&, const Circle&)]. *)
Definition eq {P : Params} (a b : t) : bool :=
  if Vec2_eq (m_origin a) (m_origin b)
     && feqb (m_radius a) (m_radius b)
     && Color_eq (m_color a) (m_color b)
  then true else false.

End Circle.

(** ** Polygon *)

Module Polygon.

Record t : Type := mk {
  m_type : Derivedtype;
  m_color : Color;
  m_points : list Vec2
}.

Definition new (points : list Vec2) (color : Color) : t :=
  mk POLYGON color points.

Definition set_points (pts : list Vec2) (p : t) : t :=
  mk (m_type p) (m_color p) pts.

(** One turn of the loop of [bounding_box]. *)
Definition bounding_box_step (bb : BoundingBox) (point : Vec2)
  : BoundingBox :=
  let bb := if (x point <? of_int (x_min bb))%f
            then set_x_min (to_int (x point)) bb else bb in
  let bb := if (of_int (x_max bb) <? x point)%f
            then set_x_max (to_int (x point)) bb else bb in
  let bb := if (y point <? of_int (y_min bb))%f
            then set_y_min (to_int (y point)) bb else bb in
  if (of_int (y_max bb) <? y point)%f
  then set_y_max (to_int (y point)) bb else bb.

Definition bounding_box (p : t) : BoundingBox :=
  fold_left bounding_box_step (m_points p) BoundingBox_new.

(** [homothety(ratio)], about the centre of the bounding box. *)
Definition homothety (ratio : float) (p : t) : t :=
  let bb := bounding_box p in
  let center :=
    mkVec2
      (of_int (x_max bb) - (of_int (x_max bb - x_min bb) / of_int 2))%f
      (of_int (y_max bb) - (of_int (y_max bb - y_min bb) / of_int 2))%f in
  set_points
    (map (fun it => let u := (it - center)%v in (center + ratio * u)%v)
         (m_points p)) p.

Definition homothety_at (o : Vec2) (ratio : float) (p : t) : t :=
  set_points
    (map (fun it => let u := (it - o)%v in (o + ratio * u)%v)
         (m_points p)) p.

(** [rotate(p, angle)], for an argument [p] that is not a vertex of the
    polygon itself; the call on a vertex is [Binary32.Polygon.rotate] at
    [Member k]. *)
Definition rotate_at {P : Params} (p : Vec2) (angle : float) (pg : t) : t :=
  set_points
    (map (fun it =>
            let s := fast_sin angle in
            let c := fast_cos angle in
            let ix := (x it - x p)%f in
            let iy := (y it - y p)%f in
            let x' := ((ix * c - iy * s) + x p)%f in
            let y' := ((ix * s + iy * c) + y p)%f in
            mkVec2 x' y')
         (m_points pg)) pg.

(** [rotate(angle)]: every point is turned about (0,0). *)
Definition rotate {P : Params} (angle : float) (pg : t) : t :=
  set_points
    (map (fun it =>
            let s := fast_sin angle in
            let c := fast_cos angle in
            let x' := (x it * c - y it * s)%f in
            let y' := (x it * s + y it * c)%f in
            mkVec2 x' y')
         (m_points pg)) pg.

(** [translate(v)], for an argument [v] that is not a vertex of the
    polygon itself; the call on a vertex is [Binary32.Polygon.translate]
    at [Member k]. *)
Definition translate (v : Vec2) (p : t) : t :=
  set_points (map (fun it => (it + v)%v) (m_points p)) p.

Definition centralSym (p : Vec2) (pg : t) : t :=
  set_points
    (map (fun it => let t := (of_int 2 * (p - it))%v in (it + t)%v)
         (m_points pg)) pg.

Definition axialSym (p v : Vec2) (pg : t) : t :=
  set_points
    (map (fun it =>
            let p1 := (p + v)%v in
            let w := (it - p)%v in
            let vl := (p1 - p)%v in
            let b := (dot w vl / dot vl vl)%f in
            let intersection := (p + b * vl)%v in
            (it + of_int 2 * (intersection - it))%v)
         (m_points pg)) pg.

Definition serialize (serial : string) (p : t) : string :=
  let serial := (serial ++ " polygon")%string in
  let serial :=
    (serial ++ " " ++ to_string_int (Z.of_nat (length (m_points p))))%string in
  let serial :=
    fold_left
      (fun serial point =>
         let serial := (serial ++ " " ++ to_string_float (x point))%string in
         (serial ++ " " ++ to_string_float (y point))%string)
      (m_points p) serial in
  let serial := (serial ++ " " ++ to_string_int (r (m_color p)))%string in
  let serial := (serial ++ " " ++ to_string_int (g (m_color p)))%string in
  (serial ++ " " ++ to_string_int (b (m_color p)))%string.

(** [operator==] of two [std::vector<Vec2>]: same size and equal
    elements, position by position. *)
Fixpoint vector_eq {P : Params} (a b : list Vec2) : bool :=
  match a, b with
  | [], [] => true
  | u :: a', v :: b' => Vec2_eq u v && vector_eq a' b'
  | _, _ => false
  end.

(** [operator==(const Polygon&, const Polygon&)]. *)
Definition eq {P : Params} (a b : t) : bool :=
  if vector_eq (m_points a) (m_points b) then true else false.

End Polygon.

(** ** Line *)

Module Line.

Record t : Type := mk {
  m_type : Derivedtype;
  m_color : Color;
  m_point : Vec2;
  m_direction : Vec2
}.

Definition new (point direction : Vec2) (color : Color) : t :=
  mk LINE color point direction.

Definition set_point (p : Vec2) (l : t) : t :=
  mk (m_type l) (m_color l) p (m_direction l).
Definition set_direction (d : Vec2) (l : t) : t :=
  mk (m_type l) (m_color l) (m_point l) d.

(** Both overloads of [homothety] have an empty body. *)
Definition homothety (ratio : float) (l : t) : t := l.
Definition homothety_at (p : Vec2) (ratio : float) (l : t) : t := l.

(** [rotate(angle)]: the second end is turned about [m_point]. *)
Definition rotate {P : Params} (angle : float) (l : t) : t :=
  let p := (m_point l + m_direction l)%v in
  let px := (x p - x (m_point l))%f in
  let py := (y p - y (m_point l))%f in
  let s := fast_sin angle in
  let c := fast_cos angle in
  let x' := ((px * c - py * s) + x (m_point l))%f in
  let y' := ((px * s + py * c) + y (m_point l))%f in
  set_direction (mkVec2 x' y' - m_point l)%v l.

(** [rotate(p, angle)]: both ends are turned about [p], for an argument
    [p] that is not a member of the line itself; the call on [point()] is
    [Binary32.Line.rotate] at [Member 0]. *)
Definition rotate_at {P : Params} (p : Vec2) (angle : float) (l : t) : t :=
  let point := (m_point l + m_direction l)%v in
  let qx := (x point - x p)%f in
  let qy := (y point - y p)%f in
  let s := fast_sin angle in
  let c := fast_cos angle in
  let x' := ((qx * c - qy * s) + x p)%f in
  let y' := ((qx * s + qy * c) + y p)%f in
  let mx := (x (m_point l) - x p)%f in
  let my := (y (m_point l) - y p)%f in
  let c_x := ((mx * c - my * s) + x p)%f in
  let c_y := ((mx * s + my * c) + y p)%f in
  let l1 := set_point (mkVec2 c_x c_y) l in
  set_direction (mkVec2 x' y' - m_point l1)%v l1.

Definition translate (v : Vec2) (l : t) : t :=
  set_point (m_point l + v)%v l.

Definition centralSym (c : Vec2) (l : t) : t :=
  let t := (of_int 2 * (c - m_point l))%v in
  translate t l.

(** [axialSym] has an empty body. *)
Definition axialSym (p d : Vec2) (l : t) : t := l.

Definition serialize (serial : string) (l : t) : string :=
  let serial := (serial ++ " line")%string in
  let serial := (serial ++ " " ++ to_string_float (x (m_point l)))%string in
  let serial := (serial ++ " " ++ to_string_float (y (m_point l)))%string in
  let serial :=
    (serial ++ " " ++ to_string_float (x (m_direction l)))%string in
  let serial :=
    (serial ++ " " ++ to_string_float (y (m_direction l)))%string in
  let serial := (serial ++ " " ++ to_string_int (r (m_color l)))%string in
  let serial := (serial ++ " " ++ to_string_int (g (m_color l)))%string in
  (serial ++ " " ++ to_string_int (b (m_color l)))%string.

(** [bounding_box]: the two assignments of each [if] convert a float to
    an [int]; neither [if] has an [else]. *)
Definition bounding_box (l : t) : BoundingBox :=
  let bb := BoundingBox_new in
  let p2 := (m_point l + m_direction l)%v in
  let bb :=
    if (x p2 <? x (m_point l))%f
    then set_x_max (to_int (x (m_point l))) (set_x_min (to_int (x p2)) bb)
    else bb in
  if (y p2 <? y (m_point l))%f
  then set_y_max (to_int (y (m_point l))) (set_y_min (to_int (y p2)) bb)
  else bb.

(** [operator==(const Line&, const Line&)]. *)
Definition eq {P : Params} (a b : t) : bool :=
  if Vec2_eq (m_point a) (m_point b)
     && Vec2_eq (m_direction a) (m_direction b)
  then true else false.

End Line.

(** ** Ellipse *)

Module Ellipse.

Record t : Type := mk {
  m_type : Derivedtype;
  m_color : Color;
  m_origin : Vec2;
  m_radius : Vec2
}.

Definition new (origin radius : Vec2) (color : Color) : t :=
  mk ELLIPSE color origin radius.

Definition set_origin (o : Vec2) (e : t) : t :=
  mk (m_type e) (m_color e) o (m_radius e).
Definition set_radius (rad : Vec2) (e : t) : t :=
  mk (m_type e) (m_color e) (m_origin e) rad.

Definition homothety (ratio : float) (e : t) : t :=
  set_radius (ratio * m_radius e)%v e.

Definition homothety_at (s : Vec2) (ratio : float) (e : t) : t :=
  let u := (m_origin e - s)%v in
  let e1 := set_origin (s + ratio * u)%v e in
  set_radius (ratio * m_radius e1)%v e1.

(** Both overloads of [rotate] have an empty body. *)
Definition rotate_at (c : Vec2) (angle : float) (e : t) : t := e.
Definition rotate (angle : float) (e : t) : t := e.

Definition translate (v : Vec2) (e : t) : t :=
  set_origin (m_origin e + v)%v e.

Definition centralSym (p : Vec2) (e : t) : t :=
  let t := (of_int 2 * (p - m_origin e))%v in
  translate t e.

Definition axialSym (p v : Vec2) (e : t) : t :=
  let p1 := (p + v)%v in
  let w := (m_origin e - p)%v in
  let vl := (p1 - p)%v in
  let b := (dot w vl / dot vl vl)%f in
  let intersection := (p + b * vl)%v in
  translate (of_int 2 * (intersection - m_origin e))%v e.

Definition serialize (serial : string) (e : t) : string :=
  let serial := (serial ++ " ellipse")%string in
  let serial := (serial ++ " " ++ to_string_float (x (m_origin e)))%string in
  let serial := (serial ++ " " ++ to_string_float (y (m_origin e)))%string in
  let serial := (serial ++ " " ++ to_string_float (x (m_radius e)))%string in
  let serial := (serial ++ " " ++ to_string_float (y (m_radius e)))%string in
  let serial := (serial ++ " " ++ to_string_int (r (m_color e)))%string in
  let serial := (serial ++ " " ++ to_string_int (g (m_color e)))%string in
  (serial ++ " " ++ to_string_int (b (m_color e)))%string.

Definition bounding_box (e : t) : BoundingBox :=
  let bb := BoundingBox_new in
  let bb := set_x_min (to_int (x (m_origin e) - x (m_radius e))%f) bb in
  let bb := set_x_max (to_int (x (m_origin e) + x (m_radius e))%f) bb in
  let bb := set_y_min (to_int (y (m_origin e) - y (m_radius e))%f) bb in
  set_y_max (to_int (y (m_origin e) + y (m_radius e))%f) bb.

(** [operator==(const Ellipse&, const Ellipse&)]. *)
Definition eq {P : Params} (a b : t) : bool :=
  if Vec2_eq (m_origin a) (m_origin b)
     && Vec2_eq (m_radius a) (m_radius b)
  then true else false.

End Ellipse.

(** ** Shape: the class hierarchy and the virtual calls

    A [Shape*] points to an object of one of the five derived classes; a
    virtual call runs the override of that class.  [Image] is itself a
    [Shape] and holds a vector of [Shape*], so the two types are mutually
    defined, and so is every method that [Image] forwards to its
    components. *)

Module Shape.

Inductive t : Type :=
| OfCircle (c : Circle.t)
| OfPolygon (p : Polygon.t)
| OfLine (l : Line.t)
| OfEllipse (e : Ellipse.t)
| OfImage (i : image)
with image : Type :=
| mkImage (m_type : Derivedtype) (m_color : Color)
          (components_ : list t) (annotation : string) (origin_ : Vec2).

Definition Image_type (i : image) : Derivedtype :=
  let (ty, _, _, _, _) := i in ty.
Definition Image_color (i : image) : Color :=
  let (_, c, _, _, _) := i in c.

(** [Shape::type()] and [Shape::color()]. *)
Definition type (s : t) : Derivedtype :=
  match s with
  | OfCircle c => Circle.m_type c
  | OfPolygon p => Polygon.m_type p
  | OfLine l => Line.m_type l
  | OfEllipse e => Ellipse.m_type e
  | OfImage i => Image_type i
  end.

Definition color (s : t) : Color :=
  match s with
  | OfCircle c => Circle.m_color c
  | OfPolygon p => Polygon.m_color p
  | OfLine l => Line.m_color l
  | OfEllipse e => Ellipse.m_color e
  | OfImage i => Image_color i
  end.

Fixpoint translate (v : Vec2) (s : t) : t :=
  match s with
  | OfCircle c => OfCircle (Circle.translate v c)
  | OfPolygon p => OfPolygon (Polygon.translate v p)
  | OfLine l => OfLine (Line.translate v l)
  | OfEllipse e => OfEllipse (Ellipse.translate v e)
  | OfImage i => OfImage (Image_translate v i)
  end
with Image_translate (v : Vec2) (i : image) : image :=
  match i with
  | mkImage ty col cs a o => mkImage ty col (map (translate v) cs) a o
  end.

Fixpoint homothety (ratio : float) (s : t) : t :=
  match s with
  | OfCircle c => OfCircle (Circle.homothety ratio c)
  | OfPolygon p => OfPolygon (Polygon.homothety ratio p)
  | OfLine l => OfLine (Line.homothety ratio l)
  | OfEllipse e => OfEllipse (Ellipse.homothety ratio e)
  | OfImage i => OfImage (Image_homothety ratio i)
  end
with Image_homothety (ratio : float) (i : image) : image :=
  match i with
  | mkImage ty col cs a o => mkImage ty col (map (homothety ratio) cs) a o
  end.

Fixpoint homothety_at (p : Vec2) (ratio : float) (s : t) : t :=
  match s with
  | OfCircle c => OfCircle (Circle.homothety_at p ratio c)
  | OfPolygon pg => OfPolygon (Polygon.homothety_at p ratio pg)
  | OfLine l => OfLine (Line.homothety_at p ratio l)
  | OfEllipse e => OfEllipse (Ellipse.homothety_at p ratio e)
  | OfImage i => OfImage (Image_homothety_at p ratio i)
  end
with Image_homothety_at (p : Vec2) (ratio : float) (i : image) : image :=
  match i with
  | mkImage ty col cs a o =>
      mkImage ty col (map (homothety_at p ratio) cs) a o
  end.

Fixpoint rotate {P : Params} (angle : float) (s : t) : t :=
  match s with
  | OfCircle c => OfCircle (Circle.rotate angle c)
  | OfPolygon p => OfPolygon (Polygon.rotate angle p)
  | OfLine l => OfLine (Line.rotate angle l)
  | OfEllipse e => OfEllipse (Ellipse.rotate angle e)
  | OfImage i => OfImage (Image_rotate angle i)
  end
with Image_rotate {P : Params} (angle : float) (i : image) : image :=
  match i with
  | mkImage ty col cs a o => mkImage ty col (map (rotate angle) cs) a o
  end.

Fixpoint rotate_at {P : Params} (p : Vec2) (angle : float) (s : t) : t :=
  match s with
  | OfCircle c => OfCircle (Circle.rotate_at p angle c)
  | OfPolygon pg => OfPolygon (Polygon.rotate_at p angle pg)
  | OfLine l => OfLine (Line.rotate_at p angle l)
  | OfEllipse e => OfEllipse (Ellipse.rotate_at p angle e)
  | OfImage i => OfImage (Image_rotate_at p angle i)
  end
with Image_rotate_at {P : Params} (p : Vec2) (angle : float) (i : image)
  : image :=
  match i with
  | mkImage ty col cs a o =>
      mkImage ty col (map (rotate_at p angle) cs) a o
  end.

Fixpoint centralSym (p : Vec2) (s : t) : t :=
  match s with
  | OfCircle c => OfCircle (Circle.centralSym p c)
  | OfPolygon pg => OfPolygon (Polygon.centralSym p pg)
  | OfLine l => OfLine (Line.centralSym p l)
  | OfEllipse e => OfEllipse (Ellipse.centralSym p e)
  | OfImage i => OfImage (Image_centralSym p i)
  end
with Image_centralSym (p : Vec2) (i : image) : image :=
  match i with
  | mkImage ty col cs a o => mkImage ty col (map (centralSym p) cs) a o
  end.

Fixpoint axialSym (p d : Vec2) (s : t) : t :=
  match s with
  | OfCircle c => OfCircle (Circle.axialSym p d c)
  | OfPolygon pg => OfPolygon (Polygon.axialSym p d pg)
  | OfLine l => OfLine (Line.axialSym p d l)
  | OfEllipse e => OfEllipse (Ellipse.axialSym p d e)
  | OfImage i => OfImage (Image_axialSym p d i)
  end
with Image_axialSym (p d : Vec2) (i : image) : image :=
  match i with
  | mkImage ty col cs a o => mkImage ty col (map (axialSym p d) cs) a o
  end.

(** One turn of the loop of [Image::bounding_box]: [bb_] grows to
    contain the box [bb] of the component. *)
Definition Image_bounding_box_step (bb_ bb : BoundingBox) : BoundingBox :=
  let bb_ := if x_max bb_ <? x_max bb then set_x_max (x_max bb) bb_
             else bb_ in
  let bb_ := if x_min bb <? x_min bb_ then set_x_min (x_min bb) bb_
             else bb_ in
  let bb_ := if y_max bb_ <? y_max bb then set_y_max (y_max bb) bb_
             else bb_ in
  if y_min bb <? y_min bb_ then set_y_min (y_min bb) bb_ else bb_.

Fixpoint bounding_box (s : t) : BoundingBox :=
  match s with
  | OfCircle c => Circle.bounding_box c
  | OfPolygon p => Polygon.bounding_box p
  | OfLine l => Line.bounding_box l
  | OfEllipse e => Ellipse.bounding_box e
  | OfImage i => Image_bounding_box i
  end
with Image_bounding_box (i : image) : BoundingBox :=
  match i with
  | mkImage _ _ cs _ _ =>
      fold_left Image_bounding_box_step (map bounding_box cs)
                BoundingBox_new
  end.

Fixpoint serialize (serial : string) (s : t) : string :=
  match s with
  | OfCircle c => Circle.serialize serial c
  | OfPolygon p => Polygon.serialize serial p
  | OfLine l => Line.serialize serial l
  | OfEllipse e => Ellipse.serialize serial e
  | OfImage i => Image_serialize serial i
  end
with Image_serialize (serial : string) (i : image) : string :=
  match i with
  | mkImage _ _ cs a _ =>
      let serial :=
        (fix loop (cs : list t) (serial : string) : string :=
           match cs with
           | [] => serial
           | component :: cs' => loop cs' (serialize serial component)
           end) cs serial in
      (serial ++ " annotation " ++ to_string_int (Z.of_nat (String.length a))
         ++ " " ++ a)%string
  end.

End Shape.

(** ** The standard library as [Image::deserialize] uses it *)

(** The two exceptions of [std::stoi] and [std::stof]; both derive from
    [std::exception]. *)
Inductive exception : Type := invalid_argument | out_of_range.

(** What running a piece of code gives: a value, an exception in flight,
    behaviour that C++ leaves undefined, or a float that the rationals
    cannot hold (an infinity, a NaN, hexadecimal notation). *)
Inductive result (A : Type) : Type :=
| Ok (a : A)
| Throw (e : exception)
| Undefined
| Unmodelled.

Arguments Ok {A} a.
Arguments Throw {A} e.
Arguments Undefined {A}.
Arguments Unmodelled {A}.

(** [isspace] in the "C" locale. *)
Definition isspace (c : ascii) : bool :=
  let n := nat_of_ascii c in
  ((9 <=? n) && (n <=? 13))%nat || (n =? 32)%nat.

Definition isdigit (c : ascii) : bool :=
  let n := nat_of_ascii c in ((48 <=? n) && (n <=? 57))%nat.

Definition digit_value (c : ascii) : Z := Z.of_nat (nat_of_ascii c) - 48.

Fixpoint skip_space (s : string) : string :=
  match s with
  | String c s' => if isspace c then skip_space s' else s
  | EmptyString => s
  end.

(** The longest run of decimal digits at the head of [s]: its value after
    the digits already read ([acc]), how many digits it has, and what
    follows it. *)
Fixpoint read_digits (s : string) (acc : Z) (count : nat)
  : Z * nat * string :=
  match s with
  | String c s' =>
      if isdigit c then read_digits s' (10 * acc + digit_value c) (S count)
      else (acc, count, s)
  | EmptyString => (acc, count, s)
  end.

(** An optional sign: [true] for a minus. *)
Definition read_sign (s : string) : bool * string :=
  match s with
  | String "-" s' => (true, s')
  | String "+" s' => (false, s')
  | _ => (false, s)
  end.

Definition INT_MAX : Z := 2147483647.
Definition INT_MIN : Z := -2147483648.

(** [std::stoi(word)]: blanks, a sign, then digits in base 10; what follows
    the digits is ignored. *)
Definition stoi (word : string) : result Z :=
  let (neg, s) := read_sign (skip_space word) in
  let '(v, count, _) := read_digits s 0 0 in
  match count with
  | O => Throw invalid_argument
  | _ =>
      let v := if neg then - v else v in
      if (v <? INT_MIN) || (INT_MAX <? v) then Throw out_of_range
      else Ok v
  end.

Definition Qlt_bool (a b : Q) : bool := Qle_bool a b && negb (Qeq_bool a b).

(** The largest and the smallest positive normal [float]. *)
Definition FLT_MAX : Q := 340282346638528859811704183484516925440 # 1.
Definition FLT_MIN : Q := 1 # 85070591730234615865843651857942052864.

Definition to_lower (c : ascii) : ascii :=
  let n := nat_of_ascii c in
  if ((65 <=? n) && (n <=? 90))%nat then ascii_of_nat (n + 32) else c.

(** Does [s] start with [p], letter case apart? *)
Fixpoint has_prefix_nocase (p s : string) : bool :=
  match p, s with
  | EmptyString, _ => true
  | String a p', String c s' =>
      Ascii.eqb a (to_lower c) && has_prefix_nocase p' s'
  | _, _ => false
  end.

(** The exponent part of a decimal float, when it is there: [e] or [E], a
    sign, at least one digit. *)
Definition read_exponent (s : string) : Z :=
  match s with
  | String c s' =>
      if Ascii.eqb (to_lower c) "e" then
        let (neg, s'') := read_sign s' in
        let '(v, count, _) := read_digits s'' 0 0 in
        match count with
        | O => 0
        | _ => if neg then - v else v
        end
      else 0
  | EmptyString => 0
  end.

(** [std::stof(word)]: blanks, a sign, digits with an optional point and
    an optional exponent; what follows is ignored.  The value read is kept
    exact: it is the float that [std::stof] returns whenever the decimal
    read is itself a binary32 value; on any other decimal [std::stof]
    returns the nearest float, and no statement below is made about that
    value. *)
Definition stof (word : string) : result float :=
  let (neg, s) := read_sign (skip_space word) in
  if has_prefix_nocase "inf" s || has_prefix_nocase "nan" s
     || has_prefix_nocase "0x" s
  then Unmodelled
  else
    let '(ip, icount, s1) := read_digits s 0 0 in
    let '(m, fcount, s2) :=
      match s1 with
      | String "." s1' =>
          let '(m, fcount, s2) := read_digits s1' ip 0 in (m, fcount, s2)
      | _ => (ip, O, s1)
      end in
    match (icount + fcount)%nat with
    | O => Throw invalid_argument
    | _ =>
        let e := read_exponent s2 - Z.of_nat fcount in
        let q := (inject_Z m * Qpower (10 # 1) e)%Q in
        if Qlt_bool FLT_MAX q || (Qlt_bool 0 q && Qlt_bool q FLT_MIN)
        then Throw out_of_range
        else Ok (Q2Qc (if neg then - q else q)%Q)
    end.

(** ** [std::istringstream] *)

Module Stream.

(** The characters not yet read and the two state bits that the parser
    can observe. *)
Record t : Type := mk {
  rest : string;
  eofbit : bool;
  failbit : bool
}.

(** [std::istringstream buf(s)]. *)
Definition new (s : string) : t := mk s false false.

Definition good (b : t) : bool := negb (eofbit b) && negb (failbit b).

(** [!buf.fail()], the truth value of a stream in a condition. *)
Definition to_bool (b : t) : bool := negb (failbit b).

(** The longest run of non-blank characters at the head of [s], and what
    follows it. *)
Fixpoint read_token (s : string) : string * string :=
  match s with
  | String c s' =>
      if isspace c then (EmptyString, s)
      else let (w, s'') := read_token s' in (String c w, s'')
  | EmptyString => (EmptyString, s)
  end.

(** [buf >> word].  A stream that is not good only gets its fail bit set.
    Otherwise blanks are skipped; at the end of the input both bits are
    set and [word] keeps its value; else [word] becomes the next token,
    and the end-of-file bit is set when the token ends the input. *)
Definition extract (b : t) (word : string) : t * string :=
  if good b then
    match skip_space (rest b) with
    | EmptyString => (mk EmptyString true true, word)
    | s =>
        let (w, s') := read_token s in
        (mk s' (match s' with EmptyString => true | _ => false end) false,
         w)
    end
  else (mk (rest b) (eofbit b) true, word).

(** The loop of [getline(buffer, count)] with room for [room] more
    characters: it stops at the end of the input, after a newline, which
    it consumes, or when the room is used up, tested in this order.  It
    gives the characters stored, those consumed, the input left and the
    state bits to set. *)
Fixpoint getline_loop (room : nat) (s : string) (stored : string)
         (consumed : nat) {struct s} : string * nat * t :=
  match s with
  | EmptyString => (stored, consumed, mk s true false)
  | String c s' =>
      if Ascii.eqb c "010" then (stored, S consumed, mk s' false false)
      else
        match room with
        | O => (stored, consumed, mk s false true)
        | S room' =>
            getline_loop room' s' (stored ++ String c EmptyString)
                         (S consumed)
        end
  end.

(** The text of a C string: the characters before the first NUL. *)
Fixpoint c_str (s : string) : string :=
  match s with
  | String c s' => if Ascii.eqb c "000" then EmptyString
                   else String c (c_str s')
  | EmptyString => EmptyString
  end.

(** [char buffer[1024]; buf.getline(buffer, count); std::string(buffer)].
    With [count <= 0] nothing is written to the buffer and reading it is
    undefined; so is writing more than 1024 characters, the final NUL
    included. *)
Definition getline (b : t) (count : Z) : t * result string :=
  if count <=? 0 then (mk (rest b) (eofbit b) true, Undefined)
  else if good b then
    let '(stored, consumed, b') :=
      getline_loop (Z.to_nat (count - 1)) (rest b) EmptyString 0 in
    let b' :=
      match consumed with
      | O => mk (rest b') (eofbit b') true
      | _ => b'
      end in
    if 1024 <=? Z.of_nat (String.length stored) then (b', Undefined)
    else (b', Ok (c_str stored))
  else (mk (rest b) (eofbit b) true, Ok EmptyString).

End Stream.

(** ** Image *)

(** A line written to [std::cout] by a [catch] block of
    [Image::deserialize]: the text [Bad format : ] and [e.what()]. *)
Inductive diagnostic : Type := Bad_format (e : exception).

Module Image.

Definition t : Type := Shape.image.

(** The constructor [Image(Vec2 o = {0, 0})]. *)
Definition new (o : Vec2) : t :=
  Shape.mkImage IMAGE (mkColor 0 0 0) [] EmptyString o.

Definition components (i : t) : list Shape.t :=
  let (_, _, cs, _, _) := i in cs.
Definition get_annotation (i : t) : string :=
  let (_, _, _, a, _) := i in a.
Definition origin (i : t) : Vec2 :=
  let (_, _, _, _, o) := i in o.

Definition set_components (cs : list Shape.t) (i : t) : t :=
  Shape.mkImage (Shape.Image_type i) (Shape.Image_color i) cs
                (get_annotation i) (origin i).

(** The overrides that forward the call to every component. *)
Definition translate : Vec2 -> t -> t := Shape.Image_translate.
Definition homothety : float -> t -> t := Shape.Image_homothety.
Definition homothety_at : Vec2 -> float -> t -> t :=
  Shape.Image_homothety_at.
Definition rotate {P : Params} : float -> t -> t := Shape.Image_rotate.
Definition rotate_at {P : Params} : Vec2 -> float -> t -> t :=
  Shape.Image_rotate_at.
Definition centralSym : Vec2 -> t -> t := Shape.Image_centralSym.
Definition axialSym : Vec2 -> Vec2 -> t -> t := Shape.Image_axialSym.
Definition bounding_box : t -> BoundingBox := Shape.Image_bounding_box.
Definition serialize : string -> t -> string := Shape.Image_serialize.

(** [area()]: [(float)w * h] for the width and height of the box. *)
Definition area (i : t) : float :=
  let bb := bounding_box i in
  let w := x_max bb - x_min bb in
  let h := y_max bb - y_min bb in
  (of_int w * of_int h)%f.

(** [perimeter()]: [2.f * (w + h)]. *)
Definition perimeter (i : t) : float :=
  let bb := bounding_box i in
  let w := x_max bb - x_min bb in
  let h := y_max bb - y_min bb in
  (of_int 2 * of_int (w + h))%f.

(** [add_component(s)]: [s->translate(origin_)], then [push_back(s)]. *)
Definition add_component (s : Shape.t) (i : t) : t :=
  let s := Shape.translate (origin i) s in
  set_components (components i ++ [s]) i.

(** The setter [origin(new_origin)]. *)
Definition set_origin (new_origin : Vec2) (i : t) : t :=
  let v := (origin i - new_origin)%v in
  let i := translate v i in
  Shape.mkImage (Shape.Image_type i) (Shape.Image_color i) (components i)
                (get_annotation i) new_origin.

Definition annotate (msg : string) (i : t) : t :=
  Shape.mkImage (Shape.Image_type i) (Shape.Image_color i) (components i)
                msg (origin i).

(** *** [deserialize]

    The body of [deserialize] runs on four pieces of state: the image
    [*this], the lines written to [std::cout], the stream [buf] and the
    variable [word].  An exception leaves the state as it is where it
    is thrown. *)
Record state : Type := mkState {
  this : t;
  cout : list diagnostic;
  buf : Stream.t;
  word : string
}.

Definition M (A : Type) : Type := state -> state * result A.

Definition ret {A : Type} (a : A) : M A := fun st => (st, Ok a).

Definition bind {A B : Type} (m : M A) (k : A -> M B) : M B :=
  fun st =>
    match m st with
    | (st', Ok a) => k a st'
    | (st', Throw e) => (st', Throw e)
    | (st', Undefined) => (st', Undefined)
    | (st', Unmodelled) => (st', Unmodelled)
    end.

(** [try body catch (std::exception& e) handler]. *)
Definition try_catch (body : M unit) (handler : exception -> M unit)
  : M unit :=
  fun st =>
    match body st with
    | (st', Throw e) => handler e st'
    | other => other
    end.

Definition lift {A : Type} (f : state -> result A) : M A :=
  fun st => (st, f st).

Definition modify (f : state -> state) : M unit :=
  fun st => (f st, Ok tt).

Notation "x <- m ;; k" := (bind m (fun x => k))
  (at level 61, m at next level, right associativity).
Notation "m ;; k" := (bind m (fun _ => k))
  (at level 61, right associativity).

(** [buf >> word]. *)
Definition read_word : M unit :=
  modify (fun st =>
            let (b, w) := Stream.extract (buf st) (word st) in
            mkState (this st) (cout st) b w).

(** [std::stof(word)] and [std::stoi(word)]. *)
Definition word_stof : M float := lift (fun st => stof (word st)).
Definition word_stoi : M Z := lift (fun st => stoi (word st)).

(** [add_component(new ...)] on [*this]. *)
Definition do_add_component (s : Shape.t) : M unit :=
  modify (fun st =>
            mkState (add_component s (this st)) (cout st) (buf st)
                    (word st)).

(** The [catch] block of the four shape cases. *)
Definition log_bad_format (e : exception) : M unit :=
  modify (fun st =>
            mkState (this st) (cout st ++ [Bad_format e]) (buf st)
                    (word st)).

(** The three colour fields that end every record. *)
Definition read_color : M Color :=
  read_word ;; r <- word_stoi ;;
  read_word ;; g <- word_stoi ;;
  read_word ;; b <- word_stoi ;;
  ret (mkColor r g b).

Definition case_CIRCLE : M unit :=
  try_catch
    (read_word ;; x <- word_stof ;;
     read_word ;; y <- word_stof ;;
     read_word ;; rad <- word_stof ;;
     c <- read_color ;;
     do_add_component (Shape.OfCircle (Circle.new (mkVec2 x y) rad c)))
    log_bad_format.

(** The loop [for (int i = 0; i < nb_pts; i++)] with [n] turns left. *)
Fixpoint read_points (n : nat) (points : list Vec2) : M (list Vec2) :=
  match n with
  | O => ret points
  | S n' =>
      read_word ;; x <- word_stof ;;
      read_word ;; y <- word_stof ;;
      read_points n' (points ++ [mkVec2 x y])
  end.

Definition case_POLYGON : M unit :=
  try_catch
    (read_word ;; nb_pts <- word_stoi ;;
     points <- read_points (Z.to_nat nb_pts) [] ;;
     c <- read_color ;;
     do_add_component (Shape.OfPolygon (Polygon.new points c)))
    log_bad_format.

Definition case_LINE : M unit :=
  try_catch
    (read_word ;; x <- word_stof ;;
     read_word ;; y <- word_stof ;;
     read_word ;; dir_x <- word_stof ;;
     read_word ;; dir_y <- word_stof ;;
     c <- read_color ;;
     do_add_component
       (Shape.OfLine (Line.new (mkVec2 x y) (mkVec2 dir_x dir_y) c)))
    log_bad_format.

Definition case_ELLIPSE : M unit :=
  try_catch
    (read_word ;; x <- word_stof ;;
     read_word ;; y <- word_stof ;;
     read_word ;; rad_x <- word_stof ;;
     read_word ;; rad_y <- word_stof ;;
     c <- read_color ;;
     do_add_component
       (Shape.OfEllipse
          (Ellipse.new (mkVec2 x y) (mkVec2 rad_x rad_y) c)))
    log_bad_format.

(** [buf.getline(buffer, string_size + 2)] and [std::string(buffer)];
    the sum is an [int]. *)
Definition read_annotation (string_size : Z) : M string :=
  fun st =>
    if INT_MAX <? string_size + 2 then (st, Undefined)
    else
      let (b, text) := Stream.getline (buf st) (string_size + 2) in
      (mkState (this st) (cout st) b (word st), text).

(** The case labelled [Shape::UNKNOWN]; it has no [try]. *)
Definition case_UNKNOWN : M unit :=
  read_word ;; string_size <- word_stoi ;;
  annotation <- read_annotation string_size ;;
  modify (fun st =>
            mkState (annotate annotation (this st)) (cout st) (buf st)
                    (word st)).

(** [switch (Shape::ShapeStringToEnum(word))]: the value of the
    enumerator is compared with the value of each label in turn; the
    last label is an enumerator of [Functions]; there is no [default]. *)
Definition dispatch : M unit :=
  fun st =>
    let sel := Derivedtype_value (ShapeStringToEnum (word st)) in
    if sel =? Derivedtype_value CIRCLE then case_CIRCLE st
    else if sel =? Derivedtype_value POLYGON then case_POLYGON st
    else if sel =? Derivedtype_value LINE then case_LINE st
    else if sel =? Derivedtype_value ELLIPSE then case_ELLIPSE st
    else if sel =? Functions_value UNKNOWN then case_UNKNOWN st
    else (st, Ok tt).

(** [for (std::string word; buf >> word;) switch ...].  A turn whose
    extraction succeeds consumes a character at least, so [fuel] turns are
    enough when at most [fuel] characters are left; the branch without
    fuel is there for the recursion only and is never taken from
    [deserialize] (lemma [parse_loop_fuel]). *)
Fixpoint parse_loop (fuel : nat) : M unit :=
  fun st =>
    let (st1, _) := read_word st in
    if Stream.to_bool (buf st1) then
      match fuel with
      | O => (st1, Unmodelled)
      | S fuel' => (dispatch ;; parse_loop fuel') st1
      end
    else (st1, Ok tt).

(** [deserialize(s)], given what [std::cout] holds already. *)
Definition deserialize (s : string) (i : t) (out : list diagnostic)
  : state * result unit :=
  let i := set_components [] i in
  parse_loop (String.length s)
             (mkState i out (Stream.new s) EmptyString).

End Image.

(** ** The arithmetic of the machine: binary32, and arguments by reference

    The transforms compute on C++ [float]s: IEEE 754 binary32, every
    operation rounded to the nearest float, ties to even.  The exact
    rationals of [Maths] agree with them wherever a computation does not
    round.  This module has the transforms whose result depends on the
    rounding or on the object that a [const Vec2&] argument is bound to,
    with both written out. *)
Module Binary32.

Import SpecFloat.

Definition prec : Z := 24.
Definition emax : Z := 128.

(** A C++ [float]: a signed zero, an infinity, a NaN or
    [(-1)^s * m * 2^e]. *)
Definition float32 : Type := spec_float.

Definition fadd (a b : float32) : float32 := SFadd prec emax a b.
Definition fsub (a b : float32) : float32 := SFsub prec emax a b.
Definition fmul (a b : float32) : float32 := SFmul prec emax a b.

(** Conversion [int -> float], rounded as the operations are. *)
Definition of_int (z : Z) : float32 := binary_normalize prec emax z 0 false.

(** The float nearest to the decimal [n / 10^k], as the compiler reads a
    literal such as [3.8f]. *)
Definition literal (n : Z) (k : nat) : float32 :=
  SFdiv prec emax (binary_normalize prec emax n 0 false)
        (binary_normalize prec emax (10 ^ Z.of_nat k) 0 false).

(** The number that a float is, when it is one. *)
Definition value (f : float32) : option Qc :=
  match f with
  | S754_zero _ => Some (Q2Qc 0)
  | S754_finite s m e =>
      Some (Q2Qc (inject_Z (cond_Zopp s (Zpos m)) * Qpower (2 # 1) e))
  | _ => None
  end.

(** Modelled from the spec: [Vec2] is a pair of floats with addition,
    subtraction and multiplication by a scalar, component by component. *)
Record Vec2 : Type := mkVec2 { x : float32; y : float32 }.

Definition vadd (a b : Vec2) : Vec2 :=
  mkVec2 (fadd (x a) (x b)) (fadd (y a) (y b)).
Definition vsub (a b : Vec2) : Vec2 :=
  mkVec2 (fsub (x a) (x b)) (fsub (y a) (y b)).
Definition vscale (k : float32) (a : Vec2) : Vec2 :=
  mkVec2 (fmul k (x a)) (fmul k (y a)).

(** What a [const Vec2&] parameter is bound to: a [Vec2] that the call
    does not write, or the [k]-th [Vec2] of the object the member function
    is called on (the centre of a circle or an ellipse, the point and then
    the direction of a line, the [k]-th vertex of a polygon), as in
    [c.rotate(c.origin(), angle)]. *)
Inductive place : Type :=
| Elsewhere (v : Vec2)
| Member (k : nat).

(** Modelled from the spec: the sine and cosine approximations of
    [Maths.h], from the [double] of an angle to a [float]. *)
Class Trig : Type := {
  fast_sin : spec_float -> float32;
  fast_cos : spec_float -> float32
}.

Module Circle.

Record t : Type := mk {
  m_type : Derivedtype;
  m_color : Color;
  m_origin : Vec2;
  m_radius : float32
}.

Definition new (origin : Vec2) (radius : float32) (color : Color) : t :=
  mk CIRCLE color origin radius.

(** The value of [p] when the circle is [c]. *)
Definition read (p : place) (c : t) : Vec2 :=
  match p with
  | Elsewhere v => v
  | Member _ => m_origin c
  end.

Definition set_origin (o : Vec2) (c : t) : t :=
  mk (m_type c) (m_color c) o (m_radius c).
Definition set_origin_x (v : float32) (c : t) : t :=
  set_origin (mkVec2 v (y (m_origin c))) c.
Definition set_origin_y (v : float32) (c : t) : t :=
  set_origin (mkVec2 (x (m_origin c)) v) c.
Definition set_radius (rad : float32) (c : t) : t :=
  mk (m_type c) (m_color c) (m_origin c) rad.

(** [homothety(p, ratio)]: [p] is read twice, before [m_origin] is
    written. *)
Definition homothety_at (p : place) (ratio : float32) (c : t) : t :=
  let u := vsub (m_origin c) (read p c) in
  let c1 := set_origin (vadd (read p c) (vscale ratio u)) c in
  set_radius (fmul (m_radius c1) ratio) c1.

Definition translate (v : place) (c : t) : t :=
  set_origin (vadd (m_origin c) (read v c)) c.

(** [centralSym(p)]: [t] is a local [Vec2]. *)
Definition centralSym (p : place) (c : t) : t :=
  let t := vscale (of_int 2) (vsub (read p c) (m_origin c)) in
  translate (Elsewhere t) c.

(** [rotate(p, angle)]: [m_origin.x -= p.x; m_origin.y -= p.y;] and only
    then [x] and [y] are computed, with [p] read again. *)
Definition rotate {T : Trig} (p : place) (angle : spec_float) (c : t) : t :=
  let s := fast_sin angle in
  let co := fast_cos angle in
  let c1 := set_origin_x (fsub (x (m_origin c)) (x (read p c))) c in
  let c2 := set_origin_y (fsub (y (m_origin c1)) (y (read p c1))) c1 in
  let x' :=
    fadd (fsub (fmul (x (m_origin c2)) co) (fmul (y (m_origin c2)) s))
         (x (read p c2)) in
  let y' :=
    fadd (fadd (fmul (x (m_origin c2)) s) (fmul (y (m_origin c2)) co))
         (y (read p c2)) in
  let c3 := set_origin_x x' c2 in
  set_origin_y y' c3.

End Circle.

Module Polygon.

Record t : Type := mk {
  m_type : Derivedtype;
  m_color : Color;
  m_points : list Vec2
}.

Definition new (points : list Vec2) (color : Color) : t :=
  mk POLYGON color points.

Definition set_points (pts : list Vec2) (p : t) : t :=
  mk (m_type p) (m_color p) pts.

(** The value of [p] when the vertices are [pts]; [Member k] is
    [points()[k]], with [k] below the size. *)
Definition read (p : place) (pts : list Vec2) : Vec2 :=
  match p with
  | Elsewhere v => v
  | Member k => nth k pts (mkVec2 (S754_zero false) (S754_zero false))
  end.

(** [*it = v] with [it] at index [i]. *)
Definition write (i : nat) (v : Vec2) (pts : list Vec2) : list Vec2 :=
  firstn i pts ++ v :: skipn (S i) pts.

(** The loop [for (it = m_points.begin(); it != m_points.end(); ++it)]
    with [it] at index [i] and [todo] turns left; [body it i pts] is the
    state of the vertices after the body has run on the vertex [it] at
    index [i]. *)
Fixpoint for_each (body : Vec2 -> nat -> list Vec2 -> list Vec2)
         (i todo : nat) (pts : list Vec2) : list Vec2 :=
  match todo with
  | O => pts
  | S todo' =>
      match nth_error pts i with
      | Some it => for_each body (S i) todo' (body it i pts)
      | None => pts
      end
  end.

(** [homothety(o, ratio)]. *)
Definition homothety_at (o : place) (ratio : float32) (p : t) : t :=
  set_points
    (for_each
       (fun it i pts =>
          let u := vsub it (read o pts) in
          write i (vadd (read o pts) (vscale ratio u)) pts)
       0 (length (m_points p)) (m_points p)) p.

(** [centralSym(p)]. *)
Definition centralSym (p : place) (pg : t) : t :=
  set_points
    (for_each
       (fun it i pts =>
          let t := vscale (of_int 2) (vsub (read p pts) it) in
          write i (vadd it t) pts)
       0 (length (m_points pg)) (m_points pg)) pg.

(** [translate(v)]: [v] is read at every turn of the loop. *)
Definition translate (v : place) (p : t) : t :=
  set_points
    (for_each (fun it i pts => write i (vadd it (read v pts)) pts)
              0 (length (m_points p)) (m_points p)) p.

(** [rotate(p, angle)]: the two subtractions [it->x -= p.x] and
    [it->y -= p.y] write the vertex, and [p] is read again for [x] and
    [y]. *)
Definition rotate {T : Trig} (p : place) (angle : spec_float) (pg : t) : t :=
  set_points
    (for_each
       (fun it i pts =>
          let s := fast_sin angle in
          let c := fast_cos angle in
          let it1 := mkVec2 (fsub (x it) (x (read p pts))) (y it) in
          let pts1 := write i it1 pts in
          let it2 := mkVec2 (x it1) (fsub (y it1) (y (read p pts1))) in
          let pts2 := write i it2 pts1 in
          let x' :=
            fadd (fsub (fmul (x it2) c) (fmul (y it2) s))
                 (x (read p pts2)) in
          let y' :=
            fadd (fadd (fmul (x it2) s) (fmul (y it2) c))
                 (y (read p pts2)) in
          write i (mkVec2 x' y') pts2)
       0 (length (m_points pg)) (m_points pg)) pg.

End Polygon.

Module Line.

Record t : Type := mk {
  m_type : Derivedtype;
  m_color : Color;
  m_point : Vec2;
  m_direction : Vec2
}.

Definition new (point direction : Vec2) (color : Color) : t :=
  mk LINE color point direction.

Definition read (p : place) (l : t) : Vec2 :=
  match p with
  | Elsewhere v => v
  | Member O => m_point l
  | Member (S _) => m_direction l
  end.

Definition set_point (p : Vec2) (l : t) : t :=
  mk (m_type l) (m_color l) p (m_direction l).
Definition set_point_x (v : float32) (l : t) : t :=
  set_point (mkVec2 v (y (m_point l))) l.
Definition set_point_y (v : float32) (l : t) : t :=
  set_point (mkVec2 (x (m_point l)) v) l.
Definition set_direction (d : Vec2) (l : t) : t :=
  mk (m_type l) (m_color l) (m_point l) d.

(** [homothety(p, ratio)] has an empty body. *)
Definition homothety_at (p : place) (ratio : float32) (l : t) : t := l.

Definition translate (v : place) (l : t) : t :=
  set_point (vadd (m_point l) (read v l)) l.

Definition centralSym (c : place) (l : t) : t :=
  let t := vscale (of_int 2) (vsub (read c l) (m_point l)) in
  translate (Elsewhere t) l.

(** [rotate(angle)]: the second end is turned about [m_point], which is
    not written. *)
Definition rotate_own {T : Trig} (angle : spec_float) (l : t) : t :=
  let p := vadd (m_point l) (m_direction l) in
  let px := fsub (x p) (x (m_point l)) in
  let py := fsub (y p) (y (m_point l)) in
  let s := fast_sin angle in
  let c := fast_cos angle in
  let x' := fadd (fsub (fmul px c) (fmul py s)) (x (m_point l)) in
  let y' := fadd (fadd (fmul px s) (fmul py c)) (y (m_point l)) in
  set_direction (vsub (mkVec2 x' y') (m_point l)) l.

(** [rotate(p, angle)]: the second end is turned first, in locals; then
    [m_point.x -= p.x; m_point.y -= p.y;], and [p] is read again for
    [c_x] and [c_y]. *)
Definition rotate {T : Trig} (p : place) (angle : spec_float) (l : t) : t :=
  let point := vadd (m_point l) (m_direction l) in
  let qx := fsub (x point) (x (read p l)) in
  let qy := fsub (y point) (y (read p l)) in
  let s := fast_sin angle in
  let c := fast_cos angle in
  let x' := fadd (fsub (fmul qx c) (fmul qy s)) (x (read p l)) in
  let y' := fadd (fadd (fmul qx s) (fmul qy c)) (y (read p l)) in
  let l1 := set_point_x (fsub (x (m_point l)) (x (read p l))) l in
  let l2 := set_point_y (fsub (y (m_point l1)) (y (read p l1))) l1 in
  let c_x :=
    fadd (fsub (fmul (x (m_point l2)) c) (fmul (y (m_point l2)) s))
         (x (read p l2)) in
  let c_y :=
    fadd (fadd (fmul (x (m_point l2)) s) (fmul (y (m_point l2)) c))
         (y (read p l2)) in
  let l3 := set_point_x c_x l2 in
  let l4 := set_point_y c_y l3 in
  set_direction (vsub (mkVec2 x' y') (m_point l4)) l4.

End Line.

Module Ellipse.

Record t : Type := mk {
  m_type : Derivedtype;
  m_color : Color;
  m_origin : Vec2;
  m_radius : Vec2
}.

Definition new (origin radius : Vec2) (color : Color) : t :=
  mk ELLIPSE color origin radius.

Definition read (p : place) (e : t) : Vec2 :=
  match p with
  | Elsewhere v => v
  | Member O => m_origin e
  | Member (S _) => m_radius e
  end.

Definition set_origin (o : Vec2) (e : t) : t :=
  mk (m_type e) (m_color e) o (m_radius e).
Definition set_radius (rad : Vec2) (e : t) : t :=
  mk (m_type e) (m_color e) (m_origin e) rad.

(** [homothety(s, ratio)]; [ratio * m_radius] multiplies both radii. *)
Definition homothety_at (s : place) (ratio : float32) (e : t) : t :=
  let u := vsub (m_origin e) (read s e) in
  let e1 := set_origin (vadd (read s e) (vscale ratio u)) e in
  set_radius (vscale ratio (m_radius e1)) e1.

Definition translate (v : place) (e : t) : t :=
  set_origin (vadd (m_origin e) (read v e)) e.

Definition centralSym (p : place) (e : t) : t :=
  let t := vscale (of_int 2) (vsub (read p e) (m_origin e)) in
  translate (Elsewhere t) e.

End Ellipse.

End Binary32.

(** ** [Polygon::area]

    The [abs] that [triangle_area] calls is not declared in the sources;
    it is a parameter. *)
Class Metric : Type := {
  abs : float -> float
}.

(** [Polygon::triangle_area]. *)
Definition triangle_area {M : Metric} (a b c : Vec2) : float :=
  ((of_int 1 / of_int 2)
   * abs ((x b - x a) * (y c - y a) - (x c - x a) * (y b - y a)))%f.

(** The loop of [Polygon::area] with the iterator at the head of [pts]:
    it stops when the iterator is on the last point. *)
Fixpoint area_from {M : Metric} (p0 : Vec2) (pts : list Vec2) (a : float)
  : float :=
  match pts with
  | it :: rest =>
      match rest with
      | next :: _ => area_from p0 rest (a + triangle_area p0 it next)%f
      | [] => a
      end
  | [] => a
  end.

(** [Polygon::area]: the iterator starts at [begin() + 1] and runs until
    it meets [end() - 1]; without points [begin() + 1] is past the end,
    and with one point the loop starts at [end()] and reads it. *)
Definition Polygon_area {M : Metric} (pg : Polygon.t) : result float :=
  match Polygon.m_points pg with
  | [] => Undefined
  | [_] => Undefined
  | p0 :: rest => Ok (area_from p0 rest (of_int 0))
  end.

(** ** [Polygon::isPointInPolygon]

    [a >= b] and [a <= b] on floats, and a division that tells when its
    divisor is zero, where a C++ float would be an infinity or a NaN. *)
Definition fgeb (a b : float) : bool := negb (fltb a b).
Definition fleb (a b : float) : bool := negb (fltb b a).

Definition fdiv_checked (a b : float) : result float :=
  if feqb b (of_int 0) then Unmodelled else Ok (a / b)%f.

(** The condition of the [if] for the points [pi = m_points[i]] and
    [pj = m_points[j]]; the right operand of [&&] is evaluated only when
    the left one holds. *)
Definition crossing (p pi pj : Vec2) : result bool :=
  if negb (Bool.eqb (fgeb (y pi) (y p)) (fgeb (y pj) (y p))) then
    match fdiv_checked ((x pj - x pi) * (y p - y pi))%f (y pj - y pi)%f with
    | Ok q => Ok (fleb (x p) (q + x pi)%f)
    | Throw e => Throw e
    | Undefined => Undefined
    | Unmodelled => Unmodelled
    end
  else Ok false.

(** The loop [for (i = 0, j = nvert - 1; i < nvert; j = i++)] with
    [m_points[j]] in [pj] and the points from [i] on in [pts]. *)
Fixpoint isPointInPolygon_from (p pj : Vec2) (pts : list Vec2) (c : bool)
  : result bool :=
  match pts with
  | [] => Ok c
  | pi :: rest =>
      match crossing p pi pj with
      | Ok hit => isPointInPolygon_from p pi rest (if hit then negb c else c)
      | Throw e => Throw e
      | Undefined => Undefined
      | Unmodelled => Unmodelled
      end
  end.

Definition isPointInPolygon (pg : Polygon.t) (p : Vec2) : result bool :=
  match Polygon.m_points pg with
  | [] => Ok false
  | p0 :: rest =>
      isPointInPolygon_from p (last rest p0) (Polygon.m_points pg) false
  end.

(** ** The table of the transforms *)

(** [static_cast<Functions>(i)] for an index of the table [transforms]. *)
Definition Functions_of_index (i : nat) : Functions :=
  match i with
  | 0%nat => ROTATION | 1%nat => HOMOTHETY | 2%nat => TRANSLATE
  | 3%nat => AXIAL_SYMETRY | 4%nat => CENTRAL_SYMETRY | _ => UNKNOWN
  end.

Definition transforms : list string :=
  ["rotate"; "homothety"; "translate"; "axial_sym"; "central_sym"]%string.

(** [Shape::FuncStringToEnum]: the index of the first entry of
    [transforms] equal to [s], [UNKNOWN] when there is none. *)
Fixpoint FuncStringToEnum_from (i : nat) (tbl : list string) (s : string)
  : Functions :=
  match tbl with
  | [] => UNKNOWN
  | k :: tbl' =>
      if String.eqb k s then Functions_of_index i
      else FuncStringToEnum_from (S i) tbl' s
  end.

Definition FuncStringToEnum (s : string) : Functions :=
  FuncStringToEnum_from 0 transforms s.

(** * Notions used in the statements *)

(** ** Numbers and the fresh image *)

(** The point of the plane with integer coordinates [a] and [b]. *)
Definition point (a b : Z) : Vec2 := mkVec2 (of_int a) (of_int b).

(** The float [n / d]. *)
Definition ratio (n : Z) (d : positive) : float := Q2Qc (n # d).

(** A fresh image, with origin (0,0). *)
Definition fresh : Image.t := Image.new (point 0 0).

(** ** Transforms, colours and discriminants *)

(** A call of one of the seven transforms of the interface [Shape]. *)
Inductive transform : Type :=
| Translate (v : Vec2)
| Homothety (ratio : float)
| HomothetyAt (p : Vec2) (ratio : float)
| Rotate (angle : float)
| RotateAt (p : Vec2) (angle : float)
| CentralSym (p : Vec2)
| AxialSym (p d : Vec2).

Definition apply_transform {P : Params} (t : transform) (s : Shape.t)
  : Shape.t :=
  match t with
  | Translate v => Shape.translate v s
  | Homothety ratio => Shape.homothety ratio s
  | HomothetyAt p ratio => Shape.homothety_at p ratio s
  | Rotate angle => Shape.rotate angle s
  | RotateAt p angle => Shape.rotate_at p angle s
  | CentralSym p => Shape.centralSym p s
  | AxialSym p d => Shape.axialSym p d s
  end.

(** The discriminant and the colour of a shape and, for a composite, of
    each of its components in order, at every depth. *)
#[local] Unset Elimination Schemes.
Inductive tags : Type :=
| Tags (type : Derivedtype) (color : Color) (components : list tags).
#[local] Set Elimination Schemes.

Fixpoint tags_of (s : Shape.t) : tags :=
  match s with
  | Shape.OfImage (Shape.mkImage ty col cs _ _) =>
      Tags ty col (map tags_of cs)
  | _ => Tags (Shape.type s) (Shape.color s) []
  end.

(** ** The input left to the parser *)

(** The number of characters that the parser has not read yet. *)
Definition remaining (st : Image.state) : nat :=
  String.length (Stream.rest (Image.buf st)).

(** A computation that never lengthens the input left. *)
Definition steady {A : Type} (m : Image.M A) : Prop :=
  forall st, (remaining (fst (m st)) <= remaining st)%nat.

(** ** The round trip through the codec *)

(** Every character of [s] satisfies [p]. *)
Fixpoint string_forall (p : ascii -> bool) (s : string) : bool :=
  match s with
  | EmptyString => true
  | String c s' => p c && string_forall p s'
  end.

(** The number that a run of digits denotes after the digits already read
    have given [acc]. *)
Fixpoint digits_value (ds : string) (acc : Z) : Z :=
  match ds with
  | EmptyString => acc
  | String c ds' => digits_value ds' (10 * acc + digit_value c)
  end.

(** A token: one character at least, none of them a blank. *)
Definition is_token (w : string) : Prop :=
  w <> EmptyString /\ string_forall (fun c => negb (isspace c)) w = true.

(** The float with two decimals nearest to [f], the one that
    [to_string(float)] prints. *)
Definition round2 (f : float) : float :=
  let h := hundredths f in
  Q2Qc ((if Qnum (this f) <? 0 then - h else h) # 100).

Definition round2_vec (v : Vec2) : Vec2 :=
  mkVec2 (round2 (x v)) (round2 (y v)).

(** A shape with every coordinate and radius rounded to two decimals;
    composites are left alone. *)
Definition round2_shape (s : Shape.t) : Shape.t :=
  match s with
  | Shape.OfCircle c =>
      Shape.OfCircle
        (Circle.mk (Circle.m_type c) (Circle.m_color c)
                   (round2_vec (Circle.m_origin c)) (round2 (Circle.m_radius c)))
  | Shape.OfPolygon p =>
      Shape.OfPolygon
        (Polygon.mk (Polygon.m_type p) (Polygon.m_color p)
                    (map round2_vec (Polygon.m_points p)))
  | Shape.OfLine l =>
      Shape.OfLine
        (Line.mk (Line.m_type l) (Line.m_color l)
                 (round2_vec (Line.m_point l))
                 (round2_vec (Line.m_direction l)))
  | Shape.OfEllipse e =>
      Shape.OfEllipse
        (Ellipse.mk (Ellipse.m_type e) (Ellipse.m_color e)
                    (round2_vec (Ellipse.m_origin e))
                    (round2_vec (Ellipse.m_radius e)))
  | Shape.OfImage i => s
  end.

(** What the codec can carry: a float whose magnitude, once rounded, a C++
    [float] can hold; a colour whose fields are C++ [int]s. *)
Definition float_ok (f : float) : Prop :=
  (hundredths f # 100 <= FLT_MAX)%Q.

Definition vec_ok (v : Vec2) : Prop := float_ok (x v) /\ float_ok (y v).

Definition int_ok (z : Z) : Prop := INT_MIN <= z <= INT_MAX.

Definition color_ok (c : Color) : Prop :=
  int_ok (r c) /\ int_ok (g c) /\ int_ok (b c).

(** A shape built by one of the four constructors, within these limits. *)
Definition shape_ok (s : Shape.t) : Prop :=
  match s with
  | Shape.OfCircle c =>
      Circle.m_type c = CIRCLE /\ color_ok (Circle.m_color c)
      /\ vec_ok (Circle.m_origin c) /\ float_ok (Circle.m_radius c)
  | Shape.OfPolygon p =>
      Polygon.m_type p = POLYGON /\ color_ok (Polygon.m_color p)
      /\ Forall vec_ok (Polygon.m_points p)
      /\ Z.of_nat (length (Polygon.m_points p)) <= INT_MAX
  | Shape.OfLine l =>
      Line.m_type l = LINE /\ color_ok (Line.m_color l)
      /\ vec_ok (Line.m_point l) /\ vec_ok (Line.m_direction l)
  | Shape.OfEllipse e =>
      Ellipse.m_type e = ELLIPSE /\ color_ok (Ellipse.m_color e)
      /\ vec_ok (Ellipse.m_origin e) /\ vec_ok (Ellipse.m_radius e)
  | Shape.OfImage _ => False
  end.

(** An annotation that fits the buffer of [deserialize] and has neither a
    newline nor a NUL. *)
Definition annotation_ok (a : string) : Prop :=
  (String.length a <= 1022)%nat
  /\ string_forall
       (fun c => negb (Ascii.eqb c "010") && negb (Ascii.eqb c "000")) a
     = true.

(** The text of a record as [serialize] appends it, written from the
    left: each token after one blank, then [tail]. *)
Definition color_text (c : Color) (tail : string) : string :=
  String " " (to_string_int (r c) ++
  String " " (to_string_int (g c) ++
  String " " (to_string_int (b c) ++ tail))).

Definition vec_text (v : Vec2) (tail : string) : string :=
  String " " (to_string_float (x v) ++
  String " " (to_string_float (y v) ++ tail)).

Definition circle_fields (c : Circle.t) (tail : string) : string :=
  vec_text (Circle.m_origin c)
    (String " " (to_string_float (Circle.m_radius c) ++
     color_text (Circle.m_color c) tail)).

Definition points_text (pts : list Vec2) (tail : string) : string :=
  fold_right vec_text tail pts.

Definition polygon_fields (p : Polygon.t) (tail : string) : string :=
  String " " (to_string_int (Z.of_nat (length (Polygon.m_points p))) ++
  points_text (Polygon.m_points p) (color_text (Polygon.m_color p) tail)).

Definition line_fields (l : Line.t) (tail : string) : string :=
  vec_text (Line.m_point l)
    (vec_text (Line.m_direction l) (color_text (Line.m_color l) tail)).

Definition ellipse_fields (e : Ellipse.t) (tail : string) : string :=
  vec_text (Ellipse.m_origin e)
    (vec_text (Ellipse.m_radius e) (color_text (Ellipse.m_color e) tail)).

Definition shape_text (s : Shape.t) (tail : string) : string :=
  match s with
  | Shape.OfCircle c => String " " ("circle" ++ circle_fields c tail)
  | Shape.OfPolygon p => String " " ("polygon" ++ polygon_fields p tail)
  | Shape.OfLine l => String " " ("line" ++ line_fields l tail)
  | Shape.OfEllipse e => String " " ("ellipse" ++ ellipse_fields e tail)
  | Shape.OfImage i => (Shape.Image_serialize EmptyString i ++ tail)%string
  end.

Definition annotation_text (a : string) : string :=
  String " " ("annotation" ++
  String " " (to_string_int (Z.of_nat (String.length a)) ++
  String " " a)).

(** The value of [word] after the points of a polygon have been read. *)
Definition points_word (pts : list Vec2) (word : string) : string :=
  fold_left (fun _ p => to_string_float (y p)) pts word.

(** A text that starts with a blank. *)
Definition blank_first (t : string) : Prop :=
  exists r : string, t = String " " r.

(** ** Values of the examples *)

(** An instance of the parameters for the examples: two [Vec2] are equal
    when their coordinates are; the sine and the cosine are those of the
    angle of the 3-4-5 triangle at the arguments 1 and -1, and those of
    the null angle elsewhere. *)
Definition sample_sin (a : float) : float :=
  if feqb a (of_int 1) then ratio 3 5
  else if feqb a (of_int (-1)) then ratio (-3) 5
  else of_int 0.

Definition sample_cos (a : float) : float :=
  if feqb a (of_int 1) || feqb a (of_int (-1)) then ratio 4 5
  else of_int 1.

Definition sample_params : Params := {|
  fast_sin := sample_sin;
  fast_cos := sample_cos;
  Vec2_eq := fun u v => feqb (x u) (x v) && feqb (y u) (y v)
|}.

(** The state of [deserialize] when the word [foo] has just been read from
    the input [foo 3 abc]. *)
Definition after_foo : Image.state :=
  Image.mkState fresh [] (Stream.mk " 3 abc" false false) "foo".

(** An image with one shape of each kind, coordinates with at most two
    decimals, and the annotation [hi]. *)
Definition four_shapes : Image.t :=
  Image.annotate "hi"
    (Image.add_component
       (Shape.OfEllipse
          (Ellipse.new (point 6 5) (mkVec2 (of_int 10) (ratio 1 2))
                       (mkColor 0 255 0)))
       (Image.add_component
          (Shape.OfLine
             (Line.new (point 4 3) (mkVec2 (ratio (-5) 4) (of_int 1))
                       (mkColor 255 128 50)))
          (Image.add_component
             (Shape.OfPolygon
                (Polygon.new [point 5 2; mkVec2 (ratio 11 2) (of_int 2);
                              point 5 3]
                             (mkColor 0 0 255)))
             (Image.add_component
                (Shape.OfCircle
                   (Circle.new (point 4 3) (ratio 1 4) (mkColor 255 0 0)))
                fresh)))).

(** Three circle records; the first number of the second one is not a
    number. *)
Definition three_records : string :=
  "circle 1 2 3 4 5 6 circle foo 0 5 255 0 0 circle 7 8 9 1 2 3".

(** ** What a transform leaves alone *)

(** The annotation and the origin of every image in a shape, the outer
    one first, and the number of shapes that are not images. *)
Fixpoint labels (s : Shape.t) : list (string * Vec2) :=
  match s with
  | Shape.OfImage (Shape.mkImage _ _ cs a o) =>
      (a, o) :: concat (map labels cs)
  | _ => []
  end.

Fixpoint leaves (s : Shape.t) : nat :=
  match s with
  | Shape.OfImage (Shape.mkImage _ _ cs _ _) =>
      fold_right Nat.add 0%nat (map leaves cs)
  | _ => 1%nat
  end.

(** ** What the parser leaves alone *)

(** A shape that is not a composite. *)
Definition leaf (s : Shape.t) : bool :=
  match s with
  | Shape.OfImage _ => false
  | _ => true
  end.

(** A computation of the parser that changes neither the image nor the
    output. *)
Definition quiet {A : Type} (m : Image.M A) : Prop :=
  forall st,
    Image.this (fst (m st)) = Image.this st
    /\ Image.cout (fst (m st)) = Image.cout st.

(** A computation that adds one leaf of discriminant [ty] to the image
    when it returns, and else leaves the image as it is; the output is
    unchanged. *)
Definition adds_one (ty : Derivedtype) (m : Image.M unit) : Prop :=
  forall st,
    Image.cout (fst (m st)) = Image.cout st
    /\ match snd (m st) with
       | Ok _ =>
           exists s, leaf s = true /\ Shape.type s = ty
                     /\ Image.this (fst (m st))
                        = Image.add_component s (Image.this st)
       | _ => Image.this (fst (m st)) = Image.this st
       end.

(** A record that is read whole or not at all: it returns after adding
    one leaf of discriminant [ty] and printing nothing, or after printing
    one line and adding nothing; it throws nothing. *)
Definition all_or_nothing (ty : Derivedtype) (m : Image.M unit) : Prop :=
  forall st,
    match snd (m st) with
    | Ok _ =>
        (Image.cout (fst (m st)) = Image.cout st
         /\ exists s, leaf s = true /\ Shape.type s = ty
                      /\ Image.this (fst (m st))
                         = Image.add_component s (Image.this st))
        \/ (Image.this (fst (m st)) = Image.this st
            /\ exists e,
                Image.cout (fst (m st)) = Image.cout st ++ [Bad_format e])
    | Throw _ => False
    | _ =>
        Image.this (fst (m st)) = Image.this st
        /\ Image.cout (fst (m st)) = Image.cout st
    end.

(** From [st] to [st'] the image keeps its origin, discriminant and
    colour, gains leaves only, and the output only grows. *)
Definition grows (st st' : Image.state) : Prop :=
  Image.origin (Image.this st') = Image.origin (Image.this st)
  /\ Shape.Image_type (Image.this st') = Shape.Image_type (Image.this st)
  /\ Shape.Image_color (Image.this st') = Shape.Image_color (Image.this st)
  /\ (exists news,
         Image.components (Image.this st')
         = Image.components (Image.this st) ++ news
         /\ forallb leaf news = true)
  /\ exists logs, Image.cout st' = Image.cout st ++ logs.

Definition keeps {A : Type} (m : Image.M A) : Prop :=
  forall st, grows st (fst (m st)).

(** ** Floats that are none of the numbers but zero *)

(** A zero of either sign, or a NaN. *)
Definition zero_or_nan (f : Binary32.float32) : bool :=
  match f with
  | SpecFloat.S754_zero _ => true
  | SpecFloat.S754_nan => true
  | _ => false
  end.

(** The point [m] turned about [p] with the sine [s] and the cosine [c],
    as the bodies of [rotate] compute it. *)
Definition turned (s c : Binary32.float32) (p m : Binary32.Vec2)
  : Binary32.Vec2 :=
  let qx := Binary32.fsub (Binary32.x m) (Binary32.x p) in
  let qy := Binary32.fsub (Binary32.y m) (Binary32.y p) in
  Binary32.mkVec2
    (Binary32.fadd
       (Binary32.fsub (Binary32.fmul qx c) (Binary32.fmul qy s))
       (Binary32.x p))
    (Binary32.fadd
       (Binary32.fadd (Binary32.fmul qx s) (Binary32.fmul qy c))
       (Binary32.y p)).

(** ** Numbers that a C++ [float] holds *)

(** The rationals that are the value of a binary32 float. *)
Definition is_float (f : float) : Prop :=
  exists b : Binary32.float32,
    SpecFloat.valid_binary Binary32.prec Binary32.emax b = true
    /\ Binary32.value b = Some f.

(** The floats of a shape that is not an image. *)
Definition shape_floats (s : Shape.t) : list float :=
  match s with
  | Shape.OfCircle c =>
      [x (Circle.m_origin c); y (Circle.m_origin c); Circle.m_radius c]
  | Shape.OfPolygon p =>
      flat_map (fun v => [x v; y v]) (Polygon.m_points p)
  | Shape.OfLine l =>
      [x (Line.m_point l); y (Line.m_point l);
       x (Line.m_direction l); y (Line.m_direction l)]
  | Shape.OfEllipse e =>
      [x (Ellipse.m_origin e); y (Ellipse.m_origin e);
       x (Ellipse.m_radius e); y (Ellipse.m_radius e)]
  | Shape.OfImage _ => []
  end.

(** A shape whose floats are floats indeed, with two decimals at most:
    the text that [serialize] writes for it loses nothing. *)
Definition two_decimals (s : Shape.t) : Prop :=
  Forall is_float (shape_floats s) /\ round2_shape s = s.

(** * Properties *)

(** ** Arithmetic on floats *)

(** Two floats are equal as soon as they are equal as fractions; closed
    equations between shapes are decided by evaluation. *)
Ltac float_eq :=
  vm_compute;
  repeat first [ reflexivity | apply Qc_is_canon; reflexivity | f_equal ].

Lemma of_int_0 : of_int 0 = Q2Qc 0.
Proof. float_eq. Qed.

Lemma vadd_zero (v : Vec2) : vadd v (mkVec2 (of_int 0) (of_int 0)) = v.
Proof.
  destruct v as [vx vy]. unfold vadd, fadd. cbn [x y].
  rewrite of_int_0. f_equal; ring.
Qed.

(** ** Bounding boxes *)

(** [Line::bounding_box] writes the x bounds only when the second end is to
    the left of the first, and the y bounds only when it is below. *)
Lemma Line_bounding_box_x (l : Line.t) :
  fltb (x (vadd (Line.m_point l) (Line.m_direction l))) (x (Line.m_point l))
  = false ->
  x_min (Line.bounding_box l) = 10000 /\ x_max (Line.bounding_box l) = -10000.
Proof.
  intros Hx. unfold Line.bounding_box. rewrite Hx. clear Hx.
  destruct (fltb _ _); split; reflexivity.
Qed.

Lemma Line_bounding_box_y (l : Line.t) :
  fltb (y (vadd (Line.m_point l) (Line.m_direction l))) (y (Line.m_point l))
  = false ->
  y_min (Line.bounding_box l) = 10000 /\ y_max (Line.bounding_box l) = -10000.
Proof.
  intros Hy. unfold Line.bounding_box. rewrite Hy. clear Hy.
  destruct (fltb _ _); split; reflexivity.
Qed.

Lemma Line_bounding_box_left (l : Line.t) :
  fltb (x (vadd (Line.m_point l) (Line.m_direction l))) (x (Line.m_point l))
  = true ->
  x_min (Line.bounding_box l)
  = to_int (x (vadd (Line.m_point l) (Line.m_direction l)))
  /\ x_max (Line.bounding_box l) = to_int (x (Line.m_point l)).
Proof.
  intros Hx. unfold Line.bounding_box. rewrite Hx. clear Hx.
  destruct (fltb _ _); split; reflexivity.
Qed.

Lemma Line_bounding_box_below (l : Line.t) :
  fltb (y (vadd (Line.m_point l) (Line.m_direction l))) (y (Line.m_point l))
  = true ->
  y_min (Line.bounding_box l)
  = to_int (y (vadd (Line.m_point l) (Line.m_direction l)))
  /\ y_max (Line.bounding_box l) = to_int (y (Line.m_point l)).
Proof.
  intros Hy. unfold Line.bounding_box. rewrite Hy. clear Hy.
  destruct (fltb _ _); split; reflexivity.
Qed.

(** C3, at the line from (0,0) to (1,1): the box that covers the two ends
    is x in [0,1], y in [0,1], and [Line::bounding_box] returns the box of
    the default constructor, whose minima are 10000 and maxima -10000. *)
Theorem C3_line_bounding_box_misses_ends :
  let l := Line.new (point 0 0) (point 1 1) (mkColor 0 0 0) in
  Line.bounding_box l = BoundingBox_new
  /\ Line.bounding_box l <> mkBB 1 0 1 0.
Proof.
  split; [reflexivity | vm_compute; discriminate].
Qed.

(** ** The composite *)

Lemma Image_components_add (s : Shape.t) (i : Image.t) :
  Image.components (Image.add_component s i)
  = Image.components i ++ [Shape.translate (Image.origin i) s].
Proof. destruct i; reflexivity. Qed.

Lemma Image_add_keeps (s : Shape.t) (i : Image.t) :
  Image.get_annotation (Image.add_component s i) = Image.get_annotation i
  /\ Image.origin (Image.add_component s i) = Image.origin i.
Proof. destruct i; split; reflexivity. Qed.

(** C7: [add_component(s)] leaves the components already there in place
    and puts [s], translated by the origin of the image, after them; the
    annotation and the origin stay.  With origin (10,0), adding the circle
    of centre (0,0) and radius 1 stores the circle of centre (10,0) and
    radius 1. *)
Theorem C7_add_component_translates_then_appends :
  (forall (i : Image.t) (s : Shape.t),
      Image.components (Image.add_component s i)
      = Image.components i ++ [Shape.translate (Image.origin i) s]
      /\ Image.get_annotation (Image.add_component s i)
         = Image.get_annotation i
      /\ Image.origin (Image.add_component s i) = Image.origin i)
  /\ (forall col : Color,
         Image.components
           (Image.add_component
              (Shape.OfCircle (Circle.new (point 0 0) (of_int 1) col))
              (Image.new (point 10 0)))
         = [Shape.OfCircle (Circle.new (point 10 0) (of_int 1) col)]).
Proof.
  split.
  - intros i s. split; [apply Image_components_add | apply Image_add_keeps].
  - intros col. rewrite Image_components_add. reflexivity.
Qed.

(** The box of an image without components is the one of the default
    constructor. *)
Lemma Image_bounding_box_empty (i : Image.t) :
  Image.components i = [] -> Image.bounding_box i = BoundingBox_new.
Proof. destruct i; cbn; intros ->; reflexivity. Qed.

(** C9: without components, [bounding_box()] is the box of the default
    constructor, [area()] is 400000000 and [perimeter()] is -80000. *)
Theorem C9_empty_image_metrics (i : Image.t) :
  Image.components i = [] ->
  Image.bounding_box i = mkBB (-10000) 10000 (-10000) 10000
  /\ Image.area i = of_int 400000000
  /\ Image.perimeter i = of_int (-80000).
Proof.
  intros Hempty. unfold Image.area, Image.perimeter.
  rewrite (Image_bounding_box_empty i Hempty).
  split; [reflexivity | split; float_eq].
Qed.

Lemma C9_empty_image_metrics_witness :
  Image.components (Image.new (point 0 0)) = []
  /\ (Image.bounding_box (Image.new (point 0 0))
      = mkBB (-10000) 10000 (-10000) 10000
      /\ Image.area (Image.new (point 0 0)) = of_int 400000000
      /\ Image.perimeter (Image.new (point 0 0)) = of_int (-80000)).
Proof.
  split; [reflexivity |].
  apply (C9_empty_image_metrics (Image.new (point 0 0))). reflexivity.
Defined.

(** ** Colour and discriminant *)

(** Induction on a shape, with the property known of every component of a
    composite. *)
Lemma Shape_ind_nested (P : Shape.t -> Prop) :
  (forall c, P (Shape.OfCircle c)) ->
  (forall p, P (Shape.OfPolygon p)) ->
  (forall l, P (Shape.OfLine l)) ->
  (forall e, P (Shape.OfEllipse e)) ->
  (forall ty col cs a o,
      Forall P cs -> P (Shape.OfImage (Shape.mkImage ty col cs a o))) ->
  forall s, P s.
Proof.
  intros HC HP HL HE HI.
  fix IH 1. intros [c|p|l|e|[ty col cs a o]];
    [apply HC | apply HP | apply HL | apply HE | apply HI].
  induction cs as [|s cs IHcs]; constructor; [apply IH | exact IHcs].
Qed.

Lemma map_tags_of (f : Shape.t -> Shape.t) (cs : list Shape.t) :
  Forall (fun s => tags_of (f s) = tags_of s) cs ->
  map tags_of (map f cs) = map tags_of cs.
Proof.
  induction 1 as [|s cs Hs _ IH]; cbn; [reflexivity | congruence].
Qed.

Lemma tags_top (s : Shape.t) :
  match tags_of s with
  | Tags ty col _ => ty = Shape.type s /\ col = Shape.color s
  end.
Proof. destruct s as [c|p|l|e|[]]; split; reflexivity. Qed.

(** C8: a transform changes neither the colour nor the discriminant of the
    shape it is called on, nor those of any component of a composite. *)
Theorem C8_transforms_keep_color_and_type
  (P : Params) (t : transform) (s : Shape.t) :
  Shape.type (apply_transform t s) = Shape.type s
  /\ Shape.color (apply_transform t s) = Shape.color s
  /\ tags_of (apply_transform t s) = tags_of s.
Proof.
  assert (Hdeep : tags_of (apply_transform t s) = tags_of s).
  { induction s as [c|p|l|e|ty col cs a o IH] using Shape_ind_nested;
      try (destruct t; reflexivity).
    destruct t; cbn; f_equal; apply map_tags_of; exact IH. }
  pose proof (tags_top (apply_transform t s)) as Hnew.
  pose proof (tags_top s) as Hold.
  rewrite Hdeep in Hnew. destruct (tags_of s) as [ty col cs].
  destruct Hnew as [<- <-], Hold as [-> ->]. auto.
Qed.

(** ** Equality operators *)

(** C10: [operator==] on polygons, lines and ellipses reads the geometry
    only.  Two polygons with equal point lists, two lines with equal point
    and direction, two ellipses with equal origin and radius are equal
    whatever their colours; two circles are equal exactly when origin,
    radius and colour are. *)
Theorem C10_equality_ignores_color
  (P : Params) (pa pb : Polygon.t) (la lb : Line.t) (ea eb : Ellipse.t)
  (ca cb : Circle.t) :
  Polygon.vector_eq (Polygon.m_points pa) (Polygon.m_points pb) = true ->
  Vec2_eq (Line.m_point la) (Line.m_point lb) = true ->
  Vec2_eq (Line.m_direction la) (Line.m_direction lb) = true ->
  Vec2_eq (Ellipse.m_origin ea) (Ellipse.m_origin eb) = true ->
  Vec2_eq (Ellipse.m_radius ea) (Ellipse.m_radius eb) = true ->
  Polygon.eq pa pb = true
  /\ Line.eq la lb = true
  /\ Ellipse.eq ea eb = true
  /\ Circle.eq ca cb
     = Vec2_eq (Circle.m_origin ca) (Circle.m_origin cb)
       && feqb (Circle.m_radius ca) (Circle.m_radius cb)
       && Color_eq (Circle.m_color ca) (Circle.m_color cb).
Proof.
  intros Hp Hl1 Hl2 He1 He2.
  unfold Polygon.eq, Line.eq, Ellipse.eq, Circle.eq.
  rewrite Hp, Hl1, Hl2, He1, He2.
  repeat split. destruct (_ && _); reflexivity.
Qed.

Lemma C10_equality_ignores_color_witness :
  let red := mkColor 255 0 0 in
  let blue := mkColor 0 0 255 in
  let pa := Polygon.new [point 0 0; point 1 0; point 0 1] red in
  let pb := Polygon.new [point 0 0; point 1 0; point 0 1] blue in
  let la := Line.new (point 0 0) (point 1 1) red in
  let lb := Line.new (point 0 0) (point 1 1) blue in
  let ea := Ellipse.new (point 0 0) (point 2 1) red in
  let eb := Ellipse.new (point 0 0) (point 2 1) blue in
  let ca := Circle.new (point 0 0) (of_int 1) red in
  let cb := Circle.new (point 0 0) (of_int 1) blue in
  Polygon.eq (P := sample_params) pa pb = true
  /\ Line.eq (P := sample_params) la lb = true
  /\ Ellipse.eq (P := sample_params) ea eb = true
  /\ Circle.eq (P := sample_params) ca cb = false.
Proof.
  intros red blue pa pb la lb ea eb ca cb.
  destruct (C10_equality_ignores_color sample_params pa pb la lb ea eb ca cb)
    as (Hp & Hl & He & Hc); try reflexivity.
  rewrite Hc. repeat split; assumption || reflexivity.
Defined.

(** ** Central symmetry and homothety of ratio -1 *)

Lemma for_each_map (f : Binary32.Vec2 -> Binary32.Vec2)
      (body : Binary32.Vec2 -> nat -> list Binary32.Vec2
              -> list Binary32.Vec2) :
  (forall it i pts, body it i pts = Binary32.Polygon.write i (f it) pts) ->
  forall rest done,
    Binary32.Polygon.for_each body (length done) (length rest)
                              (done ++ rest)
    = done ++ map f rest.
Proof.
  intros Hbody. induction rest as [|a rest IH]; intros done.
  - reflexivity.
  - cbn [length Binary32.Polygon.for_each map].
    rewrite nth_error_app2 by lia. rewrite Nat.sub_diag. cbn [nth_error].
    rewrite Hbody. unfold Binary32.Polygon.write.
    rewrite firstn_app, Nat.sub_diag, firstn_all, firstn_O, app_nil_r.
    replace (skipn (S (length done)) (done ++ a :: rest)) with rest.
    + specialize (IH (done ++ [f a])).
      rewrite length_app, Nat.add_comm in IH. cbn [length Nat.add] in IH.
      rewrite <- !app_assoc in IH. cbn [app] in IH. exact IH.
    + rewrite skipn_app, skipn_all2 by lia.
      replace (S (length done) - length done)%nat with 1%nat by lia.
      reflexivity.
Qed.

Lemma for_each_elsewhere (f : Binary32.Vec2 -> Binary32.Vec2)
      (body : Binary32.Vec2 -> nat -> list Binary32.Vec2
              -> list Binary32.Vec2) (pts : list Binary32.Vec2) :
  (forall it i pts, body it i pts = Binary32.Polygon.write i (f it) pts) ->
  Binary32.Polygon.for_each body 0 (length pts) pts = map f pts.
Proof. intros Hbody. apply (for_each_map f body Hbody pts []). Qed.

(** C4 as the code has it.  [centralSym(p)] moves the centre of a circle
    or an ellipse, every vertex of a polygon and the point of a line from
    [M] to [M + 2 (p - M)], every operation rounded to a float, and
    changes nothing else.  [homothety(p, -1)] does nothing on a line;
    elsewhere it moves [M] to [p + (-1) (M - p)], rounded likewise, and
    multiplies every radius by -1.  The two points are the same number
    before rounding and not always the same float: about
    p = (-16, 0), the vertex (-3.8f, 0) goes to -14784921 * 2^-19 by
    [centralSym] and to -14784922 * 2^-19 by [homothety]. *)
Theorem C4_centralSym_versus_homothety (p : Binary32.place) :
  (forall c : Binary32.Circle.t,
      let pv := Binary32.Circle.read p c in
      let M := Binary32.Circle.m_origin c in
      Binary32.Circle.centralSym p c
      = Binary32.Circle.set_origin
          (Binary32.vadd M
             (Binary32.vscale (Binary32.of_int 2) (Binary32.vsub pv M))) c
      /\ Binary32.Circle.homothety_at p (Binary32.of_int (-1)) c
         = Binary32.Circle.mk
             (Binary32.Circle.m_type c) (Binary32.Circle.m_color c)
             (Binary32.vadd pv
                (Binary32.vscale (Binary32.of_int (-1))
                                 (Binary32.vsub M pv)))
             (Binary32.fmul (Binary32.Circle.m_radius c)
                            (Binary32.of_int (-1))))
  /\ (forall e : Binary32.Ellipse.t,
         let pv := Binary32.Ellipse.read p e in
         let M := Binary32.Ellipse.m_origin e in
         Binary32.Ellipse.centralSym p e
         = Binary32.Ellipse.set_origin
             (Binary32.vadd M
                (Binary32.vscale (Binary32.of_int 2) (Binary32.vsub pv M)))
             e
         /\ Binary32.Ellipse.homothety_at p (Binary32.of_int (-1)) e
            = Binary32.Ellipse.mk
                (Binary32.Ellipse.m_type e) (Binary32.Ellipse.m_color e)
                (Binary32.vadd pv
                   (Binary32.vscale (Binary32.of_int (-1))
                                    (Binary32.vsub M pv)))
                (Binary32.vscale (Binary32.of_int (-1))
                                 (Binary32.Ellipse.m_radius e)))
  /\ (forall l : Binary32.Line.t,
         let pv := Binary32.Line.read p l in
         let M := Binary32.Line.m_point l in
         Binary32.Line.centralSym p l
         = Binary32.Line.set_point
             (Binary32.vadd M
                (Binary32.vscale (Binary32.of_int 2) (Binary32.vsub pv M)))
             l
         /\ Binary32.Line.homothety_at p (Binary32.of_int (-1)) l = l)
  /\ (forall (v : Binary32.Vec2) (pg : Binary32.Polygon.t),
         Binary32.Polygon.centralSym (Binary32.Elsewhere v) pg
         = Binary32.Polygon.set_points
             (map (fun M =>
                     Binary32.vadd M
                       (Binary32.vscale (Binary32.of_int 2)
                                        (Binary32.vsub v M)))
                  (Binary32.Polygon.m_points pg)) pg
         /\ Binary32.Polygon.homothety_at (Binary32.Elsewhere v)
              (Binary32.of_int (-1)) pg
            = Binary32.Polygon.set_points
                (map (fun M =>
                        Binary32.vadd v
                          (Binary32.vscale (Binary32.of_int (-1))
                                           (Binary32.vsub M v)))
                     (Binary32.Polygon.m_points pg)) pg)
  /\ (let v := Binary32.mkVec2 (Binary32.of_int (-16)) (Binary32.of_int 0) in
      let pg :=
        Binary32.Polygon.new
          [Binary32.mkVec2 (Binary32.literal (-38) 1) (Binary32.of_int 0)]
          (mkColor 0 0 0) in
      Binary32.Polygon.m_points
        (Binary32.Polygon.centralSym (Binary32.Elsewhere v) pg)
      = [Binary32.mkVec2 (SpecFloat.S754_finite true 14784921 (-19))
                         (SpecFloat.S754_zero false)]
      /\ Binary32.Polygon.m_points
           (Binary32.Polygon.homothety_at (Binary32.Elsewhere v)
                                          (Binary32.of_int (-1)) pg)
         = [Binary32.mkVec2 (SpecFloat.S754_finite true 14784922 (-19))
                            (SpecFloat.S754_zero false)]).
Proof.
  split; [|split; [|split; [|split]]].
  - intros c. cbv zeta. split; reflexivity.
  - intros e. cbv zeta. split; reflexivity.
  - intros l. cbv zeta. split; reflexivity.
  - intros v pg. split.
    + unfold Binary32.Polygon.centralSym. f_equal.
      apply for_each_elsewhere. reflexivity.
    + unfold Binary32.Polygon.homothety_at. f_equal.
      apply for_each_elsewhere. reflexivity.
  - cbv zeta. split; vm_compute; reflexivity.
Qed.

(** C4 fails on the circle of centre (0,0) and radius 1 and on the line
    from (1,0) with direction (1,0), reflected through (0,0): the
    homothety gives the circle radius -1 and leaves the line in place. *)
Lemma C4_counterexample :
  let c := Shape.OfCircle (Circle.new (point 0 0) (of_int 1) (mkColor 0 0 0)) in
  let l := Shape.OfLine (Line.new (point 1 0) (point 1 0) (mkColor 0 0 0)) in
  Shape.centralSym (point 0 0) c
  <> Shape.homothety_at (point 0 0) (of_int (-1)) c
  /\ Shape.centralSym (point 0 0) l
     <> Shape.homothety_at (point 0 0) (of_int (-1)) l.
Proof.
  split; intros Heq.
  - apply (f_equal (fun s => match s with
                             | Shape.OfCircle k => this (Circle.m_radius k)
                             | _ => 0%Q
                             end)) in Heq.
    vm_compute in Heq. discriminate.
  - apply (f_equal (fun s => match s with
                             | Shape.OfLine k => this (x (Line.m_point k))
                             | _ => 0%Q
                             end)) in Heq.
    vm_compute in Heq. discriminate.
Qed.

(** ** Rotation about a point the shape owns *)

Lemma fsub_self (a : Binary32.float32) :
  zero_or_nan (Binary32.fsub a a) = true.
Proof.
  destruct a as [s|s| |s m e]; try (destruct s; reflexivity);
    [reflexivity |].
  unfold Binary32.fsub, SpecFloat.SFsub.
  change (IntDef.Z.min e e) with (Z.min e e). rewrite Z.min_id.
  unfold SpecFloat.shl_align. rewrite Z.sub_diag.
  reflexivity.
Qed.

Lemma fmul_zero_or_nan (a b : Binary32.float32) :
  zero_or_nan a = true -> zero_or_nan (Binary32.fmul a b) = true.
Proof.
  destruct a as [s|s| |s m e]; try discriminate; intros _;
    destruct b; reflexivity.
Qed.

Lemma fadd_zero_or_nan (a b : Binary32.float32) :
  zero_or_nan a = true -> zero_or_nan b = true ->
  zero_or_nan (Binary32.fadd a b) = true.
Proof.
  destruct a as [[]|s| |s m e], b as [[]|s'| |s' m' e'];
    try discriminate; reflexivity.
Qed.

Lemma fsub_zero_or_nan (a b : Binary32.float32) :
  zero_or_nan a = true -> zero_or_nan b = true ->
  zero_or_nan (Binary32.fsub a b) = true.
Proof.
  destruct a as [[]|s| |s m e], b as [[]|s'| |s' m' e'];
    try discriminate; reflexivity.
Qed.

(** [rotate(p, angle)] with [p] bound to the centre itself: the two
    subtractions leave a zero or a NaN in the centre and in [p], and the
    rest of the body keeps it there. *)
Lemma Circle_rotate_own_centre (T : Binary32.Trig)
      (angle : SpecFloat.spec_float) (c : Binary32.Circle.t) :
  let c' := Binary32.Circle.rotate (Binary32.Member 0) angle c in
  zero_or_nan (Binary32.x (Binary32.Circle.m_origin c')) = true
  /\ zero_or_nan (Binary32.y (Binary32.Circle.m_origin c')) = true.
Proof.
  destruct c as [ty col [ox oy] rad]. cbv zeta.
  unfold Binary32.Circle.rotate, Binary32.Circle.set_origin_x,
    Binary32.Circle.set_origin_y, Binary32.Circle.set_origin,
    Binary32.Circle.read.
  cbn [Binary32.Circle.m_origin Binary32.Circle.m_type
       Binary32.Circle.m_color Binary32.Circle.m_radius
       Binary32.x Binary32.y].
  pose proof (fsub_self ox) as Hx. pose proof (fsub_self oy) as Hy.
  split.
  - apply fadd_zero_or_nan; [|exact Hx].
    apply fsub_zero_or_nan; apply fmul_zero_or_nan; assumption.
  - apply fadd_zero_or_nan; [|exact Hy].
    apply fadd_zero_or_nan; apply fmul_zero_or_nan; assumption.
Qed.

(** About a point that the circle does not own, the way back is exact
    only where no operation rounds.  With the sine 0 and the cosine 1 of
    the angle 0, [rotate(p, 0)] about p = (1, 0) moves the centre
    (0.1f, 0), whose abscissa is 13421773 * 2^-27, to the abscissa
    13421776 * 2^-27: [(0.1f - 1) + 1] is not [0.1f]. *)
Lemma Circle_rotate_zero_angle_rounds
      (T : Binary32.Trig) (zero : SpecFloat.spec_float) :
  Binary32.fast_sin zero = Binary32.of_int 0 ->
  Binary32.fast_cos zero = Binary32.of_int 1 ->
  let c :=
    Binary32.Circle.new
      (Binary32.mkVec2 (Binary32.literal 1 1) (Binary32.of_int 0))
      (Binary32.of_int 1) (mkColor 255 0 0) in
  let p :=
    Binary32.Elsewhere
      (Binary32.mkVec2 (Binary32.of_int 1) (Binary32.of_int 0)) in
  Binary32.Circle.m_origin c
  = Binary32.mkVec2 (SpecFloat.S754_finite false 13421773 (-27))
                    (SpecFloat.S754_zero false)
  /\ Binary32.Circle.m_origin (Binary32.Circle.rotate p zero c)
     = Binary32.mkVec2 (SpecFloat.S754_finite false 13421776 (-27))
                       (SpecFloat.S754_zero false).
Proof.
  intros Hsin Hcos c p. split; [reflexivity|].
  unfold Binary32.Circle.rotate. rewrite Hsin, Hcos.
  vm_compute. reflexivity.
Qed.

(** C6 fails when [p] is bound to the shape's own centre, as in
    [c.rotate(c.origin(), theta); c.rotate(c.origin(), -theta);]:
    [Circle::rotate] writes [m_origin] before it reads [p] again, so each
    call leaves a zero or a NaN in both coordinates of the centre,
    whatever the angle and whatever the sine and the cosine; the circle
    comes back only if its centre was that already.  The circle of centre
    (3,4) does not come back. *)
Theorem C6_rotate_about_own_centre_loses_it
  (T : Binary32.Trig) (theta theta' : SpecFloat.spec_float) :
  (forall c : Binary32.Circle.t,
      let c1 := Binary32.Circle.rotate (Binary32.Member 0) theta c in
      let c2 := Binary32.Circle.rotate (Binary32.Member 0) theta' c1 in
      zero_or_nan (Binary32.x (Binary32.Circle.m_origin c1)) = true
      /\ zero_or_nan (Binary32.y (Binary32.Circle.m_origin c1)) = true
      /\ zero_or_nan (Binary32.x (Binary32.Circle.m_origin c2)) = true
      /\ zero_or_nan (Binary32.y (Binary32.Circle.m_origin c2)) = true
      /\ (c2 = c ->
          zero_or_nan (Binary32.x (Binary32.Circle.m_origin c)) = true
          /\ zero_or_nan (Binary32.y (Binary32.Circle.m_origin c)) = true))
  /\ (let c :=
        Binary32.Circle.new
          (Binary32.mkVec2 (Binary32.of_int 3) (Binary32.of_int 4))
          (Binary32.of_int 1) (mkColor 255 0 0) in
      Binary32.Circle.rotate (Binary32.Member 0) theta'
        (Binary32.Circle.rotate (Binary32.Member 0) theta c) <> c).
Proof.
  split.
  - intros c. cbv zeta.
    destruct (Circle_rotate_own_centre T theta c) as [Hx1 Hy1].
    destruct (Circle_rotate_own_centre
                T theta' (Binary32.Circle.rotate (Binary32.Member 0) theta c))
      as [Hx2 Hy2].
    cbv zeta in *.
    split; [exact Hx1 |]. split; [exact Hy1 |].
    split; [exact Hx2 |]. split; [exact Hy2 |].
    intros Hback. rewrite Hback in Hx2, Hy2. split; assumption.
  - cbv zeta. intros Hback.
    match type of Hback with
    | Binary32.Circle.rotate _ _ ?c1 = _ =>
        destruct (Circle_rotate_own_centre T theta' c1) as [Hx _]
    end.
    cbv zeta in Hx. rewrite Hback in Hx. discriminate Hx.
Qed.

(** ** The loop of [deserialize] ends

    No step of the parser puts characters back into the stream, and a turn
    of the loop whose extraction succeeds takes at least one.  So the fuel
    that [deserialize] gives, the length of the input, is never used up: a
    run with more fuel gives the same result. *)

Lemma skip_space_length (s : string) :
  (String.length (skip_space s) <= String.length s)%nat.
Proof.
  induction s as [|c s IH]; cbn; [lia |].
  destruct (isspace c); cbn; lia.
Qed.

Lemma skip_space_head (s : string) (c : ascii) (s' : string) :
  skip_space s = String c s' -> isspace c = false.
Proof.
  induction s as [|a s IH]; cbn; [discriminate |].
  destruct (isspace a) eqn:Ha; [exact IH |].
  intros Heq. injection Heq as <- _. exact Ha.
Qed.

Lemma read_token_length (s : string) :
  (String.length (snd (Stream.read_token s)) <= String.length s)%nat.
Proof.
  induction s as [|c s IH]; cbn; [lia |].
  destruct (isspace c); cbn; [lia |].
  destruct (Stream.read_token s) as [w s']. cbn in *. lia.
Qed.

Lemma extract_length (b : Stream.t) (w : string) :
  (String.length (Stream.rest (fst (Stream.extract b w)))
   <= String.length (Stream.rest b))%nat.
Proof.
  unfold Stream.extract. destruct (Stream.good b); [|cbn; lia].
  pose proof (skip_space_length (Stream.rest b)) as Hskip.
  destruct (skip_space (Stream.rest b)) as [|c s] eqn:Hs; [cbn; lia |].
  pose proof (read_token_length (String c s)) as Htok.
  destruct (Stream.read_token (String c s)) as [w' s'].
  cbn [fst snd Stream.rest] in *. lia.
Qed.

Lemma extract_progress (b : Stream.t) (w : string) :
  Stream.to_bool (fst (Stream.extract b w)) = true ->
  (String.length (Stream.rest (fst (Stream.extract b w)))
   < String.length (Stream.rest b))%nat.
Proof.
  unfold Stream.extract, Stream.to_bool.
  destruct (Stream.good b); [|cbn; discriminate].
  pose proof (skip_space_length (Stream.rest b)) as Hskip.
  destruct (skip_space (Stream.rest b)) as [|c s] eqn:Hs;
    [cbn; discriminate |].
  intros _. apply skip_space_head in Hs.
  pose proof (read_token_length s) as Htok.
  cbn [Stream.read_token]. rewrite Hs.
  destruct (Stream.read_token s) as [w' s'].
  cbn [fst snd Stream.rest String.length] in *. lia.
Qed.

Lemma getline_loop_length (room : nat) (s stored : string) (consumed : nat) :
  (String.length
     (Stream.rest (snd (Stream.getline_loop room s stored consumed)))
   <= String.length s)%nat.
Proof.
  revert room stored consumed.
  induction s as [|c s IH]; intros room stored consumed;
    cbn [Stream.getline_loop]; [cbn; lia |].
  destruct (Ascii.eqb c "010"); [cbn; lia |].
  destruct room as [|room]; [cbn; lia |].
  specialize (IH room (stored ++ String c EmptyString)%string (S consumed)).
  cbn [String.length]. lia.
Qed.

Lemma getline_length (b : Stream.t) (count : Z) :
  (String.length (Stream.rest (fst (Stream.getline b count)))
   <= String.length (Stream.rest b))%nat.
Proof.
  unfold Stream.getline.
  destruct (count <=? 0); [cbn; lia |].
  destruct (Stream.good b); [|cbn; lia].
  pose proof (getline_loop_length (Z.to_nat (count - 1)) (Stream.rest b)
                                  EmptyString 0) as Hloop.
  destruct (Stream.getline_loop _ _ _ _) as [[stored consumed] b'].
  cbn [snd] in Hloop.
  destruct consumed; destruct (1024 <=? _);
    cbn [fst Stream.rest]; lia.
Qed.

Lemma steady_ret {A : Type} (a : A) : steady (Image.ret a).
Proof. intros st. cbn. lia. Qed.

Lemma steady_bind {A B : Type} (m : Image.M A) (k : A -> Image.M B) :
  steady m -> (forall a, steady (k a)) -> steady (Image.bind m k).
Proof.
  intros Hm Hk st. unfold Image.bind. specialize (Hm st).
  destruct (m st) as [st' [a|e| |]]; cbn in *; try lia.
  specialize (Hk a st'). lia.
Qed.

Lemma steady_try_catch (body : Image.M unit)
      (handler : exception -> Image.M unit) :
  steady body -> (forall e, steady (handler e)) ->
  steady (Image.try_catch body handler).
Proof.
  intros Hb Hh st. unfold Image.try_catch. specialize (Hb st).
  destruct (body st) as [st' [a|e| |]]; cbn in *; try lia.
  specialize (Hh e st'). lia.
Qed.

Lemma steady_lift {A : Type} (f : Image.state -> result A) :
  steady (Image.lift f).
Proof. intros st. cbn. lia. Qed.

Lemma steady_modify (f : Image.state -> Image.state) :
  (forall st, Image.buf (f st) = Image.buf st) -> steady (Image.modify f).
Proof. intros Hf st. unfold remaining. cbn. rewrite Hf. lia. Qed.

Lemma steady_read_word : steady Image.read_word.
Proof.
  intros [i out b w]. unfold remaining, Image.read_word, Image.modify. cbn.
  pose proof (extract_length b w) as Hlen.
  destruct (Stream.extract b w) as [b' w']. cbn in *. exact Hlen.
Qed.

Lemma steady_read_annotation (n : Z) : steady (Image.read_annotation n).
Proof.
  intros [i out b w]. unfold remaining, Image.read_annotation. cbn.
  destruct (INT_MAX <? n + 2); cbn; [lia |].
  pose proof (getline_length b (n + 2)) as Hlen.
  destruct (Stream.getline b (n + 2)) as [b' text]. cbn in *. exact Hlen.
Qed.

Create HintDb steady.
#[local] Hint Resolve steady_ret steady_lift steady_read_word
  steady_read_annotation : steady.
#[local] Hint Extern 2 (steady (Image.bind _ _)) =>
  apply steady_bind; [| intros ?] : steady.
#[local] Hint Extern 2 (steady (Image.try_catch _ _)) =>
  apply steady_try_catch; [| intros ?] : steady.
#[local] Hint Extern 2 (steady (Image.modify _)) =>
  apply steady_modify; intros ?; reflexivity : steady.

Lemma steady_read_color : steady Image.read_color.
Proof. unfold Image.read_color, Image.word_stoi. auto 20 with steady. Qed.

Lemma steady_read_points (n : nat) (points : list Vec2) :
  steady (Image.read_points n points).
Proof.
  revert points. induction n as [|n IH]; intros points; cbn;
    unfold Image.word_stof; auto 20 with steady.
Qed.

#[local] Hint Resolve steady_read_color steady_read_points : steady.

Lemma steady_case_CIRCLE : steady Image.case_CIRCLE.
Proof.
  unfold Image.case_CIRCLE, Image.word_stof, Image.do_add_component,
    Image.log_bad_format.
  auto 30 with steady.
Qed.

Lemma steady_case_POLYGON : steady Image.case_POLYGON.
Proof.
  unfold Image.case_POLYGON, Image.word_stoi, Image.do_add_component,
    Image.log_bad_format.
  auto 30 with steady.
Qed.

Lemma steady_case_LINE : steady Image.case_LINE.
Proof.
  unfold Image.case_LINE, Image.word_stof, Image.do_add_component,
    Image.log_bad_format.
  auto 30 with steady.
Qed.

Lemma steady_case_ELLIPSE : steady Image.case_ELLIPSE.
Proof.
  unfold Image.case_ELLIPSE, Image.word_stof, Image.do_add_component,
    Image.log_bad_format.
  auto 30 with steady.
Qed.

Lemma steady_case_UNKNOWN : steady Image.case_UNKNOWN.
Proof.
  unfold Image.case_UNKNOWN, Image.word_stoi.
  auto 30 with steady.
Qed.

Lemma steady_dispatch : steady Image.dispatch.
Proof.
  intros st. unfold Image.dispatch.
  repeat match goal with |- context [if ?c then _ else _] => destruct c end;
    [apply steady_case_CIRCLE | apply steady_case_POLYGON
    |apply steady_case_LINE | apply steady_case_ELLIPSE
    |apply steady_case_UNKNOWN | cbn; lia].
Qed.

(** With fuel for the input left, more fuel changes nothing. *)
Lemma parse_loop_fuel (fuel : nat) :
  forall (st : Image.state) (extra : nat),
    (remaining st <= fuel)%nat ->
    Image.parse_loop (fuel + extra) st = Image.parse_loop fuel st.
Proof.
  induction fuel as [|fuel IH]; intros st extra Hlen.
  - destruct extra as [|extra]; [reflexivity |].
    cbn [Nat.add Image.parse_loop].
    destruct (Image.read_word st) as [st1 u] eqn:Hread.
    destruct (Stream.to_bool (Image.buf st1)) eqn:Hok; [|reflexivity].
    exfalso. destruct st as [i out b w].
    unfold Image.read_word, Image.modify in Hread.
    cbn [Image.this Image.cout Image.buf Image.word] in Hread.
    pose proof (extract_progress b w) as Hlt.
    destruct (Stream.extract b w) as [b1 w1].
    injection Hread as <- _. cbn [Image.buf fst] in *.
    specialize (Hlt Hok). unfold remaining in Hlen. cbn in Hlen. lia.
  - cbn [Nat.add Image.parse_loop].
    destruct (Image.read_word st) as [st1 u] eqn:Hread.
    destruct (Stream.to_bool (Image.buf st1)) eqn:Hok; [|reflexivity].
    assert (Hst1 : (remaining st1 <= fuel)%nat).
    { destruct st as [i out b w].
      unfold Image.read_word, Image.modify in Hread.
      cbn [Image.this Image.cout Image.buf Image.word] in Hread.
      pose proof (extract_progress b w) as Hlt.
      destruct (Stream.extract b w) as [b1 w1].
      injection Hread as <- _. cbn [Image.buf fst] in *.
      specialize (Hlt Hok). unfold remaining in *.
      cbn [Image.buf] in *. lia. }
    unfold Image.bind.
    pose proof (steady_dispatch st1) as Hd.
    destruct (Image.dispatch st1) as [st2 [[]|e| |]]; try reflexivity.
    apply IH. cbn [fst] in Hd. lia.
Qed.

(** [deserialize] with any fuel from the length of the input on. *)
Lemma deserialize_fuel (s : string) (i : Image.t) (out : list diagnostic)
      (extra : nat) :
  Image.parse_loop (String.length s + extra)
    (Image.mkState (Image.set_components [] i) out (Stream.new s) EmptyString)
  = Image.deserialize s i out.
Proof.
  unfold Image.deserialize. apply parse_loop_fuel.
  unfold remaining. cbn. lia.
Qed.

(** ** Deserialization: the keyword that is none of the four *)

(** [ShapeStringToEnum] gives [END_ENUM] exactly for the words that are
    not in the table [shapes]. *)
Lemma ShapeStringToEnum_unknown (w : string) :
  ~ In w shapes <-> ShapeStringToEnum w = END_ENUM.
Proof.
  cbv [ShapeStringToEnum shapes ShapeStringToEnum_from Derivedtype_of_index
       In].
  destruct (String.eqb_spec "circle" w) as [<-|H1];
    [split; [intros H; exfalso; apply H; auto | discriminate] |].
  destruct (String.eqb_spec "polygon" w) as [<-|H2];
    [split; [intros H; exfalso; apply H; auto | discriminate] |].
  destruct (String.eqb_spec "line" w) as [<-|H3];
    [split; [intros H; exfalso; apply H; auto | discriminate] |].
  destruct (String.eqb_spec "ellipse" w) as [<-|H4];
    [split; [intros H; exfalso; apply H; auto 6 | discriminate] |].
  split; [reflexivity | intros _ [H|[H|[H|[H|[]]]]]; congruence].
Qed.

(** Such a word selects the case labelled [Shape::UNKNOWN], whose value 5
    is the one of [END_ENUM]. *)
Lemma dispatch_unknown (st : Image.state) :
  ~ In (Image.word st) shapes -> Image.dispatch st = Image.case_UNKNOWN st.
Proof.
  intros Hw. apply ShapeStringToEnum_unknown in Hw.
  unfold Image.dispatch. rewrite Hw. reflexivity.
Qed.




(** ** Strings *)

Lemma append_assoc (a b c : string) :
  ((a ++ b) ++ c = a ++ (b ++ c))%string.
Proof. induction a as [|x a IH]; cbn; [reflexivity | now rewrite IH]. Qed.

Lemma append_nil_r (a : string) : (a ++ "")%string = a.
Proof. induction a as [|x a IH]; cbn; [reflexivity | now rewrite IH]. Qed.

Lemma length_append (a b : string) :
  String.length (a ++ b) = (String.length a + String.length b)%nat.
Proof. induction a as [|x a IH]; cbn; [reflexivity | now rewrite IH]. Qed.

Lemma string_forall_app (p : ascii -> bool) (a b : string) :
  string_forall p (a ++ b) = string_forall p a && string_forall p b.
Proof.
  induction a as [|x a IH]; cbn; [reflexivity |].
  rewrite IH. apply andb_assoc.
Qed.

Lemma string_forall_impl (p q : ascii -> bool) (s : string) :
  (forall c, p c = true -> q c = true) ->
  string_forall p s = true -> string_forall q s = true.
Proof.
  intros Hpq. induction s as [|c s IH]; cbn; [reflexivity |].
  intros [Hc Hs]%andb_prop. rewrite (Hpq c Hc), (IH Hs). reflexivity.
Qed.

(** ** Printing and reading digits *)

Lemma digit_char_cases (d : Z) :
  0 <= d < 10 ->
  isdigit (digit_char d) = true /\ digit_value (digit_char d) = d.
Proof.
  intros Hd.
  assert (Hcases : d = 0 \/ d = 1 \/ d = 2 \/ d = 3 \/ d = 4 \/ d = 5
                   \/ d = 6 \/ d = 7 \/ d = 8 \/ d = 9) by lia.
  repeat (destruct Hcases as [-> | Hcases]; [split; reflexivity |]).
  subst d. split; reflexivity.
Qed.

Lemma isdigit_not_space (c : ascii) : isdigit c = true -> isspace c = false.
Proof.
  unfold isdigit, isspace. intros [H1 H2]%andb_prop.
  apply Nat.leb_le in H1, H2.
  destruct (Nat.leb_spec 9 (nat_of_ascii c));
    destruct (Nat.leb_spec (nat_of_ascii c) 13);
    destruct (Nat.eqb_spec (nat_of_ascii c) 32); cbn; try reflexivity; lia.
Qed.

Lemma digits_from_app (fuel : nat) :
  forall (n : Z) (acc : string),
    digits_from fuel n acc = (digits_from fuel n EmptyString ++ acc)%string.
Proof.
  induction fuel as [|fuel IH]; intros n acc; cbn [digits_from];
    [reflexivity |].
  destruct (n <? 10); [reflexivity |].
  rewrite (IH (n / 10) (String _ acc)), (IH (n / 10) (String _ EmptyString)).
  rewrite append_assoc. reflexivity.
Qed.

Lemma digits_value_app (a b : string) (acc : Z) :
  digits_value (a ++ b) acc = digits_value b (digits_value a acc).
Proof.
  revert acc. induction a as [|c a IH]; intros acc; cbn; [reflexivity |].
  apply IH.
Qed.

(** With enough fuel, the digits printed for [n] are digits, and they
    denote [n]. *)
Lemma digits_from_spec (fuel : nat) :
  forall n : Z,
    0 <= n -> Z.log2 n <= Z.of_nat fuel ->
    string_forall isdigit (digits_from fuel n EmptyString) = true
    /\ digits_value (digits_from fuel n EmptyString) 0 = n
    /\ digits_from fuel n EmptyString <> EmptyString.
Proof.
  induction fuel as [|fuel IH]; intros n Hn Hlog; cbn [digits_from].
  - assert (Hsmall : n < 2).
    { destruct (Z.lt_ge_cases n 2) as [|Hge]; [assumption |].
      pose proof (Z.log2_le_mono 2 n Hge) as Hmono.
      change (Z.log2 2) with 1 in Hmono. lia. }
    assert (Hmod : n mod 10 = n) by (apply Z.mod_small; lia).
    rewrite Hmod. destruct (digit_char_cases n) as [Hd Hv]; [lia |].
    cbn [string_forall digits_value]. rewrite Hd, Hv.
    split; [reflexivity | split; [lia | discriminate]].
  - assert (Hmod : 0 <= n mod 10 < 10) by (apply Z.mod_pos_bound; lia).
    destruct (digit_char_cases (n mod 10) Hmod) as [Hd Hv].
    destruct (Z.ltb_spec n 10) as [Hlt|Hge].
    + cbn [string_forall digits_value]. rewrite Hd, Hv.
      rewrite Z.mod_small by lia.
      split; [reflexivity | split; [lia | discriminate]].
    + rewrite digits_from_app.
      assert (Hdiv : 0 <= n / 10) by (apply Z.div_pos; lia).
      assert (Hlog' : Z.log2 (n / 10) <= Z.of_nat fuel).
      { assert (Hpos : 0 < n / 10) by (apply Z.div_str_pos; lia).
        assert (Hdouble : 2 * (n / 10) <= n).
        { pose proof (Z.div_mod n 10). lia. }
        pose proof (Z.log2_le_mono _ _ Hdouble) as Hmono.
        rewrite (Z.log2_double _ Hpos) in Hmono. lia. }
      destruct (IH (n / 10) Hdiv Hlog') as (Hall & Hval & Hne).
      rewrite string_forall_app, digits_value_app, Hall, Hval.
      cbn [string_forall digits_value]. rewrite Hd, Hv.
      split; [reflexivity | split].
      * pose proof (Z.div_mod n 10). lia.
      * destruct (digits_from fuel (n / 10) EmptyString);
          [congruence | discriminate].
Qed.

Lemma digits_spec (n : Z) :
  0 <= n ->
  string_forall isdigit (digits n) = true
  /\ digits_value (digits n) 0 = n
  /\ digits n <> EmptyString.
Proof.
  intros Hn. unfold digits. apply digits_from_spec; [assumption |].
  pose proof (Z.log2_nonneg n). lia.
Qed.

Lemma read_digits_app (ds s : string) :
  forall (acc : Z) (count : nat),
    string_forall isdigit ds = true ->
    read_digits (ds ++ s) acc count
    = read_digits s (digits_value ds acc) (count + String.length ds).
Proof.
  induction ds as [|c ds IH]; intros acc count Hall.
  - cbn. f_equal. lia.
  - cbn [string_forall] in Hall. apply andb_prop in Hall as [Hc Hds].
    cbn [append read_digits digits_value String.length]. rewrite Hc.
    rewrite (IH _ _ Hds). f_equal. lia.
Qed.

(** A sign or a digit is no blank, and a digit is no sign. *)
Lemma read_sign_digit (c : ascii) (s : string) :
  isdigit c = true -> read_sign (String c s) = (false, String c s).
Proof.
  destruct c as [[] [] [] [] [] [] [] []]; try discriminate; reflexivity.
Qed.

Lemma digit_not_special (c : ascii) :
  isdigit c = true ->
  Ascii.eqb "i" (to_lower c) = false
  /\ Ascii.eqb "n" (to_lower c) = false
  /\ Ascii.eqb "x" (to_lower c) = false.
Proof.
  destruct c as [[] [] [] [] [] [] [] []]; try discriminate;
    repeat split; reflexivity.
Qed.

(** [std::stoi] reads back what [to_string(int)] prints. *)
Lemma stoi_to_string_int (z : Z) :
  int_ok z -> stoi (to_string_int z) = Ok z.
Proof.
  intros [Hmin Hmax]. unfold to_string_int, stoi.
  destruct (Z.ltb_spec z 0) as [Hneg|Hpos].
  - destruct (digits_spec (- z)) as (Hall & Hval & Hne); [lia |].
    change (skip_space (String "-" (digits (- z))))
      with (String "-" (digits (- z))).
    change (read_sign (String "-" (digits (- z))))
      with (true, digits (- z)).
    rewrite <- (append_nil_r (digits (- z))).
    rewrite (read_digits_app _ _ 0 0 Hall), Hval.
    cbn [read_digits].
    destruct (digits (- z)) as [|c ds] eqn:Hds; [congruence |].
    cbn [String.length Nat.add].
    replace (- - z) with z by lia.
    destruct (Z.ltb_spec z INT_MIN); [lia |].
    destruct (Z.ltb_spec INT_MAX z); [lia |]. reflexivity.
  - destruct (digits_spec z) as (Hall & Hval & Hne); [lia |].
    destruct (digits z) as [|c ds] eqn:Hds; [congruence |].
    pose proof Hall as Hc. cbn [string_forall] in Hc.
    apply andb_prop in Hc as [Hc _].
    cbn [skip_space]. rewrite (isdigit_not_space c Hc).
    rewrite (read_sign_digit c ds Hc).
    rewrite <- (append_nil_r (String c ds)).
    rewrite (read_digits_app _ _ 0 0 Hall), Hval.
    cbn [read_digits String.length Nat.add].
    destruct (Z.ltb_spec z INT_MIN); [lia |].
    destruct (Z.ltb_spec INT_MAX z); [lia |]. reflexivity.
Qed.

(** ** Printing and reading floats *)

Lemma Qlt_bool_false (a b : Q) : (b <= a)%Q -> Qlt_bool a b = false.
Proof.
  intros Hle. unfold Qlt_bool.
  destruct (Qle_bool a b) eqn:Hab; [|reflexivity].
  apply Qle_bool_iff in Hab.
  assert (Heq : (a == b)%Q) by (apply Qle_antisym; assumption).
  apply Qeq_bool_iff in Heq. rewrite Heq. reflexivity.
Qed.

Lemma hundredths_nonneg (f : float) : 0 <= hundredths f.
Proof.
  unfold hundredths.
  set (n := Z.abs (Qnum (this f)) * 100).
  set (d := Z.pos (Qden (this f))).
  assert (Hn : 0 <= n) by (unfold n; lia).
  assert (Hd : 0 < d) by (unfold d; lia).
  assert (Hq : 0 <= n / d) by (apply Z.div_pos; assumption).
  destruct (d <? 2 * (n mod d)); [lia |].
  destruct ((d =? 2 * (n mod d)) && Z.odd (n / d)); lia.
Qed.

(** No number printed with a point is taken for an infinity, a NaN or a
    hexadecimal float. *)
Lemma no_special_prefix (c : ascii) (ds tail : string) :
  isdigit c = true ->
  string_forall isdigit ds = true ->
  has_prefix_nocase "inf" (String c (ds ++ String "." tail))
  || has_prefix_nocase "nan" (String c (ds ++ String "." tail))
  || has_prefix_nocase "0x" (String c (ds ++ String "." tail))
  = false.
Proof.
  intros Hc Hds.
  destruct (digit_not_special c Hc) as (Hi & Hn & _).
  cbn [has_prefix_nocase]. rewrite Hi, Hn. cbn [andb orb].
  destruct ds as [|c2 ds].
  - cbn [append has_prefix_nocase].
    change (Ascii.eqb "x" (to_lower ".")) with false.
    cbn [andb]. apply andb_false_r.
  - cbn [string_forall] in Hds. apply andb_prop in Hds as [Hc2 _].
    destruct (digit_not_special c2 Hc2) as (_ & _ & Hx).
    cbn [append has_prefix_nocase]. rewrite Hx.
    cbn [andb]. apply andb_false_r.
Qed.

(** [std::stof] on a decimal number with two decimals. *)
Lemma stof_decimal (neg : bool) (m v1 v2 : Z) :
  0 <= m -> 0 <= v1 < 10 -> 0 <= v2 < 10 ->
  ((100 * m + 10 * v1 + v2) # 100 <= FLT_MAX)%Q ->
  stof ((if neg then "-" else "")
          ++ digits m
          ++ String "." (String (digit_char v1)
                                (String (digit_char v2) EmptyString)))
  = Ok (Q2Qc ((if neg then - (100 * m + 10 * v1 + v2)
               else 100 * m + 10 * v1 + v2) # 100)).
Proof.
  intros Hm Hv1 Hv2 Hmax.
  destruct (digits_spec m Hm) as (Hall & Hval & Hne).
  destruct (digit_char_cases v1 Hv1) as [Hd1 He1].
  destruct (digit_char_cases v2 Hv2) as [Hd2 He2].
  destruct (digits m) as [|c ds] eqn:Hds; [congruence |].
  pose proof Hall as Hc. cbn [string_forall] in Hc.
  apply andb_prop in Hc as [Hc Hrest].
  set (tail := String (digit_char v1) (String (digit_char v2) EmptyString)).
  assert (Hsign :
            read_sign (skip_space ((if neg then "-" else "")
                                     ++ String c ds ++ String "." tail))
            = (neg, String c (ds ++ String "." tail))).
  { destruct neg.
    - reflexivity.
    - cbn [append skip_space]. rewrite (isdigit_not_space c Hc).
      apply read_sign_digit. exact Hc. }
  unfold stof. rewrite Hsign.
  rewrite (no_special_prefix c ds tail Hc Hrest).
  change (String c (ds ++ String "." tail))
    with (String c ds ++ String "." tail)%string.
  rewrite (read_digits_app _ _ 0 0 Hall), Hval.
  cbn [read_digits]. change (isdigit ".") with false. cbv iota.
  unfold tail. cbn [read_digits]. rewrite Hd1, Hd2, He1, He2.
  cbn [Nat.add String.length read_exponent].
  set (h := 10 * (10 * m + v1) + v2).
  change (0 - Z.of_nat 2) with (-2).
  change (Qpower (10 # 1) (-2)) with (1 # 100)%Q.
  assert (Hq : (inject_Z h * (1 # 100) == h # 100)%Q).
  { unfold Qeq, Qmult, inject_Z. cbn [Qnum Qden]. lia. }
  assert (Hh : h = 100 * m + 10 * v1 + v2) by (unfold h; lia).
  rewrite <- Hh in *.
  rewrite (Qlt_bool_false FLT_MAX _) by (rewrite Hq; exact Hmax).
  assert (Hmin : Qlt_bool 0 (inject_Z h * (1 # 100))
                 && Qlt_bool (inject_Z h * (1 # 100)) FLT_MIN = false).
  { destruct (Z.eq_dec h 0) as [Hz|Hnz].
    - rewrite (Qlt_bool_false 0 _); [reflexivity |].
      rewrite Hq, Hz. discriminate.
    - rewrite (Qlt_bool_false _ FLT_MIN); [apply andb_false_r |].
      rewrite Hq. unfold Qle, FLT_MIN. cbn [Qnum Qden]. lia. }
  rewrite Hmin. cbn [orb]. f_equal.
  apply Qc_is_canon. cbn [this Q2Qc].
  rewrite !Qred_correct. destruct neg; rewrite Hq; reflexivity.
Qed.

Lemma hundredths_split (h : Z) :
  0 <= h ->
  100 * (h / 100) + 10 * (h mod 100 / 10) + h mod 10 = h
  /\ 0 <= h / 100
  /\ 0 <= h mod 100 / 10 < 10
  /\ 0 <= h mod 10 < 10.
Proof.
  intros Hh.
  pose proof (Z.div_mod h 100) as H100.
  pose proof (Z.mod_pos_bound h 100) as B100.
  pose proof (Z.div_mod (h mod 100) 10) as H10.
  pose proof (Z.mod_pos_bound (h mod 100) 10) as B10.
  assert (Hmm : (h mod 100) mod 10 = h mod 10).
  { apply Z.mod_mod_divide. exists 10. reflexivity. }
  assert (Hq : 0 <= h / 100) by (apply Z.div_pos; lia).
  assert (Hq1 : 0 <= h mod 100 / 10) by (apply Z.div_pos; lia).
  assert (Hq2 : h mod 100 / 10 < 10) by (apply Z.div_lt_upper_bound; lia).
  pose proof (Z.mod_pos_bound h 10). lia.
Qed.

(** [std::stof] reads back what [to_string(float)] prints: the float
    rounded to two decimals. *)
Lemma stof_to_string_float (f : float) :
  float_ok f -> stof (to_string_float f) = Ok (round2 f).
Proof.
  intros Hok. unfold float_ok in Hok. unfold to_string_float, round2.
  pose proof (hundredths_nonneg f) as Hh.
  set (h := hundredths f) in *.
  destruct (hundredths_split h Hh) as (Hsum & Hm & Hv1 & Hv2).
  pose proof (stof_decimal (Qnum (this f) <? 0) (h / 100)
                           (h mod 100 / 10) (h mod 10) Hm Hv1 Hv2) as Hstof.
  rewrite Hsum in Hstof. specialize (Hstof Hok).
  etransitivity; [|exact Hstof]. f_equal.
  destruct (Qnum (this f) <? 0); reflexivity.
Qed.

(** What is printed for a number is a token. *)
Lemma digits_token (n : Z) (tail : string) :
  0 <= n ->
  string_forall (fun c => negb (isspace c)) tail = true ->
  is_token (digits n ++ tail).
Proof.
  intros Hn Htail. destruct (digits_spec n Hn) as (Hall & _ & Hne).
  split.
  - destruct (digits n); [congruence | discriminate].
  - rewrite string_forall_app, Htail, andb_true_r.
    apply (string_forall_impl isdigit); [|exact Hall].
    intros c Hc. rewrite (isdigit_not_space c Hc). reflexivity.
Qed.

Lemma to_string_int_token (z : Z) : is_token (to_string_int z).
Proof.
  unfold to_string_int. destruct (Z.ltb_spec z 0).
  - destruct (digits_token (- z) EmptyString) as [_ Hall];
      [lia | reflexivity |].
    rewrite append_nil_r in Hall.
    split; [discriminate | cbn [string_forall]; rewrite Hall; reflexivity].
  - rewrite <- (append_nil_r (digits z)).
    apply digits_token; [assumption | reflexivity].
Qed.

Lemma to_string_float_token (f : float) : is_token (to_string_float f).
Proof.
  unfold to_string_float.
  pose proof (hundredths_nonneg f) as Hh.
  set (h := hundredths f) in *.
  destruct (hundredths_split h Hh) as (_ & Hm & Hv1 & Hv2).
  destruct (digit_char_cases _ Hv1) as [Hd1 _].
  destruct (digit_char_cases _ Hv2) as [Hd2 _].
  assert (Htok : is_token
                   (digits (h / 100)
                    ++ String "." (String (digit_char (h mod 100 / 10))
                                     (String (digit_char (h mod 10))
                                             EmptyString)))).
  { apply digits_token; [assumption |].
    cbn [string_forall].
    rewrite (isdigit_not_space _ Hd1), (isdigit_not_space _ Hd2).
    reflexivity. }
  destruct (Qnum (this f) <? 0); [|exact Htok].
  destruct Htok as [_ Hall].
  split; [discriminate | cbn [string_forall]; rewrite Hall; reflexivity].
Qed.

(** ** Reading tokens *)

Lemma read_token_app (w r : string) :
  string_forall (fun c => negb (isspace c)) w = true ->
  Stream.read_token (w ++ String " " r) = (w, String " " r).
Proof.
  induction w as [|c w IH]; intros Hw.
  - reflexivity.
  - cbn [string_forall] in Hw. apply andb_prop in Hw as [Hc Hw].
    apply negb_true_iff in Hc.
    cbn [append Stream.read_token]. rewrite Hc, (IH Hw). reflexivity.
Qed.

(** From a good stream that holds a blank, the token [w] and a text [t]
    that starts with a blank, [buf >> word] takes the token and leaves
    [t]. *)
Lemma extract_token (w t word : string) :
  is_token w -> blank_first t ->
  Stream.extract (Stream.mk (String " " (w ++ t)) false false) word
  = (Stream.mk t false false, w).
Proof.
  intros [Hne Hw] [r ->]. unfold Stream.extract.
  cbn [Stream.good Stream.eofbit Stream.failbit Stream.rest negb andb].
  destruct w as [|c w]; [congruence |].
  pose proof Hw as Hc. cbn [string_forall] in Hc.
  apply andb_prop in Hc as [Hc _]. apply negb_true_iff in Hc.
  change (skip_space (String " " (String c w ++ String " " r)))
    with (skip_space (String c (w ++ String " " r))).
  cbn [skip_space]. rewrite Hc.
  change (String c (w ++ String " " r)) with (String c w ++ String " " r)%string.
  rewrite (read_token_app _ _ Hw). reflexivity.
Qed.

Lemma read_word_token (i : Image.t) (out : list diagnostic)
      (w t word : string) :
  is_token w -> blank_first t ->
  Image.read_word
    (Image.mkState i out (Stream.mk (String " " (w ++ t)) false false) word)
  = (Image.mkState i out (Stream.mk t false false) w, Ok tt).
Proof.
  intros Hw Ht. unfold Image.read_word, Image.modify.
  cbn [Image.this Image.cout Image.buf Image.word].
  rewrite (extract_token w t word Hw Ht). reflexivity.
Qed.

Lemma blank_color_text (c : Color) (t : string) : blank_first (color_text c t).
Proof. eexists. reflexivity. Qed.

Lemma blank_vec_text (v : Vec2) (t : string) : blank_first (vec_text v t).
Proof. eexists. reflexivity. Qed.

Lemma blank_points_text (pts : list Vec2) (t : string) :
  blank_first t -> blank_first (points_text pts t).
Proof. destruct pts; [trivial | intros _; apply blank_vec_text]. Qed.

Lemma blank_string (r : string) : blank_first (String " " r).
Proof. eexists. reflexivity. Qed.

Lemma blank_annotation_text (a : string) : blank_first (annotation_text a).
Proof. eexists. reflexivity. Qed.

Create HintDb blank.
#[local] Hint Resolve blank_color_text blank_vec_text blank_points_text
  blank_string blank_annotation_text : blank.

(** [buf >> word; x = std::stof(word)] on a printed float, and the same
    with [std::stoi] on a printed integer. *)
Lemma step_stof {A : Type} (k : float -> Image.M A) (i : Image.t)
      (out : list diagnostic) (f : float) (t word : string) :
  float_ok f -> blank_first t ->
  Image.bind Image.read_word
    (fun _ => Image.bind Image.word_stof k)
    (Image.mkState i out
       (Stream.mk (String " " (to_string_float f ++ t)) false false) word)
  = k (round2 f)
      (Image.mkState i out (Stream.mk t false false) (to_string_float f)).
Proof.
  intros Hf Ht. unfold Image.bind at 1.
  rewrite (read_word_token _ _ _ _ _ (to_string_float_token f) Ht).
  unfold Image.bind, Image.word_stof, Image.lift.
  cbn [Image.word]. rewrite (stof_to_string_float f Hf). reflexivity.
Qed.

Lemma step_stoi {A : Type} (k : Z -> Image.M A) (i : Image.t)
      (out : list diagnostic) (z : Z) (t word : string) :
  int_ok z -> blank_first t ->
  Image.bind Image.read_word
    (fun _ => Image.bind Image.word_stoi k)
    (Image.mkState i out
       (Stream.mk (String " " (to_string_int z ++ t)) false false) word)
  = k z (Image.mkState i out (Stream.mk t false false) (to_string_int z)).
Proof.
  intros Hz Ht. unfold Image.bind at 1.
  rewrite (read_word_token _ _ _ _ _ (to_string_int_token z) Ht).
  unfold Image.bind, Image.word_stoi, Image.lift.
  cbn [Image.word]. rewrite (stoi_to_string_int z Hz). reflexivity.
Qed.

Lemma step_color {A : Type} (k : Color -> Image.M A) (i : Image.t)
      (out : list diagnostic) (c : Color) (t word : string) :
  color_ok c -> blank_first t ->
  Image.bind Image.read_color k
    (Image.mkState i out (Stream.mk (color_text c t) false false) word)
  = k c (Image.mkState i out (Stream.mk t false false)
                       (to_string_int (b c))).
Proof.
  intros (Hr & Hg & Hb) Ht. destruct c as [cr cg cb]. cbn [Maths.r g b] in *.
  unfold Image.read_color, color_text. cbn [Maths.r g b].
  unfold Image.bind at 1.
  rewrite (step_stoi _ _ _ _ _ _ Hr) by auto with blank.
  rewrite (step_stoi _ _ _ _ _ _ Hg) by auto with blank.
  rewrite (step_stoi _ _ _ _ _ _ Hb Ht).
  reflexivity.
Qed.

Lemma step_vec {A : Type} (k : float -> float -> Image.M A) (i : Image.t)
      (out : list diagnostic) (v : Vec2) (t word : string) :
  vec_ok v -> blank_first t ->
  Image.bind Image.read_word
    (fun _ => Image.bind Image.word_stof
       (fun a => Image.bind Image.read_word
          (fun _ => Image.bind Image.word_stof (fun b => k a b))))
    (Image.mkState i out (Stream.mk (vec_text v t) false false) word)
  = k (round2 (x v)) (round2 (y v))
      (Image.mkState i out (Stream.mk t false false)
                     (to_string_float (y v))).
Proof.
  intros [Hx Hy] Ht. unfold vec_text.
  rewrite (step_stof _ _ _ _ _ _ Hx) by auto with blank.
  rewrite (step_stof _ _ _ _ _ _ Hy Ht). reflexivity.
Qed.

(** ** Deserialization: a number that is not one *)

(** When the first number of a circle record is a token that [std::stof]
    rejects, the [catch] block writes its line and the case ends there: the
    image is as before and the tokens that follow stay in the stream, where
    the loop takes the next one for the keyword of a record. *)
Lemma case_CIRCLE_bad_number (i : Image.t) (out : list diagnostic)
      (w t word : string) (e : exception) :
  is_token w -> blank_first t -> stof w = Throw e ->
  Image.case_CIRCLE
    (Image.mkState i out (Stream.mk (String " " (w ++ t)) false false) word)
  = (Image.mkState i (out ++ [Bad_format e]) (Stream.mk t false false) w,
     Ok tt).
Proof.
  intros Hw Ht He. unfold Image.case_CIRCLE, Image.try_catch.
  unfold Image.bind at 1. rewrite (read_word_token _ _ _ _ _ Hw Ht).
  unfold Image.bind, Image.word_stof, Image.lift. cbn [Image.word].
  rewrite He. reflexivity.
Qed.

(** C2, at three circle records whose second one starts with the token
    [foo].  The first record is stored and one diagnostic is written, but
    the tokens left of the second record are read as further clauses: the
    [0] starts an annotation clause of length 5, [getline] stops for lack
    of room and sets the fail bit, and the loop ends.  The third record is
    not stored and the annotation is [ 255 0].  On the input
    [circle foo bar] the exception raised for [bar] leaves
    [deserialize]. *)
Theorem C2_malformed_number_loses_later_records :
  let r := Image.deserialize three_records fresh [] in
  snd r = Ok tt
  /\ Image.cout (fst r) = [Bad_format invalid_argument]
  /\ Image.components (Image.this (fst r))
     = [Shape.OfCircle
          (Circle.new (point 1 2) (of_int 3) (mkColor 4 5 6))]
  /\ Image.get_annotation (Image.this (fst r)) = " 255 0"%string
  /\ Stream.rest (Image.buf (fst r)) = " 0 circle 7 8 9 1 2 3"%string
  /\ Stream.failbit (Image.buf (fst r)) = true
  /\ snd (Image.deserialize "circle foo bar" fresh []) = Throw invalid_argument.
Proof.
  cbv zeta. repeat split; try float_eq.
Qed.

(** ** The text that [serialize] writes *)

Lemma fold_left_points (pts : list Vec2) :
  forall serial tail : string,
    (fold_left
       (fun serial point =>
          let serial := (serial ++ " " ++ to_string_float (x point))%string in
          (serial ++ " " ++ to_string_float (y point))%string)
       pts serial ++ tail)%string
    = (serial ++ points_text pts tail)%string.
Proof.
  induction pts as [|p pts IH]; intros serial tail; cbn [fold_left].
  - reflexivity.
  - rewrite IH. cbv zeta. rewrite !append_assoc. reflexivity.
Qed.

Lemma Shape_serialize_text (s : Shape.t) :
  forall serial tail : string,
    (Shape.serialize serial s ++ tail)%string
    = (serial ++ shape_text s tail)%string.
Proof.
  induction s as [c|p|l|e|ty col cs a o IH] using Shape_ind_nested;
    intros serial tail.
  - cbn [Shape.serialize]. unfold Circle.serialize. cbv zeta.
    rewrite !append_assoc. reflexivity.
  - cbn [Shape.serialize]. unfold Polygon.serialize. cbv zeta.
    rewrite !append_assoc. rewrite fold_left_points.
    rewrite !append_assoc. reflexivity.
  - cbn [Shape.serialize]. unfold Line.serialize. cbv zeta.
    rewrite !append_assoc. reflexivity.
  - cbn [Shape.serialize]. unfold Ellipse.serialize. cbv zeta.
    rewrite !append_assoc. reflexivity.
  - cbn [Shape.serialize shape_text Shape.Image_serialize].
    set (loop := fix loop (cs : list Shape.t) (serial : string) : string :=
                   match cs with
                   | [] => serial
                   | component :: cs' =>
                       loop cs' (Shape.serialize serial component)
                   end).
    assert (Hloop : forall serial,
               loop cs serial = (serial ++ loop cs EmptyString)%string).
    { induction IH as [|c cs Hc _ IHcs]; intros serial'.
      - cbn. rewrite append_nil_r. reflexivity.
      - cbn [loop].
        rewrite IHcs, (IHcs (Shape.serialize EmptyString c)).
        rewrite <- append_assoc. f_equal.
        pose proof (Hc serial' EmptyString) as H1.
        pose proof (Hc EmptyString EmptyString) as H2.
        rewrite append_nil_r in H1, H2. cbn [append] in H2.
        rewrite H1, H2. reflexivity. }
    rewrite Hloop. rewrite !append_assoc. reflexivity.
Qed.

(** The text of an image: its components in order, then the annotation
    clause. *)
Lemma Image_serialize_text (i : Image.t) :
  Image.serialize EmptyString i
  = fold_right shape_text (annotation_text (Image.get_annotation i))
               (Image.components i).
Proof.
  destruct i as [ty col cs a o].
  unfold Image.serialize.
  cbn [Shape.Image_serialize Image.components Image.get_annotation].
  set (loop := fix loop (cs : list Shape.t) (serial : string) : string :=
                 match cs with
                 | [] => serial
                 | component :: cs' =>
                     loop cs' (Shape.serialize serial component)
                 end).
  assert (Hloop : forall cs serial tail,
             (loop cs serial ++ tail)%string
             = (serial ++ fold_right shape_text tail cs)%string).
  { clear. intros cs. induction cs as [|c cs IH]; intros serial tail.
    - reflexivity.
    - cbn [loop fold_right]. rewrite IH. apply Shape_serialize_text. }
  apply (Hloop cs EmptyString).
Qed.

(** ** Reading records *)

(** An image at origin (0,0) stores a shape where it is. *)
Lemma translate_zero (s : Shape.t) : Shape.translate (point 0 0) s = s.
Proof.
  induction s as [c|p|l|e|ty col cs a o IH] using Shape_ind_nested;
    cbn [Shape.translate Shape.Image_translate].
  - destruct c. unfold Circle.translate, Circle.set_origin.
    cbn [Circle.m_type Circle.m_color Circle.m_origin Circle.m_radius].
    rewrite vadd_zero. reflexivity.
  - destruct p as [ty col pts]. unfold Polygon.translate, Polygon.set_points.
    cbn [Polygon.m_type Polygon.m_color Polygon.m_points].
    do 2 f_equal. rewrite <- (map_id pts) at 2.
    apply map_ext. intros v. apply vadd_zero.
  - destruct l. unfold Line.translate, Line.set_point.
    cbn [Line.m_type Line.m_color Line.m_point Line.m_direction].
    rewrite vadd_zero. reflexivity.
  - destruct e. unfold Ellipse.translate, Ellipse.set_origin.
    cbn [Ellipse.m_type Ellipse.m_color Ellipse.m_origin Ellipse.m_radius].
    rewrite vadd_zero. reflexivity.
  - do 2 f_equal. rewrite <- (map_id cs) at 2.
    induction IH as [|s cs Hs _ IHcs]; cbn [map]; [reflexivity | congruence].
Qed.

Lemma add_component_at_zero (s : Shape.t) (i : Image.t) :
  Image.origin i = point 0 0 ->
  Image.add_component s i
  = Image.set_components (Image.components i ++ [s]) i.
Proof.
  intros Ho. unfold Image.add_component. rewrite Ho, translate_zero.
  reflexivity.
Qed.

Lemma case_CIRCLE_text (i : Image.t) (out : list diagnostic) (c : Circle.t)
      (t word : string) :
  shape_ok (Shape.OfCircle c) ->
  Image.origin i = point 0 0 ->
  blank_first t ->
  Image.case_CIRCLE
    (Image.mkState i out
       (Stream.mk (circle_fields c t) false false) word)
  = (Image.mkState
       (Image.set_components
          (Image.components i ++ [round2_shape (Shape.OfCircle c)]) i)
       out (Stream.mk t false false)
       (to_string_int (b (Circle.m_color c))), Ok tt).
Proof.
  intros (Hty & Hcol & Hvec & Hrad) Ho Ht.
  unfold Image.case_CIRCLE, Image.try_catch, circle_fields.
  rewrite (step_vec _ _ _ _ _ _ Hvec) by auto with blank.
  rewrite (step_stof _ _ _ _ _ _ Hrad) by auto with blank.
  rewrite (step_color _ _ _ _ _ _ Hcol Ht).
  unfold Image.do_add_component, Image.modify.
  cbn [Image.this Image.cout Image.buf Image.word].
  rewrite (add_component_at_zero _ _ Ho).
  unfold round2_shape, Circle.new, round2_vec. rewrite Hty. reflexivity.
Qed.

Lemma case_LINE_text (i : Image.t) (out : list diagnostic) (l : Line.t)
      (t word : string) :
  shape_ok (Shape.OfLine l) ->
  Image.origin i = point 0 0 ->
  blank_first t ->
  Image.case_LINE
    (Image.mkState i out
       (Stream.mk (line_fields l t) false false) word)
  = (Image.mkState
       (Image.set_components
          (Image.components i ++ [round2_shape (Shape.OfLine l)]) i)
       out (Stream.mk t false false)
       (to_string_int (b (Line.m_color l))), Ok tt).
Proof.
  intros (Hty & Hcol & Hp & Hd) Ho Ht.
  unfold Image.case_LINE, Image.try_catch, line_fields.
  rewrite (step_vec _ _ _ _ _ _ Hp) by auto with blank.
  rewrite (step_vec _ _ _ _ _ _ Hd) by auto with blank.
  rewrite (step_color _ _ _ _ _ _ Hcol Ht).
  unfold Image.do_add_component, Image.modify.
  cbn [Image.this Image.cout Image.buf Image.word].
  rewrite (add_component_at_zero _ _ Ho).
  unfold round2_shape, Line.new, round2_vec. rewrite Hty. reflexivity.
Qed.

Lemma case_ELLIPSE_text (i : Image.t) (out : list diagnostic) (e : Ellipse.t)
      (t word : string) :
  shape_ok (Shape.OfEllipse e) ->
  Image.origin i = point 0 0 ->
  blank_first t ->
  Image.case_ELLIPSE
    (Image.mkState i out
       (Stream.mk (ellipse_fields e t) false false) word)
  = (Image.mkState
       (Image.set_components
          (Image.components i ++ [round2_shape (Shape.OfEllipse e)]) i)
       out (Stream.mk t false false)
       (to_string_int (b (Ellipse.m_color e))), Ok tt).
Proof.
  intros (Hty & Hcol & Ho' & Hr) Ho Ht.
  unfold Image.case_ELLIPSE, Image.try_catch, ellipse_fields.
  rewrite (step_vec _ _ _ _ _ _ Ho') by auto with blank.
  rewrite (step_vec _ _ _ _ _ _ Hr) by auto with blank.
  rewrite (step_color _ _ _ _ _ _ Hcol Ht).
  unfold Image.do_add_component, Image.modify.
  cbn [Image.this Image.cout Image.buf Image.word].
  rewrite (add_component_at_zero _ _ Ho).
  unfold round2_shape, Ellipse.new, round2_vec. rewrite Hty. reflexivity.
Qed.

(** The loop that reads the points of a polygon. *)
Lemma step_points {A : Type} (k : list Vec2 -> Image.M A) (i : Image.t)
      (out : list diagnostic) (pts : list Vec2) :
  forall (acc : list Vec2) (t word : string),
    Forall vec_ok pts -> blank_first t ->
    Image.bind (Image.read_points (length pts) acc) k
      (Image.mkState i out (Stream.mk (points_text pts t) false false) word)
    = k (acc ++ map round2_vec pts)
        (Image.mkState i out (Stream.mk t false false)
                       (points_word pts word)).
Proof.
  induction pts as [|p pts IH]; intros acc t word Hok Ht.
  - cbn [length Image.read_points map points_text fold_right points_word
         fold_left].
    rewrite app_nil_r. reflexivity.
  - inversion Hok as [|p' pts' Hp Hpts]; subst.
    cbn [length Image.read_points map points_text fold_right points_word
         fold_left].
    unfold Image.bind at 1.
    rewrite (step_vec _ _ _ _ _ _ Hp)
      by (apply blank_points_text; exact Ht).
    fold (points_text pts t).
    specialize (IH (acc ++ [round2_vec p]) t (to_string_float (y p)) Hpts Ht).
    unfold Image.bind at 1 in IH.
    unfold round2_vec at 1 in IH.
    destruct (Image.read_points (length pts)
                (acc ++ [{| x := round2 (x p); y := round2 (y p) |}])
                _) as [st' [pts'| | |]] eqn:Hrun;
      rewrite IH; rewrite <- app_assoc; reflexivity.
Qed.

Lemma case_POLYGON_text (i : Image.t) (out : list diagnostic) (p : Polygon.t)
      (t word : string) :
  shape_ok (Shape.OfPolygon p) ->
  Image.origin i = point 0 0 ->
  blank_first t ->
  Image.case_POLYGON
    (Image.mkState i out
       (Stream.mk (polygon_fields p t) false false) word)
  = (Image.mkState
       (Image.set_components
          (Image.components i ++ [round2_shape (Shape.OfPolygon p)]) i)
       out (Stream.mk t false false)
       (to_string_int (b (Polygon.m_color p))), Ok tt).
Proof.
  intros (Hty & Hcol & Hpts & Hlen) Ho Ht.
  unfold Image.case_POLYGON, Image.try_catch, polygon_fields.
  assert (Hn : int_ok (Z.of_nat (length (Polygon.m_points p)))).
  { unfold int_ok, INT_MIN. lia. }
  rewrite (step_stoi _ _ _ _ _ _ Hn) by auto with blank.
  rewrite Nat2Z.id.
  rewrite (step_points _ _ _ _ _ _ _ Hpts) by auto with blank.
  rewrite (step_color _ _ _ _ _ _ Hcol Ht).
  unfold Image.do_add_component, Image.modify.
  cbn [Image.this Image.cout Image.buf Image.word app].
  rewrite (add_component_at_zero _ _ Ho).
  unfold round2_shape, Polygon.new. rewrite Hty. reflexivity.
Qed.

(** One turn of the loop on the text of a shape: the keyword is read, and
    the case it selects stores the shape. *)
Lemma dispatch_shape_text (i : Image.t) (out : list diagnostic) (s : Shape.t)
      (t word : string) :
  shape_ok s ->
  Image.origin i = point 0 0 ->
  blank_first t ->
  exists st1 word',
    Image.read_word
      (Image.mkState i out (Stream.mk (shape_text s t) false false) word)
    = (st1, Ok tt)
    /\ Stream.to_bool (Image.buf st1) = true
    /\ Image.dispatch st1
       = (Image.mkState
            (Image.set_components (Image.components i ++ [round2_shape s]) i)
            out (Stream.mk t false false) word', Ok tt).
Proof.
  intros Hok Ho Ht.
  destruct s as [c|p|l|e|im]; [| | | |destruct Hok];
    eexists; eexists; unfold shape_text.
  - rewrite read_word_token;
      [|split; [discriminate | reflexivity]
       |unfold circle_fields; auto with blank].
    split; [reflexivity | split; [reflexivity |]].
    unfold Image.dispatch. cbn [Image.word].
    change (Derivedtype_value (ShapeStringToEnum "circle")) with 0.
    cbn [Derivedtype_value Z.eqb].
    apply case_CIRCLE_text; assumption.
  - rewrite read_word_token;
      [|split; [discriminate | reflexivity]
       |unfold polygon_fields; auto with blank].
    split; [reflexivity | split; [reflexivity |]].
    unfold Image.dispatch. cbn [Image.word].
    change (Derivedtype_value (ShapeStringToEnum "polygon")) with 1.
    cbn [Derivedtype_value Z.eqb Pos.eqb].
    apply case_POLYGON_text; assumption.
  - rewrite read_word_token;
      [|split; [discriminate | reflexivity]
       |unfold line_fields; auto with blank].
    split; [reflexivity | split; [reflexivity |]].
    unfold Image.dispatch. cbn [Image.word].
    change (Derivedtype_value (ShapeStringToEnum "line")) with 2.
    cbn [Derivedtype_value Z.eqb Pos.eqb].
    apply case_LINE_text; assumption.
  - rewrite read_word_token;
      [|split; [discriminate | reflexivity]
       |unfold ellipse_fields; auto with blank].
    split; [reflexivity | split; [reflexivity |]].
    unfold Image.dispatch. cbn [Image.word].
    change (Derivedtype_value (ShapeStringToEnum "ellipse")) with 3.
    cbn [Derivedtype_value Z.eqb Pos.eqb].
    apply case_ELLIPSE_text; assumption.
Qed.

Lemma read_word_progress (st st1 : Image.state) (u : result unit) :
  Image.read_word st = (st1, u) ->
  Stream.to_bool (Image.buf st1) = true ->
  (remaining st1 < remaining st)%nat.
Proof.
  destruct st as [i out b w]. unfold Image.read_word, Image.modify.
  cbn [Image.this Image.cout Image.buf Image.word].
  pose proof (extract_progress b w) as Hlt.
  destruct (Stream.extract b w) as [b1 w1].
  intros Heq Hok. injection Heq as <- _. cbn [Image.buf fst] in *.
  specialize (Hlt Hok). unfold remaining. cbn [Image.buf]. exact Hlt.
Qed.

Lemma set_components_app (i : Image.t) (l1 l2 : list Shape.t) :
  Image.set_components
    (Image.components (Image.set_components l1 i) ++ l2)
    (Image.set_components l1 i)
  = Image.set_components (l1 ++ l2) i.
Proof. destruct i. reflexivity. Qed.

(** The loop on the text of a list of shapes followed by [tail]: when it
    reaches [tail], the shapes are stored, rounded, after the components
    that were there. *)
Lemma parse_loop_shapes (cs : list Shape.t) :
  forall (old : list Shape.t) (i : Image.t) (out : list diagnostic)
         (word tail : string) (fuel : nat),
    Forall shape_ok cs ->
    Image.origin i = point 0 0 ->
    blank_first tail ->
    (String.length (fold_right shape_text tail cs) <= fuel)%nat ->
    exists word',
      Image.parse_loop fuel
        (Image.mkState (Image.set_components old i) out
           (Stream.mk (fold_right shape_text tail cs) false false) word)
      = Image.parse_loop (String.length tail)
          (Image.mkState
             (Image.set_components (old ++ map round2_shape cs) i) out
             (Stream.mk tail false false) word').
Proof.
  induction cs as [|s cs IH]; intros old i out word tail fuel Hok Ho Ht Hfuel.
  - exists word. cbn [fold_right map] in *. rewrite app_nil_r.
    replace fuel with (String.length tail + (fuel - String.length tail))%nat
      by lia.
    apply parse_loop_fuel. unfold remaining. cbn [Image.buf Stream.rest]. lia.
  - inversion Hok as [|s' cs' Hs Hcs]; subst.
    cbn [fold_right map] in *.
    set (t := fold_right shape_text tail cs) in *.
    assert (Hbt : blank_first t).
    { unfold t. destruct cs as [|s2 cs2]; [exact Ht |].
      inversion Hcs as [|? ? Hs2 _]; subst. cbn [fold_right].
      destruct s2; try (eexists; reflexivity). destruct Hs2. }
    assert (Ho' : Image.origin (Image.set_components old i) = point 0 0).
    { destruct i. exact Ho. }
    destruct (dispatch_shape_text (Image.set_components old i) out s t word
                                  Hs Ho' Hbt)
      as (st1 & word1 & Hread & Hgood & Hdisp).
    pose proof (read_word_progress _ _ _ Hread Hgood) as Hlt.
    pose proof (steady_dispatch st1) as Hsteady.
    rewrite Hdisp in Hsteady. cbn [fst] in Hsteady.
    unfold remaining in Hlt, Hsteady. cbn [Image.buf Stream.rest] in Hlt, Hsteady.
    destruct fuel as [|fuel]; [lia |].
    cbn [Image.parse_loop]. rewrite Hread, Hgood.
    unfold Image.bind. rewrite Hdisp.
    rewrite set_components_app.
    destruct (IH (old ++ [round2_shape s]) i out word1 tail fuel Hcs Ho Ht)
      as [word' Hrun]; [fold t; lia |].
    exists word'. fold t in Hrun. rewrite Hrun.
    rewrite <- app_assoc. reflexivity.
Qed.

(** ** Reading the annotation clause *)

Lemma getline_loop_all (a : string) :
  forall (room : nat) (stored : string) (consumed : nat),
    string_forall
      (fun c => negb (Ascii.eqb c "010") && negb (Ascii.eqb c "000")) a
    = true ->
    (String.length a <= room)%nat ->
    Stream.getline_loop room a stored consumed
    = ((stored ++ a)%string, (consumed + String.length a)%nat,
       Stream.mk EmptyString true false).
Proof.
  induction a as [|c a IH]; intros room stored consumed Hall Hroom.
  - cbn [Stream.getline_loop String.length].
    rewrite append_nil_r, Nat.add_0_r. reflexivity.
  - cbn [string_forall] in Hall.
    apply andb_prop in Hall as [Hc Hall].
    apply andb_prop in Hc as [Hnl _]. apply negb_true_iff in Hnl.
    cbn [Stream.getline_loop String.length] in *. rewrite Hnl.
    destruct room as [|room]; [lia |].
    rewrite (IH room _ _ Hall) by lia.
    rewrite append_assoc. cbn [append]. do 2 f_equal. lia.
Qed.

Lemma c_str_all (a : string) :
  string_forall
    (fun c => negb (Ascii.eqb c "010") && negb (Ascii.eqb c "000")) a
  = true ->
  Stream.c_str a = a.
Proof.
  induction a as [|c a IH]; intros Hall; [reflexivity |].
  cbn [string_forall] in Hall.
  apply andb_prop in Hall as [Hc Hall].
  apply andb_prop in Hc as [_ Hnul]. apply negb_true_iff in Hnul.
  cbn [Stream.c_str]. rewrite Hnul, (IH Hall). reflexivity.
Qed.

(** The loop on the annotation clause that ends the text of an image: the
    annotation stored is the text with the blank that precedes it. *)
Lemma parse_loop_annotation (i : Image.t) (out : list diagnostic)
      (a word : string) :
  annotation_ok a ->
  Image.parse_loop (String.length (annotation_text a))
    (Image.mkState i out (Stream.mk (annotation_text a) false false) word)
  = (Image.mkState (Image.annotate (String " " a) i) out
       (Stream.mk EmptyString true true)
       (to_string_int (Z.of_nat (String.length a))), Ok tt).
Proof.
  intros [Hlen Hall].
  set (n := Z.of_nat (String.length a)).
  assert (Hn : int_ok n) by (unfold int_ok, INT_MIN, INT_MAX, n; lia).
  unfold annotation_text. fold n.
  cbn [String.length Image.parse_loop].
  rewrite read_word_token;
    [|split; [discriminate | reflexivity] | eexists; reflexivity].
  cbn [Image.buf Stream.to_bool Stream.failbit negb].
  unfold Image.bind at 1. unfold Image.dispatch. cbn [Image.word].
  change (Derivedtype_value (ShapeStringToEnum "annotation")) with 5.
  cbn [Derivedtype_value Functions_value Z.eqb Pos.eqb].
  unfold Image.case_UNKNOWN.
  rewrite (step_stoi _ _ _ _ _ _ Hn) by auto with blank.
  unfold Image.bind at 1. unfold Image.read_annotation.
  cbn [Image.buf Image.this Image.cout Image.word].
  destruct (Z.ltb_spec INT_MAX (n + 2)) as [Hbig|_];
    [unfold INT_MAX, n in Hbig; lia |].
  unfold Stream.getline.
  destruct (Z.leb_spec (n + 2) 0) as [Hsmall|_]; [unfold n in Hsmall; lia |].
  cbn [Stream.good Stream.eofbit Stream.failbit Stream.rest negb andb].
  replace (Z.to_nat (n + 2 - 1)) with (S (String.length a))
    by (unfold n; lia).
  cbn [Stream.getline_loop].
  change (Ascii.eqb " " "010") with false. cbv iota.
  rewrite (getline_loop_all a _ _ _ Hall) by lia.
  cbn [append Nat.add String.length].
  destruct (Z.leb_spec 1024 (Z.of_nat (S (String.length a)))) as [Hover|_];
    [lia |].
  assert (Hcstr : Stream.c_str (String " " a) = String " " a).
  { cbn [Stream.c_str]. change (Ascii.eqb " " "000") with false.
    cbv iota. rewrite (c_str_all a Hall). reflexivity. }
  rewrite Hcstr. unfold Image.modify.
  cbn [Image.buf Image.this Image.cout Image.word].
  destruct (String.length _) as [|fuel]; reflexivity.
Qed.

(** ** Serialization, then deserialization *)

(** The text that [serialize] writes for an image of circles, polygons,
    lines and ellipses, read by [deserialize] into a fresh image: the
    call returns, nothing is written to [std::cout], the components come
    back in order with their floats rounded to two decimals, and the
    annotation comes back with a blank in front. *)
Theorem serialize_then_deserialize (img : Image.t) :
  Forall shape_ok (Image.components img) ->
  annotation_ok (Image.get_annotation img) ->
  let r := Image.deserialize (Image.serialize EmptyString img) fresh [] in
  snd r = Ok tt
  /\ Image.cout (fst r) = []
  /\ Image.components (Image.this (fst r))
     = map round2_shape (Image.components img)
  /\ Image.get_annotation (Image.this (fst r))
     = String " " (Image.get_annotation img).
Proof.
  intros Hshapes Hann. cbv zeta.
  unfold Image.deserialize, Stream.new. rewrite Image_serialize_text.
  destruct (parse_loop_shapes (Image.components img) [] fresh []
              EmptyString (annotation_text (Image.get_annotation img))
              (String.length
                 (fold_right shape_text
                    (annotation_text (Image.get_annotation img))
                    (Image.components img))))
    as [word Hrun]; auto with blank.
  rewrite Hrun, (parse_loop_annotation _ _ _ _ Hann).
  repeat split.
Qed.

Lemma map_fixed {A : Type} (f : A -> A) (l : list A) :
  Forall (fun a => f a = a) l -> map f l = l.
Proof.
  induction 1 as [|a l Ha _ IH]; cbn [map]; [reflexivity | congruence].
Qed.

(** When every float of the image has two decimals already, the
    components come back as they were. *)
Corollary serialize_then_deserialize_exact (img : Image.t) :
  Forall shape_ok (Image.components img) ->
  Forall (fun s => round2_shape s = s) (Image.components img) ->
  annotation_ok (Image.get_annotation img) ->
  Image.components
    (Image.this
       (fst (Image.deserialize (Image.serialize EmptyString img) fresh [])))
  = Image.components img.
Proof.
  intros Hshapes Hexact Hann.
  destruct (serialize_then_deserialize img Hshapes Hann) as (_ & _ & Hcs & _).
  rewrite Hcs. apply map_fixed. exact Hexact.
Qed.

(** The image [four_shapes] is within the limits of the theorem, and its
    floats have two decimals. *)
Lemma four_shapes_ok :
  Forall shape_ok (Image.components four_shapes)
  /\ Forall (fun s => round2_shape s = s) (Image.components four_shapes)
  /\ annotation_ok (Image.get_annotation four_shapes).
Proof.
  split; [|split].
  - repeat constructor; try (vm_compute; discriminate).
  - repeat constructor; float_eq.
  - split; [vm_compute; lia | reflexivity].
Qed.

Example four_shapes_components_back :
  Image.components
    (Image.this
       (fst (Image.deserialize (Image.serialize EmptyString four_shapes)
                               fresh [])))
  = Image.components four_shapes.
Proof.
  destruct four_shapes_ok as (Hok & Hexact & Hann).
  apply serialize_then_deserialize_exact; assumption.
Qed.

(** C1, at an image with one shape of each kind and the annotation [hi]:
    the text written by [serialize] is read back by [deserialize] into the
    same components, and into the annotation [ hi], with the blank that
    separates the length from the text in front. *)
Theorem C1_annotation_gains_a_blank :
  let text := Image.serialize EmptyString four_shapes in
  let r := Image.deserialize text fresh [] in
  text = (" circle 4.00 3.00 0.25 255 0 0"
          ++ " polygon 3 5.00 2.00 5.50 2.00 5.00 3.00 0 0 255"
          ++ " line 4.00 3.00 -1.25 1.00 255 128 50"
          ++ " ellipse 6.00 5.00 10.00 0.50 0 255 0"
          ++ " annotation 2 hi")%string
  /\ snd r = Ok tt
  /\ Image.components (Image.this (fst r)) = Image.components four_shapes
  /\ Image.get_annotation four_shapes = "hi"%string
  /\ Image.get_annotation (Image.this (fst r)) = " hi"%string.
Proof.
  cbv zeta. repeat split; try float_eq.
Qed.

(** * Further properties *)

(** ** Maps over the components *)

Lemma map_ext_nested {A B : Type} (f g : A -> B) (l : list A) :
  Forall (fun a => f a = g a) l -> map f l = map g l.
Proof.
  induction 1 as [|a l Ha _ IH]; cbn [map]; [reflexivity | congruence].
Qed.

Lemma map_id_nested {A : Type} (f : A -> A) (l : list A) :
  Forall (fun a => f a = a) l -> map f l = l.
Proof.
  induction 1 as [|a l Ha _ IH]; cbn [map]; [reflexivity | congruence].
Qed.

(** ** Rotation about the point of the line itself *)

(** X6: [Line::rotate(p, angle)] with [p] bound to the line's own
    [point()]: the second end is turned about the point first, in locals;
    then the point is moved, and since [p] is the point it ends as a zero
    or a NaN in both coordinates; the direction stored is the turned end
    minus that.  [rotate(angle)] turns the same end and leaves the point
    where it is. *)
Theorem Line_rotate_about_own_point
  (T : Binary32.Trig) (angle : SpecFloat.spec_float) (l : Binary32.Line.t) :
  let l' := Binary32.Line.rotate (Binary32.Member 0) angle l in
  let l'' := Binary32.Line.rotate_own angle l in
  let e :=
    turned (Binary32.fast_sin angle) (Binary32.fast_cos angle)
           (Binary32.Line.m_point l)
           (Binary32.vadd (Binary32.Line.m_point l)
                          (Binary32.Line.m_direction l)) in
  zero_or_nan (Binary32.x (Binary32.Line.m_point l')) = true
  /\ zero_or_nan (Binary32.y (Binary32.Line.m_point l')) = true
  /\ Binary32.Line.m_direction l'
     = Binary32.vsub e (Binary32.Line.m_point l')
  /\ Binary32.Line.m_point l'' = Binary32.Line.m_point l
  /\ Binary32.Line.m_direction l''
     = Binary32.vsub e (Binary32.Line.m_point l).
Proof.
  destruct l as [ty col [px py] [dx dy]]. cbv zeta.
  unfold Binary32.Line.rotate, Binary32.Line.rotate_own,
    Binary32.Line.set_point_x, Binary32.Line.set_point_y,
    Binary32.Line.set_point, Binary32.Line.set_direction,
    Binary32.Line.read, turned.
  cbn [Binary32.Line.m_point Binary32.Line.m_direction
       Binary32.Line.m_type Binary32.Line.m_color
       Binary32.x Binary32.y Binary32.vadd].
  pose proof (fsub_self px) as Hx. pose proof (fsub_self py) as Hy.
  split; [|split; [|repeat split]].
  - apply fadd_zero_or_nan; [|exact Hx].
    apply fsub_zero_or_nan; apply fmul_zero_or_nan; assumption.
  - apply fadd_zero_or_nan; [|exact Hy].
    apply fadd_zero_or_nan; apply fmul_zero_or_nan; assumption.
Qed.

(** ** Bounding boxes: truncation and the order of the bounds *)

Lemma to_int_of_int (z : Z) : to_int (of_int z) = z.
Proof.
  unfold to_int, of_int. cbn [this Q2Qc].
  rewrite (Qred_identity (inject_Z z)) by (cbn; apply Z.gcd_1_r).
  cbn. apply Z.quot_1_r.
Qed.

Lemma to_int_mono (a b : float) : (a <= b)%Qc -> (to_int a <= to_int b)%Z.
Proof.
  unfold Qcle, Qle, to_int.
  destruct (this a) as [n1 d1], (this b) as [n2 d2]. cbn [Qnum Qden].
  intros Hle.
  rewrite <- (Z.quot_mul_cancel_r n1 (Zpos d1) (Zpos d2)) by lia.
  rewrite <- (Z.quot_mul_cancel_r n2 (Zpos d2) (Zpos d1)) by lia.
  rewrite (Z.mul_comm (Zpos d2) (Zpos d1)).
  apply Z.quot_le_mono; lia.
Qed.

Lemma fltb_lt (a b : float) : fltb a b = true <-> (a < b)%Qc.
Proof.
  unfold fltb, Qclt, Qccompare, Qlt.
  rewrite <- Z.compare_lt_iff. unfold Qcompare.
  destruct (_ ?= _)%Z; split; intros H; congruence.
Qed.

Lemma fltb_ge (a b : float) : fltb a b = false <-> (b <= a)%Qc.
Proof.
  split.
  - intros H. apply Qcnot_lt_le. intros Hlt. apply fltb_lt in Hlt. congruence.
  - intros H. destruct (fltb a b) eqn:E; [|reflexivity].
    apply fltb_lt in E. apply Qcle_not_lt in H. contradiction.
Qed.

(** A float compared with an [int] bound, then truncated: the bound
    becomes the smaller (or the larger) of the two integers. *)
Lemma lower_bound_step (v : float) (m : Z) :
  (if fltb v (of_int m) then to_int v else m) = Z.min m (to_int v).
Proof.
  destruct (fltb v (of_int m)) eqn:E.
  - apply fltb_lt in E. apply Qclt_le_weak, to_int_mono in E.
    rewrite to_int_of_int in E. lia.
  - apply fltb_ge, to_int_mono in E. rewrite to_int_of_int in E. lia.
Qed.

Lemma upper_bound_step (v : float) (m : Z) :
  (if fltb (of_int m) v then to_int v else m) = Z.max m (to_int v).
Proof.
  destruct (fltb (of_int m) v) eqn:E.
  - apply fltb_lt in E. apply Qclt_le_weak, to_int_mono in E.
    rewrite to_int_of_int in E. lia.
  - apply fltb_ge, to_int_mono in E. rewrite to_int_of_int in E. lia.
Qed.

Ltac box_fields :=
  cbn [set_x_min set_x_max set_y_min set_y_max x_max x_min y_max y_min].

Lemma Polygon_bounding_box_step_bounds (bb : BoundingBox) (m : Vec2) :
  Polygon.bounding_box_step bb m
  = mkBB (Z.max (x_max bb) (to_int (x m))) (Z.min (x_min bb) (to_int (x m)))
         (Z.max (y_max bb) (to_int (y m))) (Z.min (y_min bb) (to_int (y m))).
Proof.
  rewrite <- !lower_bound_step, <- !upper_bound_step.
  unfold Polygon.bounding_box_step. destruct bb as [xM xm yM ym].
  cbv zeta. box_fields.
  destruct (fltb (x m) (of_int xm)); box_fields;
    destruct (fltb (of_int xM) (x m)); box_fields;
    destruct (fltb (y m) (of_int ym)); box_fields;
    destruct (fltb (of_int yM) (y m)); reflexivity.
Qed.

Lemma Polygon_bounding_box_fold (pts : list Vec2) (bb : BoundingBox) :
  fold_left Polygon.bounding_box_step pts bb
  = mkBB (fold_left Z.max (map (fun m => to_int (x m)) pts) (x_max bb))
         (fold_left Z.min (map (fun m => to_int (x m)) pts) (x_min bb))
         (fold_left Z.max (map (fun m => to_int (y m)) pts) (y_max bb))
         (fold_left Z.min (map (fun m => to_int (y m)) pts) (y_min bb)).
Proof.
  revert bb. induction pts as [|m pts IH]; intros bb.
  - destruct bb; reflexivity.
  - cbn [fold_left map]. rewrite IH, Polygon_bounding_box_step_bounds.
    reflexivity.
Qed.

Lemma fold_max_ge (l : list Z) (a : Z) :
  (a <= fold_left Z.max l a)%Z
  /\ forall z, In z l -> (z <= fold_left Z.max l a)%Z.
Proof.
  revert a. induction l as [|h l IH]; intros a; cbn [fold_left].
  - split; [lia | intros z []].
  - destruct (IH (Z.max a h)) as [H1 H2]. split; [lia|].
    intros z [<- | Hin]; [lia | auto].
Qed.

Lemma fold_min_le (l : list Z) (a : Z) :
  (fold_left Z.min l a <= a)%Z
  /\ forall z, In z l -> (fold_left Z.min l a <= z)%Z.
Proof.
  revert a. induction l as [|h l IH]; intros a; cbn [fold_left].
  - split; [lia | intros z []].
  - destruct (IH (Z.min a h)) as [H1 H2]. split; [lia|].
    intros z [<- | Hin]; [lia | auto].
Qed.

(** X9: the loop of [Polygon::bounding_box] compares floats with [int]
    bounds and stores truncated values; all the same each bound is the
    least (or greatest) of the sentinel and the truncated coordinates,
    and the truncation of every vertex lies within the box. *)
Theorem Polygon_bounding_box_truncated (pg : Polygon.t) :
  let bb := Polygon.bounding_box pg in
  let xs := map (fun m => to_int (x m)) (Polygon.m_points pg) in
  let ys := map (fun m => to_int (y m)) (Polygon.m_points pg) in
  bb = mkBB (fold_left Z.max xs (-10000)) (fold_left Z.min xs 10000)
            (fold_left Z.max ys (-10000)) (fold_left Z.min ys 10000)
  /\ forall m, In m (Polygon.m_points pg) ->
               (x_min bb <= to_int (x m) <= x_max bb)%Z
               /\ (y_min bb <= to_int (y m) <= y_max bb)%Z.
Proof.
  cbv zeta. unfold Polygon.bounding_box.
  rewrite Polygon_bounding_box_fold. cbn [x_max x_min y_max y_min
                                          BoundingBox_new].
  split; [reflexivity|]. intros m Hin.
  pose proof (in_map (fun m => to_int (x m)) _ _ Hin) as Hx.
  pose proof (in_map (fun m => to_int (y m)) _ _ Hin) as Hy.
  cbv beta in Hx, Hy.
  repeat split;
    first [apply fold_min_le | apply fold_max_ge]; assumption.
Qed.

(** X10: with a radius that is not negative, the box of a circle is not
    inverted and holds the truncated centre; the same for an ellipse and
    its two radii. *)
Theorem round_bounding_box_ordered :
  (forall c : Circle.t,
      (of_int 0 <= Circle.m_radius c)%Qc ->
      let bb := Circle.bounding_box c in
      (x_min bb <= to_int (x (Circle.m_origin c)) <= x_max bb)%Z
      /\ (y_min bb <= to_int (y (Circle.m_origin c)) <= y_max bb)%Z)
  /\ (forall e : Ellipse.t,
         (of_int 0 <= x (Ellipse.m_radius e))%Qc ->
         (of_int 0 <= y (Ellipse.m_radius e))%Qc ->
         let bb := Ellipse.bounding_box e in
         (x_min bb <= to_int (x (Ellipse.m_origin e)) <= x_max bb)%Z
         /\ (y_min bb <= to_int (y (Ellipse.m_origin e)) <= y_max bb)%Z).
Proof.
  assert (Hlo : forall a k : Qc, (of_int 0 <= k)%Qc -> (a - k <= a)%Qc).
  { intros a k Hk. rewrite of_int_0 in Hk.
    apply Qcle_minus_iff. replace (a + - (a - k))%Qc with k by ring.
    exact Hk. }
  assert (Hhi : forall a k : Qc, (of_int 0 <= k)%Qc -> (a <= a + k)%Qc).
  { intros a k Hk. rewrite of_int_0 in Hk.
    apply Qcle_minus_iff. replace (a + k + - a)%Qc with k by ring.
    exact Hk. }
  split.
  - intros [ty col [ox oy] rad] Hr. cbv zeta.
    unfold Circle.bounding_box.
    cbn [Circle.m_origin Circle.m_radius x y x_max x_min y_max y_min
         set_x_min set_x_max set_y_min set_y_max BoundingBox_new] in *.
    unfold fadd, fsub.
    repeat split; apply to_int_mono; auto.
  - intros [ty col [ox oy] [rx ry]] Hx Hy. cbv zeta.
    unfold Ellipse.bounding_box.
    cbn [Ellipse.m_origin Ellipse.m_radius x y x_max x_min y_max y_min
         set_x_min set_x_max set_y_min set_y_max BoundingBox_new] in *.
    unfold fadd, fsub.
    repeat split; apply to_int_mono; auto.
Qed.

Lemma round_bounding_box_ordered_witness :
  let c := Circle.new (point 3 4) (of_int 2) (mkColor 255 0 0) in
  (of_int 0 <= Circle.m_radius c)%Qc
  /\ Circle.bounding_box c = mkBB 5 1 6 2
  /\ (x_min (Circle.bounding_box c) <= to_int (x (Circle.m_origin c))
      <= x_max (Circle.bounding_box c))%Z.
Proof.
  intros c.
  assert (Hr : (of_int 0 <= Circle.m_radius c)%Qc)
    by (vm_compute; discriminate).
  split; [exact Hr | split; [reflexivity |]].
  destruct round_bounding_box_ordered as [Hc _].
  exact (proj1 (Hc c Hr)).
Defined.

Lemma Image_bounding_box_step_bounds (bb_ bb : BoundingBox) :
  Shape.Image_bounding_box_step bb_ bb
  = mkBB (Z.max (x_max bb_) (x_max bb)) (Z.min (x_min bb_) (x_min bb))
         (Z.max (y_max bb_) (y_max bb)) (Z.min (y_min bb_) (y_min bb)).
Proof.
  unfold Shape.Image_bounding_box_step. destruct bb_ as [xM xm yM ym].
  cbn [x_max x_min y_max y_min].
  cbv zeta. box_fields.
  destruct (Z.ltb_spec xM (x_max bb)); box_fields;
    destruct (Z.ltb_spec (x_min bb) xm); box_fields;
    destruct (Z.ltb_spec yM (y_max bb)); box_fields;
    destruct (Z.ltb_spec (y_min bb) ym);
    unfold set_x_min, set_x_max, set_y_min, set_y_max;
    cbn [x_max x_min y_max y_min]; f_equal; lia.
Qed.

Lemma Image_bounding_box_fold (bbs : list BoundingBox) (bb_ : BoundingBox) :
  fold_left Shape.Image_bounding_box_step bbs bb_
  = mkBB (fold_left Z.max (map x_max bbs) (x_max bb_))
         (fold_left Z.min (map x_min bbs) (x_min bb_))
         (fold_left Z.max (map y_max bbs) (y_max bb_))
         (fold_left Z.min (map y_min bbs) (y_min bb_)).
Proof.
  revert bb_. induction bbs as [|bb bbs IH]; intros bb_.
  - destruct bb_; reflexivity.
  - cbn [fold_left map]. rewrite IH, Image_bounding_box_step_bounds.
    reflexivity.
Qed.

Lemma fold_max_app (l : list Z) (a z : Z) :
  fold_left Z.max (l ++ [z]) a = Z.max (fold_left Z.max l a) z.
Proof. rewrite fold_left_app. reflexivity. Qed.

Lemma fold_min_app (l : list Z) (a z : Z) :
  fold_left Z.min (l ++ [z]) a = Z.min (fold_left Z.min l a) z.
Proof. rewrite fold_left_app. reflexivity. Qed.

(** X11: the box of an image contains the box of each of its components,
    and [add_component] only makes it grow: the new box is the old one
    widened to the box of the added shape, moved by the origin. *)
Theorem Image_bounding_box_contains (i : Image.t) :
  let bb := Image.bounding_box i in
  (forall c, In c (Image.components i) ->
             let cb := Shape.bounding_box c in
             (x_min bb <= x_min cb)%Z /\ (x_max cb <= x_max bb)%Z
             /\ (y_min bb <= y_min cb)%Z /\ (y_max cb <= y_max bb)%Z)
  /\ forall s,
      let sb := Shape.bounding_box (Shape.translate (Image.origin i) s) in
      Image.bounding_box (Image.add_component s i)
      = mkBB (Z.max (x_max bb) (x_max sb)) (Z.min (x_min bb) (x_min sb))
             (Z.max (y_max bb) (y_max sb)) (Z.min (y_min bb) (y_min sb)).
Proof.
  destruct i as [ty col cs an o]. cbv zeta.
  unfold Image.bounding_box, Image.add_component, Image.set_components.
  cbn [Image.components Image.origin Shape.Image_bounding_box
       Shape.Image_type Shape.Image_color Image.get_annotation].
  split.
  - rewrite Image_bounding_box_fold.
    cbn [x_max x_min y_max y_min BoundingBox_new].
    intros c Hin. apply (in_map Shape.bounding_box) in Hin.
    pose proof (in_map x_max _ _ Hin). pose proof (in_map x_min _ _ Hin).
    pose proof (in_map y_max _ _ Hin). pose proof (in_map y_min _ _ Hin).
    repeat split;
      first [apply fold_min_le | apply fold_max_ge]; assumption.
  - intros s. rewrite !Image_bounding_box_fold, !map_app.
    cbn [map]. rewrite !fold_max_app, !fold_min_app. reflexivity.
Qed.

(** ** The origin of an image *)

(** X14: none of the seven transforms changes the annotation or the
    origin of an image, at any depth, or the number of shapes in it: the
    call is passed to the components one by one, and [translate] does not
    move the origin that [add_component] uses. *)
Theorem transform_frame (P : Params) (t : transform) (s : Shape.t) :
  labels (apply_transform t s) = labels s
  /\ leaves (apply_transform t s) = leaves s
  /\ forall i : Image.t,
      exists i' : Image.t,
        apply_transform t (Shape.OfImage i) = Shape.OfImage i'
        /\ Image.origin i' = Image.origin i
        /\ length (Image.components i') = length (Image.components i).
Proof.
  split; [|split].
  - induction s as [c|p|l|e|ty col cs a o IH] using Shape_ind_nested;
      try (destruct t; reflexivity).
    destruct t; cbn; do 2 f_equal; rewrite map_map;
      apply map_ext_nested; exact IH.
  - induction s as [c|p|l|e|ty col cs a o IH] using Shape_ind_nested;
      try (destruct t; reflexivity).
    destruct t; cbn; f_equal; rewrite map_map;
      apply map_ext_nested; exact IH.
  - intros [ty col cs an o].
    destruct t; cbn; eexists; (split; [reflexivity |]);
      cbn [Image.origin Image.components]; rewrite length_map; auto.
Qed.

(** ** Deserialization: what a record may change *)

Create HintDb quiet.

Lemma quiet_ret {A : Type} (a : A) : quiet (Image.ret a).
Proof. intros st. split; reflexivity. Qed.

Lemma quiet_lift {A : Type} (f : Image.state -> result A) :
  quiet (Image.lift f).
Proof. intros st. split; reflexivity. Qed.

Lemma quiet_bind {A B : Type} (m : Image.M A) (k : A -> Image.M B) :
  quiet m -> (forall a, quiet (k a)) -> quiet (Image.bind m k).
Proof.
  intros Hm Hk st. unfold Image.bind. destruct (Hm st) as [H1 H2].
  destruct (m st) as [st' [a|e| |]]; cbn [fst] in *; try (split; assumption).
  destruct (Hk a st') as [H3 H4]. split; congruence.
Qed.

Lemma quiet_read_word : quiet Image.read_word.
Proof.
  intros [i out b w]. unfold Image.read_word, Image.modify.
  cbn [Image.this Image.cout Image.buf Image.word fst].
  destruct (Stream.extract b w). split; reflexivity.
Qed.

Lemma quiet_word_stof : quiet Image.word_stof.
Proof. apply quiet_lift. Qed.

Lemma quiet_word_stoi : quiet Image.word_stoi.
Proof. apply quiet_lift. Qed.

#[local] Hint Resolve quiet_ret quiet_lift quiet_bind quiet_read_word
  quiet_word_stof quiet_word_stoi : quiet.

Lemma quiet_read_color : quiet Image.read_color.
Proof. unfold Image.read_color. auto 20 with quiet. Qed.

Lemma quiet_read_points (n : nat) (points : list Vec2) :
  quiet (Image.read_points n points).
Proof.
  revert points. induction n as [|n IH]; intros points;
    cbn [Image.read_points]; auto 20 with quiet.
Qed.

Lemma quiet_read_annotation (n : Z) : quiet (Image.read_annotation n).
Proof.
  intros [i out b w]. unfold Image.read_annotation.
  cbn [Image.this Image.cout Image.buf Image.word].
  destruct (INT_MAX <? n + 2); [split; reflexivity |].
  destruct (Stream.getline b (n + 2)). split; reflexivity.
Qed.

#[local] Hint Resolve quiet_read_color quiet_read_points
  quiet_read_annotation : quiet.

Lemma adds_one_bind {A : Type} (ty : Derivedtype)
      (m : Image.M A) (k : A -> Image.M unit) :
  quiet m -> (forall a, adds_one ty (k a)) -> adds_one ty (Image.bind m k).
Proof.
  intros Hm Hk st. unfold Image.bind. destruct (Hm st) as [H1 H2].
  destruct (m st) as [st' [a|e| |]]; cbn [fst snd] in *;
    try (split; assumption).
  destruct (Hk a st') as [H3 H4]. rewrite H1, H2 in *.
  split; assumption.
Qed.

Lemma adds_one_do_add_component (s : Shape.t) :
  leaf s = true -> adds_one (Shape.type s) (Image.do_add_component s).
Proof.
  intros Hs st. unfold Image.do_add_component, Image.modify.
  cbn [fst snd Image.this Image.cout]. split; [reflexivity |].
  exists s. auto.
Qed.

#[local] Hint Resolve adds_one_bind : quiet.

Lemma all_or_nothing_try (ty : Derivedtype) (body : Image.M unit) :
  adds_one ty body ->
  all_or_nothing ty (Image.try_catch body Image.log_bad_format).
Proof.
  intros Hb st. unfold Image.try_catch. destruct (Hb st) as [Hout Hthis].
  destruct (body st) as [st' [[]|e| |]]; cbn [fst snd] in *.
  - left. split; assumption.
  - unfold Image.log_bad_format, Image.modify.
    cbn [fst snd Image.this Image.cout]. right.
    split; [assumption |]. exists e. rewrite Hout. reflexivity.
  - split; assumption.
  - split; assumption.
Qed.

Ltac shape_case :=
  apply all_or_nothing_try;
  repeat (apply adds_one_bind; [auto 20 with quiet | intros ?]);
  match goal with
  | |- adds_one _ (Image.do_add_component ?s) =>
      apply (adds_one_do_add_component s); reflexivity
  end.

(** X15: each of the four shape cases of [deserialize] reads its record
    whole or not at all: it ends with one shape of its own kind added,
    which is no composite, and nothing printed, or with one line printed
    and the image untouched; no exception leaves the case. *)
Theorem shape_cases_all_or_nothing :
  all_or_nothing CIRCLE Image.case_CIRCLE
  /\ all_or_nothing POLYGON Image.case_POLYGON
  /\ all_or_nothing LINE Image.case_LINE
  /\ all_or_nothing ELLIPSE Image.case_ELLIPSE.
Proof.
  repeat split; shape_case.
Qed.

(** ** Deserialization: what the whole loop may change *)

Lemma grows_refl (st : Image.state) : grows st st.
Proof.
  repeat split; [exists [] | exists []]; rewrite app_nil_r; auto.
Qed.

Lemma grows_trans (a b c : Image.state) : grows a b -> grows b c -> grows a c.
Proof.
  intros (Ho & Ht & Hc & (n1 & Hn1 & Hl1) & l1 & Hlog1)
         (Ho' & Ht' & Hc' & (n2 & Hn2 & Hl2) & l2 & Hlog2).
  repeat split; try congruence.
  - exists (n1 ++ n2). rewrite Hn2, Hn1, app_assoc, forallb_app, Hl1, Hl2.
    auto.
  - exists (l1 ++ l2). rewrite Hlog2, Hlog1, app_assoc. reflexivity.
Qed.

Lemma grows_same (st st' : Image.state) :
  Image.this st' = Image.this st -> Image.cout st' = Image.cout st ->
  grows st st'.
Proof.
  intros Hi Ho. unfold grows. rewrite Hi, Ho.
  repeat split; [exists [] | exists []]; rewrite app_nil_r; auto.
Qed.

Lemma grows_add_component (s : Shape.t) (st st' : Image.state) :
  leaf (Shape.translate (Image.origin (Image.this st)) s) = true ->
  Image.this st' = Image.add_component s (Image.this st) ->
  Image.cout st' = Image.cout st ->
  grows st st'.
Proof.
  intros Hs Hi Ho. unfold grows. rewrite Hi, Ho.
  destruct (Image.this st) as [ty col cs an o].
  unfold Image.add_component, Image.set_components in *.
  cbn [Image.origin Image.components Image.get_annotation
       Shape.Image_type Shape.Image_color] in *.
  repeat split.
  - eexists. split; [reflexivity |]. cbn [forallb]. rewrite Hs. reflexivity.
  - exists []. rewrite app_nil_r. reflexivity.
Qed.

Lemma leaf_translate (v : Vec2) (s : Shape.t) :
  leaf (Shape.translate v s) = leaf s.
Proof. destruct s; reflexivity. Qed.

Lemma keeps_quiet {A : Type} (m : Image.M A) : quiet m -> keeps m.
Proof. intros Hm st. destruct (Hm st). apply grows_same; assumption. Qed.

Lemma keeps_bind {A B : Type} (m : Image.M A) (k : A -> Image.M B) :
  keeps m -> (forall a, keeps (k a)) -> keeps (Image.bind m k).
Proof.
  intros Hm Hk st. unfold Image.bind. specialize (Hm st).
  destruct (m st) as [st' [a|e| |]]; cbn [fst] in *; try assumption.
  apply (grows_trans _ st'); [assumption | apply Hk].
Qed.

Lemma keeps_all_or_nothing (ty : Derivedtype) (m : Image.M unit) :
  all_or_nothing ty m -> keeps m.
Proof.
  intros Hm st. specialize (Hm st).
  destruct (m st) as [st' [[]|e| |]]; cbn [fst snd] in *.
  - destruct Hm as [[Hout (s & Hs & _ & Hthis)] | [Hthis (e & Hout)]].
    + apply (grows_add_component s); [|assumption..].
      rewrite leaf_translate. exact Hs.
    + unfold grows. rewrite Hthis, Hout.
      repeat split; [exists []; rewrite app_nil_r; auto | eauto].
  - contradiction.
  - destruct Hm. apply grows_same; assumption.
  - destruct Hm. apply grows_same; assumption.
Qed.

Lemma keeps_case_UNKNOWN : keeps Image.case_UNKNOWN.
Proof.
  unfold Image.case_UNKNOWN.
  repeat (apply keeps_bind; [apply keeps_quiet; auto with quiet | intros ?]).
  intros st. unfold Image.modify. cbn [fst].
  unfold grows. cbn [Image.this Image.cout].
  destruct (Image.this st) as [ty col cs an o].
  repeat split; [exists [] | exists []]; rewrite app_nil_r; auto.
Qed.

Lemma keeps_dispatch : keeps Image.dispatch.
Proof.
  intros st. unfold Image.dispatch.
  repeat match goal with |- context [if ?c then _ else _] => destruct c end.
  - apply (keeps_all_or_nothing CIRCLE). shape_case.
  - apply (keeps_all_or_nothing POLYGON). shape_case.
  - apply (keeps_all_or_nothing LINE). shape_case.
  - apply (keeps_all_or_nothing ELLIPSE). shape_case.
  - apply keeps_case_UNKNOWN.
  - apply grows_refl.
Qed.

Lemma keeps_parse_loop (fuel : nat) : keeps (Image.parse_loop fuel).
Proof.
  induction fuel as [|fuel IH]; intros st; cbn [Image.parse_loop];
    pose proof (keeps_quiet _ quiet_read_word st) as Hread;
    destruct (Image.read_word st) as [st1 r]; cbn [fst] in Hread;
    destruct (Stream.to_bool (Image.buf st1)); cbn [fst]; try assumption.
  apply (grows_trans _ st1); [assumption |].
  apply keeps_bind; [apply keeps_dispatch | intros _; exact IH].
Qed.


(** ** The keyword tables *)

(** X17: [ShapeStringToEnum] gives [END_ENUM] for the words outside the
    table [shapes] and for no other; for a word of the table it gives the
    enumerator whose value is the place of the word; [IMAGE] is never
    given.  [FuncStringToEnum] does the same with [transforms] and
    [UNKNOWN]. *)
Theorem keyword_tables (s : string) :
  (In s shapes <-> ShapeStringToEnum s <> END_ENUM)
  /\ ShapeStringToEnum s <> IMAGE
  /\ (ShapeStringToEnum s <> END_ENUM ->
      nth_error shapes
                (Z.to_nat (Derivedtype_value (ShapeStringToEnum s)))
      = Some s)
  /\ (In s transforms <-> FuncStringToEnum s <> UNKNOWN)
  /\ (FuncStringToEnum s <> UNKNOWN ->
      nth_error transforms
                (Z.to_nat (Functions_value (FuncStringToEnum s)))
      = Some s).
Proof.
  unfold ShapeStringToEnum, FuncStringToEnum, shapes, transforms.
  cbn [ShapeStringToEnum_from FuncStringToEnum_from In
       Derivedtype_of_index Functions_of_index].
  repeat match goal with
         | |- context [String.eqb ?k s] =>
             destruct (String.eqb_spec k s) as [<- | ?]
         end;
    (repeat split; try discriminate; try reflexivity; try congruence;
     try (intros; tauto); try (intros _; tauto);
     try (intros [|[|[|[|[|[]]]]]]; congruence)).
Qed.

(** ** Deserialization: where an exception can come from *)

(** X18: an exception leaves the [switch] of [deserialize] only from its
    last case, which is entered for the words that are none of the four
    keywords; it is the exception of [std::stoi] on the word that follows,
    and the image and the output are as before the [switch]. *)
Theorem dispatch_throw (st : Image.state) (e : exception) :
  snd (Image.dispatch st) = Throw e ->
  ShapeStringToEnum (Image.word st) = END_ENUM
  /\ stoi (Image.word (fst (Image.read_word st))) = Throw e
  /\ Image.this (fst (Image.dispatch st)) = Image.this st
  /\ Image.cout (fst (Image.dispatch st)) = Image.cout st.
Proof.
  unfold Image.dispatch.
  destruct (ShapeStringToEnum (Image.word st)) eqn:Hword;
    cbn [Derivedtype_value Functions_value Z.eqb Pos.eqb];
    intros Hthrow.
  - exfalso. assert (Hcase : all_or_nothing CIRCLE Image.case_CIRCLE)
      by shape_case.
    specialize (Hcase st). rewrite Hthrow in Hcase. exact Hcase.
  - exfalso. assert (Hcase : all_or_nothing POLYGON Image.case_POLYGON)
      by shape_case.
    specialize (Hcase st). rewrite Hthrow in Hcase. exact Hcase.
  - exfalso. assert (Hcase : all_or_nothing LINE Image.case_LINE)
      by shape_case.
    specialize (Hcase st). rewrite Hthrow in Hcase. exact Hcase.
  - exfalso. assert (Hcase : all_or_nothing ELLIPSE Image.case_ELLIPSE)
      by shape_case.
    specialize (Hcase st). rewrite Hthrow in Hcase. exact Hcase.
  - discriminate.
  - split; [reflexivity |]. revert Hthrow.
    unfold Image.case_UNKNOWN, Image.bind, Image.word_stoi, Image.lift.
    destruct (quiet_read_word st) as [Hthis Hout].
    assert (Hok : snd (Image.read_word st) = Ok tt) by reflexivity.
    destruct (Image.read_word st) as [st1 r].
    cbn [fst snd] in *. subst r.
    destruct (stoi (Image.word st1)) as [n|e'| |] eqn:Hstoi;
      cbn [fst snd]; try discriminate.
    + destruct (quiet_read_annotation n st1) as [Hthis' Hout'].
      destruct (Image.read_annotation n st1) as [st2 [txt|e2| |]] eqn:Hann;
        cbn [fst snd] in *; try discriminate.
      exfalso. revert Hann. unfold Image.read_annotation.
      destruct (INT_MAX <? n + 2); [discriminate |].
      unfold Stream.getline.
      destruct (n + 2 <=? 0); [discriminate |].
      destruct (Stream.good (Image.buf st1)); [|discriminate].
      destruct (Stream.getline_loop _ _ _ _) as [[stored consumed] b'].
      destruct (1024 <=? _); discriminate.
    + intros [= ->]. auto.
Qed.

Lemma dispatch_throw_witness :
  snd (Image.dispatch
         (Image.mkState fresh [] (Stream.mk " abc 3" false false) "foo"))
  = Throw invalid_argument
  /\ ShapeStringToEnum "foo" = END_ENUM
  /\ stoi "abc" = Throw invalid_argument.
Proof.
  assert (Hthrow :
            snd (Image.dispatch
                   (Image.mkState fresh []
                                  (Stream.mk " abc 3" false false) "foo"))
            = Throw invalid_argument) by reflexivity.
  split; [exact Hthrow |].
  destruct (dispatch_throw _ _ Hthrow) as (Hword & Hstoi & _).
  split; [exact Hword | exact Hstoi].
Defined.

(** ** Deserialization: a text without a word *)

Lemma skip_space_blank (s : string) :
  string_forall isspace s = true -> skip_space s = EmptyString.
Proof.
  induction s as [|c s IH]; [reflexivity |].
  cbn [string_forall skip_space]. intros H.
  apply andb_prop in H as [Hc Hs]. rewrite Hc. auto.
Qed.

(** X19: on a text made of blanks only, the empty text included,
    [deserialize] removes the components and does nothing else: no shape,
    no line of output, the annotation and the origin as they were. *)
Theorem deserialize_blank (s : string) (i : Image.t)
        (out : list diagnostic) :
  string_forall isspace s = true ->
  let r := Image.deserialize s i out in
  snd r = Ok tt
  /\ Image.this (fst r) = Image.set_components [] i
  /\ Image.cout (fst r) = out.
Proof.
  intros Hblank. cbv zeta. unfold Image.deserialize.
  assert (Hread :
            Image.read_word
              (Image.mkState (Image.set_components [] i) out
                             (Stream.new s) EmptyString)
            = (Image.mkState (Image.set_components [] i) out
                             (Stream.mk EmptyString true true) EmptyString,
               Ok tt)).
  { unfold Image.read_word, Image.modify, Stream.extract, Stream.new.
    cbn [Image.buf Image.word Image.this Image.cout Stream.good
         Stream.eofbit Stream.failbit Stream.rest negb andb].
    rewrite (skip_space_blank s Hblank). reflexivity. }
  destruct (String.length s); cbn [Image.parse_loop]; rewrite Hread;
    cbn [Image.buf Stream.to_bool Stream.failbit negb fst snd
         Image.this Image.cout]; auto.
Qed.

Lemma deserialize_blank_witness :
  let i := Image.annotate "kept" (Image.add_component
                                    (Shape.OfCircle
                                       (Circle.new (point 1 2) (of_int 3)
                                                   (mkColor 1 2 3)))
                                    fresh) in
  string_forall isspace "  " = true
  /\ Image.components (Image.this (fst (Image.deserialize "  " i []))) = []
  /\ Image.get_annotation (Image.this (fst (Image.deserialize "  " i [])))
     = "kept"%string.
Proof.
  intros i.
  assert (Hblank : string_forall isspace "  " = true) by reflexivity.
  split; [exact Hblank |].
  destruct (deserialize_blank "  " i [] Hblank) as (_ & Hthis & _).
  rewrite Hthis. split; reflexivity.
Defined.

(** ** The area of a polygon *)


(** ** Numbers through the text *)

(** X22: [to_string(int)] read by [std::stoi] gives the integer back, so
    two different integers are never printed alike. *)
Theorem int_through_text (a b : Z) :
  int_ok a -> int_ok b ->
  stoi (to_string_int a) = Ok a
  /\ (to_string_int a = to_string_int b -> a = b).
Proof.
  intros Ha Hb. split; [apply stoi_to_string_int; exact Ha |].
  intros Heq. pose proof (stoi_to_string_int a Ha) as Hra.
  rewrite Heq, (stoi_to_string_int b Hb) in Hra. congruence.
Qed.

Lemma int_through_text_witness :
  int_ok (-2147483648) /\ int_ok 255
  /\ stoi (to_string_int (-2147483648)) = Ok (-2147483648).
Proof.
  assert (Ha : int_ok (-2147483648)) by (vm_compute; split; discriminate).
  assert (Hb : int_ok 255) by (vm_compute; split; discriminate).
  split; [exact Ha | split; [exact Hb |]].
  exact (proj1 (int_through_text _ _ Ha Hb)).
Defined.

(** [b] is a float and its value is the number of the goal. *)
Ltac is_float_by b :=
  exists b; split;
  [reflexivity | vm_compute; f_equal; apply Qc_is_canon; reflexivity].



(** ** The point-in-polygon test *)

Lemma feqb_eq (a b : float) : feqb a b = true <-> a = b.
Proof.
  unfold feqb. rewrite Qeq_bool_iff. split.
  - intros H. apply Qc_is_canon. exact H.
  - intros ->. reflexivity.
Qed.

(** The guard [(yi >= py) != (yj >= py)] keeps the divisor [yj - yi] away
    from zero. *)
Lemma crossing_defined (p pi pj : Vec2) :
  exists hit, crossing p pi pj = Ok hit.
Proof.
  unfold crossing.
  destruct (Bool.eqb (fgeb (y pi) (y p)) (fgeb (y pj) (y p))) eqn:Hguard;
    cbn [negb]; [eexists; reflexivity |].
  unfold fdiv_checked.
  destruct (feqb (fsub (y pj) (y pi)) (of_int 0)) eqn:Hzero;
    [|eexists; reflexivity].
  exfalso. apply feqb_eq in Hzero.
  assert (Heq : y pj = y pi).
  { unfold fsub, float in *. rewrite of_int_0 in Hzero.
    replace (y pj) with ((y pj - y pi) + y pi)%Qc by ring.
    rewrite Hzero. ring. }
  rewrite Heq, Bool.eqb_reflx in Hguard. discriminate.
Qed.

Lemma isPointInPolygon_from_defined (p : Vec2) (pts : list Vec2) :
  forall pj c, exists inside, isPointInPolygon_from p pj pts c = Ok inside.
Proof.
  induction pts as [|pi rest IH]; intros pj c; cbn [isPointInPolygon_from].
  - eexists; reflexivity.
  - destruct (crossing_defined p pi pj) as [hit ->]. apply IH.
Qed.

(** X24: [isPointInPolygon] always gives an answer: the comparison of
    the ordinates that guards the division keeps the divisor
    [m_points[j].y - m_points[i].y] away from zero. *)
Theorem isPointInPolygon_total (p : Vec2) (pg : Polygon.t) :
  exists inside, isPointInPolygon pg p = Ok inside.
Proof.
  destruct pg as [ty col pts]. unfold isPointInPolygon.
  cbn [Polygon.m_points].
  destruct pts as [|p0 rest]; [eexists; reflexivity |].
  apply isPointInPolygon_from_defined.
Qed.

(** ** The round trip, into any image *)

(** The text of an image read into [into], whose origin is (0,0). *)
Lemma deserialize_serialize_into (img into : Image.t)
      (out : list diagnostic) :
  Forall shape_ok (Image.components img) ->
  annotation_ok (Image.get_annotation img) ->
  Image.origin into = point 0 0 ->
  exists word buf,
    Image.deserialize (Image.serialize EmptyString img) into out
    = (Image.mkState
         (Image.annotate
            (String " " (Image.get_annotation img))
            (Image.set_components
               (map round2_shape (Image.components img)) into))
         out buf word, Ok tt).
Proof.
  intros Hshapes Hann Ho.
  unfold Image.deserialize, Stream.new. rewrite Image_serialize_text.
  destruct (parse_loop_shapes (Image.components img) [] into out
              EmptyString (annotation_text (Image.get_annotation img))
              (String.length
                 (fold_right shape_text
                    (annotation_text (Image.get_annotation img))
                    (Image.components img))))
    as [word Hrun]; auto with blank.
  rewrite Hrun, (parse_loop_annotation _ _ _ _ Hann).
  cbn [app]. eexists. eexists. reflexivity.
Qed.


(** The floats of [four_shapes] are floats, and have two decimals. *)
Lemma four_shapes_two_decimals :
  Forall two_decimals (Image.components four_shapes).
Proof.
  destruct four_shapes_ok as (_ & Hexact & _).
  assert (Hfloats : Forall (fun s => Forall is_float (shape_floats s))
                           (Image.components four_shapes)).
  { repeat constructor;
      first [ is_float_by (Binary32.of_int 1)
            | is_float_by (Binary32.of_int 2)
            | is_float_by (Binary32.of_int 3)
            | is_float_by (Binary32.of_int 4)
            | is_float_by (Binary32.of_int 5)
            | is_float_by (Binary32.of_int 6)
            | is_float_by (Binary32.of_int 10)
            | is_float_by (Binary32.literal 25 2)
            | is_float_by (Binary32.literal 55 1)
            | is_float_by (Binary32.literal (-125) 2)
            | is_float_by (Binary32.literal 5 1) ]. }
  unfold two_decimals. apply Forall_and; assumption.
Qed.


(** ** Deserialization: a record cut short *)

Lemma read_token_end (w : string) :
  string_forall (fun c => negb (isspace c)) w = true ->
  Stream.read_token w = (w, EmptyString).
Proof.
  induction w as [|c w IH]; intros Hw; [reflexivity |].
  cbn [string_forall] in Hw. apply andb_prop in Hw as [Hc Hw].
  apply negb_true_iff in Hc.
  cbn [Stream.read_token]. rewrite Hc, (IH Hw). reflexivity.
Qed.

(** The last token of the input is read, and the end-of-file bit is set;
    the extraction after it fails and leaves [word] as it is. *)
Lemma read_word_last (i : Image.t) (out : list diagnostic)
      (w word : string) :
  is_token w ->
  Image.read_word
    (Image.mkState i out (Stream.mk (String " " w) false false) word)
  = (Image.mkState i out (Stream.mk EmptyString true false) w, Ok tt).
Proof.
  intros [Hne Hw]. unfold Image.read_word, Image.modify, Stream.extract.
  cbn [Image.this Image.cout Image.buf Image.word Stream.good
       Stream.eofbit Stream.failbit Stream.rest negb andb].
  destruct w as [|c w]; [congruence |].
  pose proof Hw as Hc. cbn [string_forall] in Hc.
  apply andb_prop in Hc as [Hc _]. apply negb_true_iff in Hc.
  change (skip_space (String " " (String c w)))
    with (skip_space (String c w)).
  cbn [skip_space]. rewrite Hc.
  rewrite (read_token_end _ Hw). reflexivity.
Qed.

Lemma read_word_at_end (i : Image.t) (out : list diagnostic)
      (word : string) (fail : bool) :
  Image.read_word
    (Image.mkState i out (Stream.mk EmptyString true fail) word)
  = (Image.mkState i out (Stream.mk EmptyString true true) word, Ok tt).
Proof. reflexivity. Qed.



(** ** The box of a line, axis by axis *)


(** ** [serialize] only appends *)

Lemma blank_app (a b : string) : blank_first a -> blank_first (a ++ b).
Proof. intros [r ->]. exists (r ++ b)%string. reflexivity. Qed.

Lemma blank_shape_text (s : Shape.t) :
  forall tail, blank_first (shape_text s tail).
Proof.
  induction s as [c|p|l|e|ty col cs a o IH] using Shape_ind_nested;
    intros tail; try (eexists; reflexivity).
  unfold shape_text.
  change (Shape.Image_serialize EmptyString (Shape.mkImage ty col cs a o))
    with (Image.serialize EmptyString (Shape.mkImage ty col cs a o)).
  rewrite Image_serialize_text. apply blank_app.
  cbn [Image.components Image.get_annotation].
  destruct IH as [|c cs' Hc _]; cbn [fold_right];
    [apply blank_annotation_text | apply Hc].
Qed.

(** X29: [serialize] leaves what the string holds already and appends to
    it a text that does not depend on it and starts with a blank, for
    every shape and every image. *)
Theorem serialize_appends (serial : string) (s : Shape.t) :
  Shape.serialize serial s
  = (serial ++ Shape.serialize EmptyString s)%string
  /\ blank_first (Shape.serialize EmptyString s).
Proof.
  pose proof (Shape_serialize_text s serial EmptyString) as Hs.
  pose proof (Shape_serialize_text s EmptyString EmptyString) as He.
  rewrite append_nil_r in Hs, He. cbn [append] in He.
  split.
  - rewrite Hs, He. reflexivity.
  - rewrite He. apply blank_shape_text.
Qed.

(** ** An argument bound to a vertex of the polygon *)

Lemma write_middle (done rest : list Binary32.Vec2) (a b : Binary32.Vec2) :
  Binary32.Polygon.write (length done) b (done ++ a :: rest)
  = done ++ b :: rest.
Proof.
  unfold Binary32.Polygon.write.
  rewrite firstn_app, Nat.sub_diag, firstn_all, firstn_O, app_nil_r.
  rewrite skipn_app, skipn_all2 by lia.
  replace (S (length done) - length done)%nat with 1%nat by lia.
  reflexivity.
Qed.

Section Member.

Variable k : nat.
Variable f : Binary32.Vec2 -> Binary32.Vec2 -> Binary32.Vec2.
Variable g : Binary32.Vec2 -> Binary32.Vec2.
Variable body : Binary32.Vec2 -> nat -> list Binary32.Vec2
                -> list Binary32.Vec2.

(** The body at a vertex other than the [k]-th applies [f] with the
    [k]-th vertex as it is then; at the [k]-th vertex it applies [g]. *)
Hypothesis body_spec :
  forall it i pts,
    nth_error pts i = Some it ->
    body it i pts
    = Binary32.Polygon.write i
        (if Nat.eqb i k then g it
         else f (Binary32.Polygon.read (Binary32.Member k) pts) it) pts.

Lemma for_each_after (rest : list Binary32.Vec2) :
  forall done,
    (k < length done)%nat ->
    Binary32.Polygon.for_each body (length done) (length rest)
                              (done ++ rest)
    = done
        ++ map (f (Binary32.Polygon.read (Binary32.Member k) done)) rest.
Proof.
  induction rest as [|a rest IH]; intros done Hk; [reflexivity |].
  cbn [length Binary32.Polygon.for_each map].
  assert (Hnth : nth_error (done ++ a :: rest) (length done) = Some a).
  { rewrite nth_error_app2 by lia. rewrite Nat.sub_diag. reflexivity. }
  rewrite Hnth, (body_spec _ _ _ Hnth).
  destruct (Nat.eqb_spec (length done) k) as [Heq|_]; [lia |].
  rewrite write_middle.
  unfold Binary32.Polygon.read at 1. rewrite app_nth1 by exact Hk.
  specialize (IH (done ++ [f (nth k done
                                  (Binary32.mkVec2
                                     (SpecFloat.S754_zero false)
                                     (SpecFloat.S754_zero false))) a])).
  rewrite last_length in IH.
  rewrite <- !app_assoc in IH. cbn [app] in IH.
  rewrite IH by lia.
  unfold Binary32.Polygon.read. rewrite app_nth1 by exact Hk.
  reflexivity.
Qed.

Lemma for_each_member (pre : list Binary32.Vec2) :
  forall (done post : list Binary32.Vec2) (v : Binary32.Vec2),
    k = (length done + length pre)%nat ->
    Binary32.Polygon.for_each body (length done)
                              (length (pre ++ v :: post))
                              (done ++ pre ++ v :: post)
    = done ++ map (f v) pre ++ g v :: map (f (g v)) post.
Proof.
  induction pre as [|a pre IH]; intros done post v Hk.
  - cbn [app length Binary32.Polygon.for_each map].
    assert (Hnth : nth_error (done ++ v :: post) (length done) = Some v).
    { rewrite nth_error_app2 by lia. rewrite Nat.sub_diag. reflexivity. }
    rewrite Hnth, (body_spec _ _ _ Hnth).
    cbn [length] in Hk. rewrite Nat.add_0_r in Hk.
    destruct (Nat.eqb_spec (length done) k) as [_|Hne]; [|lia].
    rewrite write_middle.
    pose proof (for_each_after post (done ++ [g v])) as Hafter.
    rewrite last_length in Hafter.
    rewrite <- !app_assoc in Hafter. cbn [app] in Hafter.
    rewrite Hafter by lia.
    unfold Binary32.Polygon.read. rewrite Hk, app_nth2 by lia.
    rewrite Nat.sub_diag. reflexivity.
  - cbn [app length Binary32.Polygon.for_each map].
    assert (Hnth : nth_error (done ++ a :: pre ++ v :: post) (length done)
                   = Some a).
    { rewrite nth_error_app2 by lia. rewrite Nat.sub_diag. reflexivity. }
    rewrite Hnth, (body_spec _ _ _ Hnth).
    cbn [length] in Hk.
    destruct (Nat.eqb_spec (length done) k) as [Heq|_]; [lia |].
    rewrite write_middle.
    assert (Hv : Binary32.Polygon.read (Binary32.Member k)
                   (done ++ a :: pre ++ v :: post) = v).
    { unfold Binary32.Polygon.read. rewrite app_nth2 by lia.
      replace (k - length done)%nat with (S (length pre)) by lia.
      cbn [nth]. rewrite app_nth2 by lia. rewrite Nat.sub_diag.
      reflexivity. }
    rewrite Hv.
    specialize (IH (done ++ [f v a]) post v).
    rewrite last_length in IH.
    rewrite <- !app_assoc in IH. cbn [app] in IH.
    rewrite IH by lia. reflexivity.
Qed.

End Member.

Lemma write_twice (i : nat) (a b : Binary32.Vec2)
      (pts : list Binary32.Vec2) :
  (i < length pts)%nat ->
  Binary32.Polygon.write i a (Binary32.Polygon.write i b pts)
  = Binary32.Polygon.write i a pts.
Proof.
  intros Hi. unfold Binary32.Polygon.write.
  rewrite firstn_app, firstn_firstn, Nat.min_id.
  rewrite length_firstn, Nat.min_l by lia. rewrite Nat.sub_diag, firstn_O.
  rewrite app_nil_r. f_equal. f_equal.
  rewrite skipn_app, length_firstn, Nat.min_l by lia.
  rewrite skipn_all2 by (rewrite length_firstn; lia).
  replace (S i - i)%nat with 1%nat by lia. reflexivity.
Qed.

Lemma read_write_other (k i : nat) (a : Binary32.Vec2)
      (pts : list Binary32.Vec2) :
  (i < length pts)%nat -> i <> k ->
  Binary32.Polygon.read (Binary32.Member k) (Binary32.Polygon.write i a pts)
  = Binary32.Polygon.read (Binary32.Member k) pts.
Proof.
  intros Hi Hne. unfold Binary32.Polygon.read, Binary32.Polygon.write.
  rewrite <- (firstn_skipn i pts) at 3.
  destruct (Nat.ltb_spec k i) as [Hlt|Hge].
  - rewrite !app_nth1 by (rewrite length_firstn; lia). reflexivity.
  - rewrite !app_nth2 by (rewrite length_firstn; lia).
    rewrite length_firstn, Nat.min_l by lia.
    destruct (k - i)%nat as [|j] eqn:Hj; [lia |].
    cbn [nth].
    destruct (skipn i pts) as [|h tl] eqn:Hs.
    + apply (f_equal (@length _)) in Hs. rewrite length_skipn in Hs.
      cbn in Hs. lia.
    + cbn [nth]. f_equal.
      pose proof (skipn_skipn 1 i pts) as Hss. cbn [Nat.add] in Hss.
      rewrite <- Hss, Hs. reflexivity.
Qed.

Lemma read_write_same (k : nat) (a : Binary32.Vec2)
      (pts : list Binary32.Vec2) :
  (k < length pts)%nat ->
  Binary32.Polygon.read (Binary32.Member k) (Binary32.Polygon.write k a pts)
  = a.
Proof.
  intros Hk. unfold Binary32.Polygon.read, Binary32.Polygon.write.
  rewrite app_nth2 by (rewrite length_firstn; lia).
  rewrite length_firstn, Nat.min_l by lia. rewrite Nat.sub_diag.
  reflexivity.
Qed.

Lemma length_write (i : nat) (a : Binary32.Vec2)
      (pts : list Binary32.Vec2) :
  (i < length pts)%nat -> length (Binary32.Polygon.write i a pts) = length pts.
Proof.
  intros Hi. unfold Binary32.Polygon.write.
  rewrite length_app, length_firstn. cbn [length].
  rewrite length_skipn. lia.
Qed.

(** X30: [Polygon::translate(v)] and [Polygon::rotate(p, angle)] read
    their argument at every turn of the loop.  With [v] bound to the
    [k]-th vertex, as in [pg.translate(pg.points()[k])], the vertices
    before it are moved by that vertex, the vertex itself is doubled, and
    the vertices after it are moved by the double.  With [p] bound to the
    [k]-th vertex, the vertices before it are turned about it, the vertex
    itself ends as a zero or a NaN in both coordinates, and the vertices
    after it are turned about that. *)
Theorem Polygon_argument_bound_to_vertex
  (T : Binary32.Trig) (angle : SpecFloat.spec_float)
  (ty : Derivedtype) (col : Color)
  (pre post : list Binary32.Vec2) (v : Binary32.Vec2) :
  let pg := Binary32.Polygon.mk ty col (pre ++ v :: post) in
  let k := length pre in
  let s := Binary32.fast_sin angle in
  let c := Binary32.fast_cos angle in
  Binary32.Polygon.m_points
    (Binary32.Polygon.translate (Binary32.Member k) pg)
  = map (fun m => Binary32.vadd m v) pre
      ++ Binary32.vadd v v
      :: map (fun m => Binary32.vadd m (Binary32.vadd v v)) post
  /\ exists w : Binary32.Vec2,
      zero_or_nan (Binary32.x w) = true
      /\ zero_or_nan (Binary32.y w) = true
      /\ Binary32.Polygon.m_points
           (Binary32.Polygon.rotate (Binary32.Member k) angle pg)
         = map (turned s c v) pre ++ w :: map (turned s c w) post.
Proof.
  cbv zeta. split.
  - unfold Binary32.Polygon.translate, Binary32.Polygon.set_points.
    cbn [Binary32.Polygon.m_points].
    apply (for_each_member (length pre)
             (fun p it => Binary32.vadd it p)
             (fun it => Binary32.vadd it it) _) with (done := []);
      [|reflexivity].
    intros it i pts Hnth.
    destruct (Nat.eqb_spec i (length pre)) as [->|Hne]; [|reflexivity].
    unfold Binary32.Polygon.read.
    rewrite (nth_error_nth pts (length pre) _ Hnth). reflexivity.
  - exists (Binary32.mkVec2
              (Binary32.fadd
                 (Binary32.fsub
                    (Binary32.fmul
                       (Binary32.fsub (Binary32.x v) (Binary32.x v))
                       (Binary32.fast_cos angle))
                    (Binary32.fmul
                       (Binary32.fsub (Binary32.y v) (Binary32.y v))
                       (Binary32.fast_sin angle)))
                 (Binary32.fsub (Binary32.x v) (Binary32.x v)))
              (Binary32.fadd
                 (Binary32.fadd
                    (Binary32.fmul
                       (Binary32.fsub (Binary32.x v) (Binary32.x v))
                       (Binary32.fast_sin angle))
                    (Binary32.fmul
                       (Binary32.fsub (Binary32.y v) (Binary32.y v))
                       (Binary32.fast_cos angle)))
                 (Binary32.fsub (Binary32.y v) (Binary32.y v)))).
    pose proof (fsub_self (Binary32.x v)) as Hx.
    pose proof (fsub_self (Binary32.y v)) as Hy.
    cbn [Binary32.x Binary32.y].
    split; [|split].
    + apply fadd_zero_or_nan; [|exact Hx].
      apply fsub_zero_or_nan; apply fmul_zero_or_nan; assumption.
    + apply fadd_zero_or_nan; [|exact Hy].
      apply fadd_zero_or_nan; apply fmul_zero_or_nan; assumption.
    + unfold Binary32.Polygon.rotate, Binary32.Polygon.set_points.
      cbn [Binary32.Polygon.m_points].
      apply (for_each_member (length pre)
               (fun p it =>
                  turned (Binary32.fast_sin angle) (Binary32.fast_cos angle)
                         p it)
               (fun it =>
                  Binary32.mkVec2
                    (Binary32.fadd
                       (Binary32.fsub
                          (Binary32.fmul
                             (Binary32.fsub (Binary32.x it) (Binary32.x it))
                             (Binary32.fast_cos angle))
                          (Binary32.fmul
                             (Binary32.fsub (Binary32.y it) (Binary32.y it))
                             (Binary32.fast_sin angle)))
                       (Binary32.fsub (Binary32.x it) (Binary32.x it)))
                    (Binary32.fadd
                       (Binary32.fadd
                          (Binary32.fmul
                             (Binary32.fsub (Binary32.x it) (Binary32.x it))
                             (Binary32.fast_sin angle))
                          (Binary32.fmul
                             (Binary32.fsub (Binary32.y it) (Binary32.y it))
                             (Binary32.fast_cos angle)))
                       (Binary32.fsub (Binary32.y it) (Binary32.y it)))) _)
        with (done := []); [|reflexivity].
      intros it i pts Hnth. cbv zeta.
      assert (Hi : (i < length pts)%nat)
        by (apply nth_error_Some; congruence).
      rewrite !write_twice by (rewrite ?length_write; lia).
      f_equal.
      destruct (Nat.eqb_spec i (length pre)) as [->|Hne].
      * rewrite !read_write_same by (rewrite ?length_write; lia).
        unfold Binary32.Polygon.read.
        rewrite (nth_error_nth pts (length pre) _ Hnth).
        reflexivity.
      * rewrite !read_write_other by (rewrite ?length_write; lia).
        reflexivity.
Qed.
